(** * SNES ROM container, address translation, RATS tags, patch staging

    A shallow embedding of [src/structs.cpp]: the [ROM] container with its
    PC <-> SNES address translation under the three supported mappers, the
    RATS tag reader, the [sprite] descriptor and the [patchfile] staging
    buffer, followed by the properties the specification states about them.

    Conventions.
    - A C++ [int] is a [Z]; every operation that can leave the 32-bit range
      ([+], [-], [<<], narrowing casts) is written with [wrap32].
    - [unsigned char] buffers are [list byte]; a read outside the buffer is
      undefined behaviour in the source and is the outcome [Undefined] here.
    - Declarations that live in [structs.h], [file_io.h] or [asar.h] are not
      part of [structs.cpp]; constants and tables among them are section
      variables, types and helpers are modelled from the specification and
      marked as such. *)

From Stdlib Require Import ZArith Lia Bool List.
From Stdlib.Strings Require Import String Ascii Byte.
From stdpp Require Import base option list gmap strings.

Local Open Scope Z_scope.

(* ================================================================== *)
(** * Definitions                                                      *)
(* ================================================================== *)

(** ** Machine integers *)

(** Two's complement reduction of an unbounded integer to a C++ [int]. *)
Definition wrap32 (z : Z) : Z :=
  (z + 0x80000000) mod 0x100000000 - 0x80000000.

Definition is_int (z : Z) : Prop := - 0x80000000 <= z < 0x80000000.

Definition int_add (a b : Z) : Z := wrap32 (a + b).
Definition int_sub (a b : Z) : Z := wrap32 (a - b).
Definition int_shl (a n : Z) : Z := wrap32 (Z.shiftl a n).

(** Reduction to [uint16_t]. *)
Definition wrap16 (z : Z) : Z := z mod 0x10000.

(** ** Outcomes of code that can run into undefined behaviour *)

Inductive outcome (A : Type) : Type :=
| Ok (a : A)
| Undefined.
Arguments Ok {A} a.
Arguments Undefined {A}.

Definition obind {A B} (m : outcome A) (f : A -> outcome B) : outcome B :=
  match m with
  | Ok a => f a
  | Undefined => Undefined
  end.

#[global] Instance outcome_ret : MRet outcome := @Ok.
#[global] Instance outcome_bind : MBind outcome :=
  fun A B f m => obind m f.

(** A read of [l[i]] where [l] has no such element is undefined. *)
Definition defined {A} (o : option A) : outcome A :=
  match o with
  | Some a => Ok a
  | None => Undefined
  end.

(** ** Bytes and buffers *)

#[global] Instance byte_eq_decision : EqDecision byte := Byte.byte_eq_dec.

Definition byte_val (b : byte) : Z := Z.of_N (Byte.to_N b).

(** [buf[i]] for an [int] index: outside the buffer the read is undefined. *)
Definition byte_at (buf : list byte) (i : Z) : outcome Z :=
  if i <? 0 then Undefined
  else defined (byte_val <$> buf !! Z.to_nat i).

(** [n] consecutive elements starting at [buf + i]. *)
Definition bytes_at (buf : list byte) (i : Z) (n : nat) : outcome (list byte) :=
  if i <? 0 then Undefined
  else if (Z.to_nat i + n <=? length buf)%nat
       then Ok (take n (drop (Z.to_nat i) buf))
       else Undefined.

(** The unsigned 16-bit value stored little-endian in two bytes. *)
Definition le16 (lo hi : byte) : Z := byte_val lo + 256 * byte_val hi.

(** ** The file system *)

(** Files by path, and the paths that cannot be opened for writing or
    update (the reason the source checks every [FILE*] against null). *)
Record filesystem := {
  files : gmap string (list byte);
  unwritable : gset string
}.

(** A [FILE*] is the path it was opened on; [None] is the null pointer. *)
Definition FILE := string.

(** Modelled from the spec: the global [open(path, mode)] of [file_io.h],
    for the mode ["r+b"] ("opens the file for read+update; fails if the
    file cannot be opened"). *)
Definition open_update (fs : filesystem) (path : string) : option FILE :=
  match files fs !! path with
  | Some _ => if decide (path ∈ unwritable fs) then None else Some path
  | None => None
  end.

(** Modelled from the spec: the global [open(path, mode)] of [file_io.h],
    for the modes ["w"] and ["wb"] ("open the real target path for
    writing ... replacing any existing file"); bytes are written verbatim
    in both modes. *)
Definition open_write (fs : filesystem) (path : string) (mode : string)
  : option FILE * filesystem :=
  if decide (path ∈ unwritable fs) then (None, fs)
  else (Some path, {| files := <[path := []]> (files fs);
                      unwritable := unwritable fs |}).

(** [::fwrite(data, 1, n, fp)] on a stream opened by [open_write]. *)
Definition file_append (fs : filesystem) (fp : FILE) (data : list byte)
  : filesystem :=
  {| files := <[fp := default [] (files fs !! fp) ++ data]> (files fs);
     unwritable := unwritable fs |}.

(** Modelled from the spec: [file_size(file)] of [file_io.h] ("computes
    total file size"). *)
Definition file_size (fs : filesystem) (fp : FILE) : Z :=
  Z.of_nat (length (default [] (files fs !! fp))).

(** [std::filesystem::exists] and [std::filesystem::remove]. *)
Definition fs_exists (fs : filesystem) (path : string) : bool :=
  bool_decide (is_Some (files fs !! path)).

Definition fs_remove (fs : filesystem) (path : string) : filesystem :=
  {| files := delete path (files fs); unwritable := unwritable fs |}.

(** ** Address value types *)

Module pcaddress.
Record t := make { value : Z }.
End pcaddress.

Module snesaddress.
Record t := make { value : Z }.
End snesaddress.

Inductive MapperType := lorom | sa1rom | fullsa1rom.

(** ** The ROM container *)

Module ROM.

(** [m_data = None] is the null buffer. *)
Record t := make {
  name : string;
  m_data : option (list byte);
  size : Z;
  header_size : Z;
  mapper : MapperType
}.

Section translation.
(** [sa1banks[0..7]], the SA-1 bank bases; the table is declared in
    [structs.h]. *)
Variable sa1banks : Z -> Z.

(** The loop [for (int i = 0; i < 8; i++) if (sa1banks[i] == masked)]
    of [pc_to_snes]: the first matching index, scanning [n] slots from
    [i]. *)
Fixpoint sa1_scan (masked : Z) (n : nat) (i : Z) : option Z :=
  match n with
  | O => None
  | S n' => if sa1banks i =? masked then Some i
            else sa1_scan masked n' (i + 1)
  end.

Definition pc_to_snes (rom : t) (pc_address : pcaddress.t) : snesaddress.t :=
  let address := int_sub (pcaddress.value pc_address) (header_size rom) in
  match mapper rom with
  | lorom =>
      snesaddress.make
        (Z.lor (Z.lor (Z.land (int_shl address 1) 0x7F0000)
                      (Z.land address 0x7FFF)) 0x8000)
  | sa1rom =>
      match sa1_scan (Z.land address 0x700000) 8 0 with
      | Some i =>
          snesaddress.make
            (Z.lor (Z.lor (Z.lor 0x008000 (int_shl i 21))
                          (int_shl (Z.land address 0x0F8000) 1))
                   (Z.land address 0x7FFF))
      | None => snesaddress.make (-1)
      end
  | fullsa1rom =>
      if Z.land address 0x400000 =? 0x400000 then
        snesaddress.make (Z.lor address 0xC00000)
      else if Z.land address 0x600000 =? 0x000000 then
        snesaddress.make
          (Z.lor (Z.lor (Z.land (int_shl address 1) 0x3F0000) 0x8000)
                 (Z.land address 0x7FFF))
      else if Z.land address 0x600000 =? 0x200000 then
        snesaddress.make
          (Z.lor (Z.lor (Z.lor 0x800000
                               (Z.land (int_shl address 1) 0x3F0000))
                        0x8000)
                 (Z.land address 0x7FFF))
      else snesaddress.make (-1)
  end.

Definition snes_to_pc (rom : t) (snes_address : snesaddress.t) : pcaddress.t :=
  let address := snesaddress.value snes_address in
  match mapper rom with
  | lorom =>
      if (Z.land address 0xFE0000 =? 0x7E0000)
         || (Z.land address 0x408000 =? 0x000000)
         || (Z.land address 0x708000 =? 0x700000)
      then pcaddress.make (-1)
      else
        let address :=
          Z.lor (Z.shiftr (Z.land address 0x7F0000) 1)
                (Z.land address 0x7FFF) in
        pcaddress.make (int_add address (header_size rom))
  | sa1rom =>
      let address :=
        if Z.land address 0x408000 =? 0x008000 then
          Z.lor (Z.lor (sa1banks (Z.shiftr (Z.land address 0xE00000) 21))
                       (Z.shiftr (Z.land address 0x1F0000) 1))
                (Z.land address 0x007FFF)
        else if Z.land address 0xC00000 =? 0xC00000 then
          Z.lor (sa1banks (Z.lor (Z.shiftr (Z.land address 0x100000) 20)
                                 (Z.shiftr (Z.land address 0x200000) 19)))
                (Z.land address 0x0FFFFF)
        else -1 in
      pcaddress.make (int_add address (header_size rom))
  | fullsa1rom =>
      if Z.land address 0xC00000 =? 0xC00000 then
        let address := Z.lor (Z.land address 0x3FFFFF) 0x400000 in
        pcaddress.make (int_add address (header_size rom))
      else if (Z.land address 0xC00000 =? 0x000000)
              || (Z.land address 0xC00000 =? 0x800000) then
        if Z.land address 0x008000 =? 0x000000 then pcaddress.make (-1)
        else
          let address :=
            Z.lor (Z.lor (Z.shiftr (Z.land address 0x800000) 2)
                         (Z.shiftr (Z.land address 0x3F0000) 1))
                  (Z.land address 0x7FFF) in
          pcaddress.make (int_add address (header_size rom))
      else pcaddress.make (-1)
  end.

End translation.

(** The addresses [snes_to_pc] refuses to translate: the condition of
    each branch of the source that assigns or returns [-1]. *)
Definition unmapped (m : MapperType) (address : Z) : bool :=
  match m with
  | lorom =>
      (Z.land address 0xFE0000 =? 0x7E0000)
      || (Z.land address 0x408000 =? 0x000000)
      || (Z.land address 0x708000 =? 0x700000)
  | sa1rom =>
      negb (Z.land address 0x408000 =? 0x008000)
      && negb (Z.land address 0xC00000 =? 0xC00000)
  | fullsa1rom =>
      negb (Z.land address 0xC00000 =? 0xC00000)
      && (if (Z.land address 0xC00000 =? 0x000000)
             || (Z.land address 0xC00000 =? 0x800000)
          then Z.land address 0x008000 =? 0x000000
          else true)
  end.

(** [m_data[i]]; reading through the null buffer is undefined. *)
Definition data_at (rom : t) (i : Z) : outcome Z :=
  buf ← defined (m_data rom); byte_at buf i.

Definition read_byte (rom : t) (addr : pcaddress.t) : outcome Z :=
  data_at rom (pcaddress.value addr).

Definition read_word (rom : t) (addr : pcaddress.t) : outcome Z :=
  b0 ← data_at rom (pcaddress.value addr);
  b1 ← data_at rom (int_add (pcaddress.value addr) 1);
  mret (wrap16 (Z.lor b0 (Z.shiftl b1 8))).

Definition read_long (rom : t) (addr : pcaddress.t) : outcome Z :=
  b0 ← data_at rom (pcaddress.value addr);
  b1 ← data_at rom (int_add (pcaddress.value addr) 1);
  b2 ← data_at rom (int_add (pcaddress.value addr) 2);
  mret (Z.lor (Z.lor b0 (Z.shiftl b1 8)) (Z.shiftl b2 16)).

Definition rats_tag : list byte := ["S"; "T"; "A"; "R"]%byte.

(** [rats_tag.size() + sizeof(uint16_t) + sizeof(uint16_t)]. *)
Definition rats_header_offset : Z := Z.of_nat (length rats_tag) + 2 + 2.

(** [None] is [std::nullopt]. *)
Definition get_rats_size (rom : t) (pcaddr : pcaddress.t)
  : outcome (option Z) :=
  let addr := pcaddress.value pcaddr in
  let addr := wrap32 (addr - rats_header_offset) in
  buf ← defined (m_data rom);
  tag ← bytes_at buf addr (length rats_tag);
  if negb (bool_decide (tag = rats_tag)) then mret None
  else
    let addr := int_add addr (Z.of_nat (length rats_tag)) in
    b0 ← byte_at buf addr;
    b1 ← byte_at buf (int_add addr 1);
    let tag_size := wrap16 (Z.lor b0 (Z.shiftl b1 8)) in
    b2 ← byte_at buf (int_add addr 2);
    b3 ← byte_at buf (int_add addr 3);
    let chksum := wrap16 (Z.lor b2 (Z.shiftl b3 8)) in
    if negb (Z.lxor tag_size 0xFFFF =? chksum) then mret None
    else
      let tag_size := wrap16 (tag_size + 1) in
      mret (Some tag_size).

Section loading.
(** [read_all(name, text_mode, minimum_size)] of [file_io.h]: the
    freshly allocated buffer holding the file, or [None] for the null
    pointer when the read fails. *)
Variable read_all : filesystem -> string -> bool -> Z -> option (list byte).
(** The fixed maximum ROM size, a constant of [structs.h]. *)
Variable MAX_ROM_SIZE : Z.

Definition open (fs : filesystem) (rom : t) : outcome (bool * t) :=
  match open_update fs (name rom) with
  | None =>
      mret (false, make (name rom) None (size rom) (header_size rom)
                        (mapper rom))
  | Some file =>
      let size := wrap32 (file_size fs file) in
      let header_size := Z.land size 0x7FFF in
      let size := int_sub size header_size in
      let m_data :=
        read_all fs (name rom) false (MAX_ROM_SIZE + header_size) in
      match m_data with
      | None =>
          mret (false, make (name rom) None size header_size (mapper rom))
      | Some buf =>
          b ← byte_at buf (header_size + 0x7fd5);
          if b =? 0x23 then
            b' ← byte_at buf (header_size + 0x7fd7);
            if b' =? 0x0D then
              mret (true, make (name rom) m_data size header_size
                               fullsa1rom)
            else
              mret (true, make (name rom) m_data size header_size sa1rom)
          else
            mret (true, make (name rom) m_data size header_size lorom)
      end
  end.

(** [ROM::open(std::string n)]. *)
Definition open_named (fs : filesystem) (rom : t) (n : string)
  : outcome (bool * t) :=
  open fs (make n (m_data rom) (size rom) (header_size rom) (mapper rom)).

End loading.

End ROM.

(** Modelled from the spec: an instance of [read_all] ("reads the entire
    file (header included) into a freshly allocated buffer sized to a fixed
    maximum ROM size plus header; leaves the buffer null and returns
    failure if the read fails"), used in the worked examples: the file's
    bytes followed by zero bytes up to [minimum_size]. *)
Definition read_all_padded (fs : filesystem) (name : string) (text_mode : bool)
    (minimum_size : Z) : option (list byte) :=
  match files fs !! name with
  | Some content =>
      Some (content
            ++ replicate (Z.to_nat minimum_size - length content) "000"%byte)
  | None => None
  end.

(** ** Pointers and sprite descriptors *)

Module pointer.
(** Modelled from the spec: the [pointer] struct of [structs.h], a
    "24-bit value laid out as bank (bits 16-23), high byte (8-15), low
    byte (0-7); constructible from raw 24-bit integer". *)
Record t := make { lowbyte : Z; highbyte : Z; bankbyte : Z }.

Definition of_int (snes : Z) : t :=
  make (Z.land snes 0xFF) (Z.land (Z.shiftr snes 8) 0xFF)
       (Z.land (Z.shiftr snes 16) 0xFF).

Definition raw (p : t) : Z :=
  Z.lor (Z.lor (Z.shiftl (bankbyte p) 16) (Z.shiftl (highbyte p) 8))
        (lowbyte p).

Definition eqb (p q : t) : bool :=
  (lowbyte p =? lowbyte q) && (highbyte p =? highbyte q)
  && (bankbyte p =? bankbyte q).

Section sentinel.
(** The bytes of the address of an [RTL] instruction, constants of
    [structs.h]. *)
Variables RTL_BANK RTL_HIGH RTL_LOW : Z.

(** [constexpr pointer DEFAULT_PTR] of [structs.cpp]. *)
Definition DEFAULT_PTR : t :=
  of_int (Z.lor (Z.lor (Z.shiftl RTL_BANK 16) (Z.shiftl RTL_HIGH 8))
                RTL_LOW).

(** Modelled from the spec: [pointer::is_empty] of [structs.h], the
    pointer "equal[s] the fixed sentinel". *)
Definition is_empty (p : t) : bool := eqb p DEFAULT_PTR.
End sentinel.
End pointer.

(** Modelled from the spec: the aggregates of [structs.h] a sprite is made
    of, "a list of 16x16 tile map entries, a list of positioned display
    entries (each with coordinates, a flag, free-text description, and a
    list of tiles each either a literal tile number or free text), and a
    list of named collection entries (each a flag plus a variable-length
    property-byte vector)"; the field names are those [sprite::print]
    reads. *)
Module map8x8.
Record t := make { tile : Z; prop : Z }.
End map8x8.

Module map16.
Record t := make {
  top_left : map8x8.t; bottom_left : map8x8.t;
  top_right : map8x8.t; bottom_right : map8x8.t
}.
End map16.

Module tile.
Record t := make {
  x_offset : Z; y_offset : Z; tile_number : Z; text : string
}.
End tile.

Module display.
Record t := make {
  description : string; tiles : list tile.t; extra_bit : bool;
  x_or_index : Z; y_or_value : Z
}.
End display.

Module collection.
Record t := make { name : string; extra_bit : bool; prop : list Z }.
End collection.

Inductive display_type := XYPosition | ExtensionByte.

Inductive ListType := Sprite | Extended | Cluster.

(** Modelled from the spec: the sprite "table" of [structs.h], "type,
    act-like id, 6 tweak bytes, 2 optional extra bytes" and the init and
    main pointers. *)
Module sprite_table.
Record t := make {
  type : Z; actlike : Z; tweak : list Z;
  init : pointer.t; main : pointer.t; extra : list Z
}.
End sprite_table.

(** Modelled from the spec: "five default-valued pointer fields
    (carriable/carried/goal/kicked/mouth)". *)
Module status_pointers.
Record t := make {
  carriable : pointer.t; kicked : pointer.t; carried : pointer.t;
  mouth : pointer.t; goal : pointer.t
}.
End status_pointers.

Module sprite.
(** Modelled from the spec: the fields of the [sprite] struct of
    [structs.h], as [sprite::clear] and [sprite::print] name them. *)
Record t := make {
  line : Z; number : Z; level : Z;
  table : sprite_table.t;
  ptrs : status_pointers.t;
  extended_cape_ptr : pointer.t;
  byte_count : Z; extra_byte_count : Z;
  directory : string; asm_file : string; cfg_file : string;
  map_data : list map16.t;
  disp_type : display_type;
  displays : list display.t;
  collections : list collection.t;
  sprite_type : ListType
}.

(** The assignments [table.init = p] and [table.main = p]. *)
Definition set_init (s : t) (p : pointer.t) : t :=
  let tb := table s in
  make (line s) (number s) (level s)
       (sprite_table.make (sprite_table.type tb) (sprite_table.actlike tb)
          (sprite_table.tweak tb) p (sprite_table.main tb)
          (sprite_table.extra tb))
       (ptrs s) (extended_cape_ptr s) (byte_count s) (extra_byte_count s)
       (directory s) (asm_file s) (cfg_file s) (map_data s) (disp_type s)
       (displays s) (collections s) (sprite_type s).

Definition set_main (s : t) (p : pointer.t) : t :=
  let tb := table s in
  make (line s) (number s) (level s)
       (sprite_table.make (sprite_table.type tb) (sprite_table.actlike tb)
          (sprite_table.tweak tb) (sprite_table.init tb) p
          (sprite_table.extra tb))
       (ptrs s) (extended_cape_ptr s) (byte_count s) (extra_byte_count s)
       (directory s) (asm_file s) (cfg_file s) (map_data s) (disp_type s)
       (displays s) (collections s) (sprite_type s).

Section operations.
Variables RTL_BANK RTL_HIGH RTL_LOW : Z.
Let DEFAULT_PTR := pointer.DEFAULT_PTR RTL_BANK RTL_HIGH RTL_LOW.

Definition has_empty_table (s : t) : bool :=
  pointer.is_empty RTL_BANK RTL_HIGH RTL_LOW (sprite_table.init (table s))
  && pointer.is_empty RTL_BANK RTL_HIGH RTL_LOW
       (sprite_table.main (table s)).

Definition clear (s : t) : t :=
  make 0 0 0x200
       (sprite_table.make 0 0 (replicate 6 0) DEFAULT_PTR DEFAULT_PTR
          (replicate 2 0))
       (status_pointers.make DEFAULT_PTR DEFAULT_PTR DEFAULT_PTR
          DEFAULT_PTR DEFAULT_PTR)
       DEFAULT_PTR 0 0 "" "" "" [] XYPosition [] [] Sprite.
End operations.
End sprite.

(** The free function [is_empty_table(std::span<sprite>)]. *)
Fixpoint is_empty_table (RTL_BANK RTL_HIGH RTL_LOW : Z)
    (sprites : list sprite.t) : bool :=
  match sprites with
  | [] => true
  | sprite :: rest =>
      if sprite.has_empty_table RTL_BANK RTL_HIGH RTL_LOW sprite then false
      else is_empty_table RTL_BANK RTL_HIGH RTL_LOW rest
  end.

(** ** Character buffers and the process state *)

(** The address of a character buffer; a null pointer is [None]. *)
Definition loc := positive.

(** The buffers that are alive, the next unused address, the file system
    and the two static keep flags of [patchfile]. *)
Record world := {
  heap : gmap loc (list byte);
  brk : loc;
  fs : filesystem;
  s_meimei_keep : bool;
  s_pixi_keep : bool
}.

Definition M (A : Type) : Type := world -> outcome (A * world).

#[global] Instance M_ret : MRet M := fun A a w => Ok (a, w).
#[global] Instance M_bind : MBind M :=
  fun A B f m w =>
    match m w with
    | Ok (a, w') => f a w'
    | Undefined => Undefined
    end.

Definition undefined {A} : M A := fun _ => Undefined.
Definition get_world : M world := fun w => Ok (w, w).

Definition set_heap (h : gmap loc (list byte)) (w : world) : world :=
  {| heap := h; brk := brk w; fs := fs w;
     s_meimei_keep := s_meimei_keep w; s_pixi_keep := s_pixi_keep w |}.

Definition set_fs (f : filesystem) (w : world) : world :=
  {| heap := heap w; brk := brk w; fs := f;
     s_meimei_keep := s_meimei_keep w; s_pixi_keep := s_pixi_keep w |}.

Definition put_fs (f : filesystem) : M unit := fun w => Ok ((), set_fs f w).

(** A fresh buffer holding [bs]. *)
Definition alloc (bs : list byte) : M loc :=
  fun w =>
    Ok (brk w,
        {| heap := <[brk w := bs]> (heap w); brk := Pos.succ (brk w);
           fs := fs w; s_meimei_keep := s_meimei_keep w;
           s_pixi_keep := s_pixi_keep w |}).

(** Reading, overwriting and releasing a buffer that is not alive is
    undefined. *)
Definition load (l : loc) : M (list byte) :=
  fun w =>
    match heap w !! l with
    | Some bs => Ok (bs, w)
    | None => Undefined
    end.

Definition store (l : loc) (bs : list byte) : M unit :=
  fun w =>
    match heap w !! l with
    | Some _ => Ok ((), set_heap (<[l := bs]> (heap w)) w)
    | None => Undefined
    end.

Definition free (l : loc) : M unit :=
  fun w =>
    match heap w !! l with
    | Some _ => Ok ((), set_heap (delete l (heap w)) w)
    | None => Undefined
    end.

(** [::fwrite(buffer, 1, n, fp)] reads [n] bytes through [buffer]; with
    [n = 0] it reads nothing. *)
Definition read_buffer (buffer : option loc) (n : Z) : M (list byte) :=
  if n =? 0 then mret []
  else
    match buffer with
    | None => undefined
    | Some l =>
        bs ← load l;
        if (0 <? n) && (n <=? Z.of_nat (length bs))
        then mret (take (Z.to_nat n) bs)
        else undefined
    end.

(** [std::string]: the object is identified with the buffer [c_str()]
    returns; its characters are the contents of that buffer. *)
Module cxx_string.
Record t := make { c_str : loc }.

Definition new (bs : list byte) : M t := l ← alloc bs; mret (make l).

Definition contents (s : t) : M (list byte) := load (c_str s).

(** Assignment of a temporary: the old buffer is released, the string
    takes a buffer holding [bs]. *)
Definition assign (s : t) (bs : list byte) : M t :=
  free (c_str s);; new bs.

Definition destroy (s : t) : M unit := free (c_str s).

Section move.
(** The longest string kept inside the string object itself. *)
Variable sso_capacity : nat.

(** Move construction, giving the new string and the moved-from one:
    a short string is copied into the new object's own storage, a long
    one hands over its buffer; the source is left empty. *)
Definition move_construct (src : t) : M (t * t) :=
  bs ← contents src;
  if (length bs <=? sso_capacity)%nat then
    dst ← new bs;
    store (c_str src) [];;
    mret (dst, src)
  else
    src' ← new [];
    mret (src, src').
End move.
End cxx_string.

(** [std::tolower] on the characters of a path. *)
Definition tolower (c : byte) : byte :=
  let n := Byte.to_N c in
  if ((0x41 <=? n) && (n <=? 0x5A))%N
  then default c (Byte.of_N (n + 0x20))
  else c.

(** ** The patch staging buffer *)

(** Modelled from the spec: the [memoryfile] struct of [asar.h], the
    "snapshot view (pointer + length + path) exposed to the external
    patch-application engine". *)
Module memoryfile.
Record t := make { path : option loc; buffer : option loc; length : Z }.
End memoryfile.

(** Modelled from the spec: the origin of a staging buffer, "two origins
    exist (two independent keep flags)". *)
Module origin.
Inductive t := pixi | meimei.
Definition eqb (a b : t) : bool :=
  match a, b with
  | pixi, pixi | meimei, meimei => true
  | _, _ => false
  end.
End origin.

(** Modelled from the spec: [patchfile::openflags], "binary or text mode
    per how the buffer was constructed". *)
Inductive openflags := text_mode | binary_mode.

Module patchfile.

Record t := make {
  m_fs_path : string;
  m_path : cxx_string.t;
  m_data_stream : list byte;
  m_data : cxx_string.t;
  m_vfile : option memoryfile.t;
  m_from_meimei : bool;
  m_binary : bool
}.

Definition set_stream (pf : t) (stream : list byte) : t :=
  make (m_fs_path pf) (m_path pf) stream (m_data pf) (m_vfile pf)
       (m_from_meimei pf) (m_binary pf).

(** [patchfile::patchfile(path, mode, origin)]. *)
Definition create (path : string) (mode : openflags) (o : origin.t) : M t :=
  vfile ← mret (memoryfile.make None None 0);
  lowered ← cxx_string.new (tolower <$> list_byte_of_string path);
  data ← cxx_string.new [];
  mret (make path lowered [] data (Some vfile)
             (origin.eqb o origin.meimei)
             (match mode with binary_mode => true | text_mode => false end)).

Definition set_keep (pixi meimei : bool) : M unit :=
  fun w =>
    Ok ((), {| heap := heap w; brk := brk w; fs := fs w;
               s_meimei_keep := meimei; s_pixi_keep := pixi |}).

(** The three lines that point the snapshot at this object's data and
    path; [m_vfile->] on the null pointer is undefined. *)
Definition refresh_vfile (pf : t) : M t :=
  match m_vfile pf with
  | None => undefined
  | Some _ =>
      bs ← cxx_string.contents (m_data pf);
      mret (make (m_fs_path pf) (m_path pf) (m_data_stream pf) (m_data pf)
                 (Some (memoryfile.make
                          (Some (cxx_string.c_str (m_path pf)))
                          (Some (cxx_string.c_str (m_data pf)))
                          (Z.of_nat (length bs))))
                 (m_from_meimei pf) (m_binary pf))
  end.

Definition close (pf : t) : M t :=
  data ← cxx_string.assign (m_data pf) (m_data_stream pf);
  refresh_vfile (make (m_fs_path pf) (m_path pf) (m_data_stream pf) data
                      (m_vfile pf) (m_from_meimei pf) (m_binary pf)).

(** [patchfile::~patchfile]: the body, then the destruction of the two
    strings whose buffers the snapshot may point to. *)
Definition destroy (pf : t) : M unit :=
  path ← cxx_string.contents (m_path pf);
  (if bool_decide (path = []) then mret ()
   else
     w ← get_world;
     if (if m_from_meimei pf then s_meimei_keep w else s_pixi_keep w) then
       match open_write (fs w) (m_fs_path pf)
                        (if m_binary pf then "wb" else "w") with
       | (None, _) => mret ()
       | (Some fp, fs') =>
           match m_vfile pf with
           | None => undefined
           | Some vfile =>
               data ← read_buffer (memoryfile.buffer vfile)
                                  (memoryfile.length vfile);
               put_fs (file_append fs' fp data)
           end
       end
     else if fs_exists (fs w) (m_fs_path pf) then
       put_fs (fs_remove (fs w) (m_fs_path pf))
     else mret ());;
  cxx_string.destroy (m_data pf);;
  cxx_string.destroy (m_path pf).

Section formatting.
(** The arguments of a [printf]-style call and the text [vsnprintf]
    produces for them. *)
Variable format_args : Type.
Variable vsnprintf : string -> format_args -> list byte.

Definition fprintf (pf : t) (format : string) (args : format_args) : M t :=
  let buf := vsnprintf format args in
  mret (set_stream pf (m_data_stream pf ++ buf)).

(** [fwrite(bindata, size)]: [size] may not exceed the array. *)
Definition fwrite (pf : t) (bindata : list byte) (size : Z) : M t :=
  if (0 <=? size) && (size <=? Z.of_nat (length bindata))
  then mret (set_stream pf (m_data_stream pf ++ take (Z.to_nat size) bindata))
  else undefined.

(** One append to the staging buffer. *)
Inductive append :=
| Formatted (format : string) (args : format_args)
| Raw (bindata : list byte) (size : Z).

Definition apply_append (pf : t) (a : append) : M t :=
  match a with
  | Formatted format args => fprintf pf format args
  | Raw bindata size => fwrite pf bindata size
  end.

Fixpoint apply_appends (pf : t) (ops : list append) : M t :=
  match ops with
  | [] => mret pf
  | a :: rest => pf' ← apply_append pf a; apply_appends pf' rest
  end.

(** The bytes a run of appends adds to the stream. *)
Definition appended (a : append) : list byte :=
  match a with
  | Formatted format args => vsnprintf format args
  | Raw bindata size => take (Z.to_nat size) bindata
  end.

(** Construct, append, finalize. *)
Definition stage (path : string) (mode : openflags) (o : origin.t)
    (ops : list append) : M t :=
  pf ← create path mode o;
  pf ← apply_appends pf ops;
  close pf.
End formatting.

Section moving.
Variable sso_capacity : nat.

(** [patchfile::patchfile(patchfile&& other)], giving the new object
    and what is left of [other]. *)
Definition move_construct (other : t) : M (t * t) :=
  '(path, opath) ← cxx_string.move_construct sso_capacity (m_path other);
  '(data, odata) ← cxx_string.move_construct sso_capacity (m_data other);
  pf ← refresh_vfile
         (make (m_fs_path other) path (m_data_stream other) data
               (m_vfile other) (m_from_meimei other) (m_binary other));
  mret (pf, make "" opath [] odata None (m_from_meimei other)
                 (m_binary other)).
End moving.

End patchfile.

(** ** Vocabulary of the properties *)

(** Every buffer that is alive lies below the next unused address. *)
Definition heap_ok (w : world) : Prop :=
  forall l, is_Some (heap w !! l) -> (l < brk w)%positive.

(** The two strings whose buffers a [patchfile] hands out are alive and
    distinct. *)
Definition owns (w : world) (pf : patchfile.t) : Prop :=
  is_Some (heap w !! cxx_string.c_str (patchfile.m_path pf))
  /\ is_Some (heap w !! cxx_string.c_str (patchfile.m_data pf))
  /\ cxx_string.c_str (patchfile.m_path pf)
     <> cxx_string.c_str (patchfile.m_data pf).

(** The snapshot of [pf] views [pf]'s own strings: its buffer pointer is
    [m_data.c_str()], its length is [m_data.size()], its path pointer is
    [m_path.c_str()], and both buffers are alive. *)
Definition snapshot_consistent (w : world) (pf : patchfile.t) : Prop :=
  exists vfile bs,
    patchfile.m_vfile pf = Some vfile
    /\ memoryfile.buffer vfile
       = Some (cxx_string.c_str (patchfile.m_data pf))
    /\ heap w !! cxx_string.c_str (patchfile.m_data pf) = Some bs
    /\ memoryfile.length vfile = Z.of_nat (length bs)
    /\ memoryfile.path vfile
       = Some (cxx_string.c_str (patchfile.m_path pf))
    /\ is_Some (heap w !! cxx_string.c_str (patchfile.m_path pf)).

(** A raw write stays inside the array it copies from. *)
Definition valid_append {format_args : Type}
    (a : patchfile.append format_args) : Prop :=
  match a with
  | patchfile.Formatted _ _ _ => True
  | patchfile.Raw _ bindata size => 0 <= size <= Z.of_nat (length bindata)
  end.

(** The value [set_keep(pixi, meimei)] gives the flag of an origin. *)
Definition keep_of (o : origin.t) (pixi meimei : bool) : bool :=
  match o with
  | origin.pixi => pixi
  | origin.meimei => meimei
  end.

(** A file system holding one writable file. *)
Definition single_file (path : string) (content : list byte) : filesystem :=
  {| files := {[ path := content ]}; unwritable := ∅ |}.

(** An image of [header + 0x8000] bytes, zero except for the two mapper
    marker bytes at [header + 0x7FD5] and [header + 0x7FD7]. *)
Definition marked_image (header : nat) (m1 m2 : byte) : list byte :=
  replicate (header + Z.to_nat 0x7FD5) "000"%byte ++ [m1; "000"%byte; m2]
  ++ replicate 40 "000"%byte.

(** The SA-1 bank assignment used to instantiate [sa1banks] in the worked
    examples below: slots 0, 1, 4, 5 hold the first four MiB of the image,
    slots 2, 3, 6, 7 are unassigned. *)
Definition sa1banks_default (i : Z) : Z :=
  if i =? 0 then 0x000000
  else if i =? 1 then 0x100000
  else if i =? 4 then 0x200000
  else if i =? 5 then 0x300000
  else -1.

(** ** Further operations of the ROM container *)

Section rom_reads.
(** [sa1banks[0..7]] of [structs.h], as in [ROM.pc_to_snes]. *)
Variable sa1banks : Z -> Z.

(** [ROM::pointer_snes(address, bank)]; the [pointer] it returns is built
    from the [int] by [pointer.of_int]. *)
Definition ROM_pointer_snes (rom : ROM.t) (address : snesaddress.t) (bank : Z)
  : outcome pointer.t :=
  let pc_address := ROM.snes_to_pc sa1banks rom address in
  b0 ← ROM.data_at rom (pcaddress.value pc_address);
  b1 ← ROM.data_at rom (int_add (pcaddress.value pc_address) 1);
  b2 ← ROM.data_at rom (int_add (pcaddress.value pc_address) 2);
  let ptr := Z.lor (Z.lor b0 (Z.shiftl b1 8)) (Z.shiftl b2 16) in
  mret (pointer.of_int (Z.lor ptr (int_shl bank 16))).

(** [ROM::get_lm_version]; the three factors are bytes, so the sum stays
    far inside the [int] range. *)
Definition ROM_get_lm_version (rom : ROM.t) : outcome Z :=
  let lm_ver_snes_addr := 0x0FF0B4 in
  major_ver ←
    ROM.data_at rom
      (pcaddress.value
         (ROM.snes_to_pc sa1banks rom (snesaddress.make lm_ver_snes_addr)));
  minor_ver ←
    ROM.data_at rom
      (pcaddress.value
         (ROM.snes_to_pc sa1banks rom
            (snesaddress.make (lm_ver_snes_addr + 2))));
  patch_ver ←
    ROM.data_at rom
      (pcaddress.value
         (ROM.snes_to_pc sa1banks rom
            (snesaddress.make (lm_ver_snes_addr + 3))));
  let full_ver := major_ver * 100 + minor_ver * 10 + patch_ver in
  mret full_ver.

Definition ROM_is_exlevel (rom : ROM.t) : outcome bool :=
  let LM_version_exlevel := 253 in
  v ← ROM_get_lm_version rom;
  mret (LM_version_exlevel <? v).
End rom_reads.

(** [ROM::close]: [fopen(name, "wb")], the write of [size + header_size]
    bytes of the buffer, and the release of the buffer. The count is
    converted to [size_t], so a negative sum asks for more bytes than any
    buffer holds; a count of zero reads nothing. *)
Definition ROM_close (fs : filesystem) (rom : ROM.t)
  : outcome (ROM.t * filesystem) :=
  match open_write fs (ROM.name rom) "wb" with
  | (None, _) => mret (rom, fs)
  | (Some romfile, fs') =>
      let count := int_add (ROM.size rom) (ROM.header_size rom) in
      written ←
        (if count =? 0 then mret []
         else
           buf ← defined (ROM.m_data rom);
           if (0 <? count) && (count <=? Z.of_nat (length buf))
           then mret (take (Z.to_nat count) buf)
           else Undefined);
      mret (ROM.make (ROM.name rom) None (ROM.size rom) (ROM.header_size rom)
                     (ROM.mapper rom),
            file_append fs' romfile written)
  end.

(** ** The console helpers *)

(** [libconsole::isspace]: the characters ['\r'], ['\n'], [' '], ['\v'],
    ['\f'] and ['\t']. *)
Definition isspace (ch : byte) : bool :=
  bool_decide (ch = x0d) || bool_decide (ch = x0a)
  || bool_decide (ch = x20) || bool_decide (ch = x0b)
  || bool_decide (ch = x0c) || bool_decide (ch = x09).

(** ** Restarting the staging *)

Section clearing.
(** The members [new memoryfile] leaves in the snapshot [clear] installs;
    the struct is declared in [asar.h]. *)
Variable fresh : memoryfile.t.

(** [patchfile::clear]: the stream and the data string are emptied, the
    snapshot is replaced. *)
Definition patchfile_clear (pf : patchfile.t) : M patchfile.t :=
  store (cxx_string.c_str (patchfile.m_data pf)) [];;
  mret (patchfile.make (patchfile.m_fs_path pf) (patchfile.m_path pf) []
          (patchfile.m_data pf) (Some fresh) (patchfile.m_from_meimei pf)
          (patchfile.m_binary pf)).
End clearing.

(** ** The stream handler *)

Module iohandler.

(** A [FILE*] that is not null: one of the three standard streams, or a
    stream the caller has opened. *)
Inductive stream := stdin | stdout | stderr | opened (id : positive).

#[global] Instance stream_eq_decision : EqDecision stream :=
  ltac:(solve_decision).

(** The two arrays of the handler, indexed by the value of an [iotype]. *)
Record t := make {
  m_handles : list (option stream);
  m_replaced : list bool
}.

(** [fclose(f)] with the streams closed so far, the most recent first:
    closing the null pointer, or a stream a second time, is undefined. *)
Definition fclose (closed : list stream) (f : option stream)
  : outcome (list stream) :=
  match f with
  | None => Undefined
  | Some s => if bool_decide (s ∈ closed) then Undefined else Ok (s :: closed)
  end.

Section arrays.
(** The number of elements each of the two arrays has beyond the four
    the constructor lists; the arrays are declared in [iohandler.h]. *)
Variable spare : nat.

(** [iohandler::iohandler()]. *)
Definition create : t :=
  make ([Some stdin; Some stdout; Some stderr; None] ++ replicate spare None)
       ([false; false; false; false] ++ replicate spare false).
End arrays.

(** [iohandler::set(tp, newhandle)]; the slot [m_handles[tp]] is looked
    up once, for the [fclose] and for the assignment, and an index outside
    either array is undefined. *)
Definition set (tp : nat) (newhandle : option stream) (h : t)
    (closed : list stream) : outcome (t * list stream) :=
  replaced ← defined (m_replaced h !! tp);
  old ← defined (m_handles h !! tp);
  closed ← (if replaced : bool then fclose closed old else mret closed);
  mret (make (<[tp := newhandle]> (m_handles h))
             (<[tp := true]> (m_replaced h)), closed).

(** The loop of [iohandler::~iohandler] over the two arrays. *)
Fixpoint close_replaced (handles : list (option stream))
    (replaced : list bool) (closed : list stream) : outcome (list stream) :=
  match handles, replaced with
  | f :: handles, r :: replaced =>
      closed ← (if r : bool then fclose closed f else mret closed);
      close_replaced handles replaced closed
  | _, _ => mret closed
  end.

(** [iohandler::~iohandler]. *)
Definition destroy (h : t) (closed : list stream) : outcome (list stream) :=
  close_replaced (m_handles h) (m_replaced h) closed.

(** A run of [set] calls. *)
Fixpoint sets (calls : list (nat * option stream)) (h : t)
    (closed : list stream) : outcome (t * list stream) :=
  match calls with
  | [] => mret (h, closed)
  | (tp, newhandle) :: calls =>
      '(h, closed) ← set tp newhandle h closed;
      sets calls h closed
  end.

End iohandler.

(** The streams the handler has installed and not yet closed. *)
Fixpoint pending (handles : list (option iohandler.stream))
    (replaced : list bool) : list iohandler.stream :=
  match handles, replaced with
  | f :: handles, r :: replaced =>
      (if r : bool then option_list f else []) ++ pending handles replaced
  | _, _ => []
  end.

(** Every replaced slot holds a stream. *)
Definition replaced_not_null (handles : list (option iohandler.stream))
    (replaced : list bool) : Prop :=
  forall i, replaced !! i = Some true ->
            exists s, handles !! i = Some (Some s).

(* ================================================================== *)
(** * Properties                                                       *)
(* ================================================================== *)

(** ** Bit fields as arithmetic *)

Lemma testbit_field k w n : 0 <= k -> 0 <= w -> 0 <= n ->
  Z.testbit (Z.shiftl (Z.ones w) k) n = (k <=? n) && (n <? k + w).
Proof.
  intros Hk Hw Hn. rewrite Z.shiftl_spec by lia.
  destruct (Z.leb_spec k n); simpl.
  - destruct (Z.ltb_spec n (k + w)).
    + apply Z.ones_spec_low. lia.
    + apply Z.ones_spec_high. lia.
  - apply Z.testbit_neg_r. lia.
Qed.

(** Masking with [w] ones at position [k] extracts a field in place. *)
Lemma land_field x k w : 0 <= k -> 0 <= w ->
  Z.land x (Z.shiftl (Z.ones w) k) = 2 ^ k * ((x / 2 ^ k) mod 2 ^ w).
Proof.
  intros Hk Hw. apply Z.bits_inj'. intros n Hn.
  rewrite Z.land_spec, testbit_field by lia.
  rewrite Z.mul_comm.
  destruct (Z.leb_spec k n); simpl.
  - rewrite Z.mul_pow2_bits by lia.
    destruct (Z.ltb_spec n (k + w)).
    + rewrite Z.mod_pow2_bits_low by lia. rewrite Z.div_pow2_bits by lia.
      rewrite andb_true_r. f_equal. lia.
    + rewrite Z.mod_pow2_bits_high by lia. apply andb_false_r.
  - rewrite Z.mul_pow2_bits_low by lia. apply andb_false_r.
Qed.

Lemma land_fields_disjoint x f k w : 0 <= k -> 0 <= w ->
  0 <= f < 2 ^ w -> (x / 2 ^ k) mod 2 ^ w = 0 -> Z.land x (2 ^ k * f) = 0.
Proof.
  intros Hk Hw Hf Hx. apply Z.bits_inj'. intros n Hn.
  rewrite Z.land_spec, Z.bits_0, (Z.mul_comm (2 ^ k)).
  destruct (Z.lt_ge_cases n k).
  - rewrite Z.mul_pow2_bits_low by lia. apply andb_false_r.
  - rewrite Z.mul_pow2_bits by lia.
    destruct (Z.lt_ge_cases (n - k) w).
    + assert (Hb : Z.testbit ((x / 2 ^ k) mod 2 ^ w) (n - k) = false)
        by (rewrite Hx; apply Z.bits_0).
      rewrite Z.mod_pow2_bits_low, Z.div_pow2_bits in Hb by lia.
      replace (n - k + k) with n in Hb by lia. rewrite Hb. reflexivity.
    + rewrite <- (Z.mod_small f (2 ^ w)) by lia.
      rewrite Z.mod_pow2_bits_high by lia. apply andb_false_r.
Qed.

(** OR-ing a value that occupies only the field [(k, w)] into a value whose
    field [(k, w)] is clear is an addition. *)
Lemma lor_add x y k w : 0 <= k -> 0 <= w ->
  y = 2 ^ k * ((y / 2 ^ k) mod 2 ^ w) -> (x / 2 ^ k) mod 2 ^ w = 0 ->
  Z.lor x y = x + y.
Proof.
  intros Hk Hw Hy Hx.
  assert (Hd : Z.land x y = 0).
  { rewrite Hy. apply land_fields_disjoint with (w := w); try lia.
    apply Z.mod_pos_bound. lia. }
  rewrite <- Z.lxor_lor by exact Hd. symmetry.
  apply Z.add_nocarry_lxor. exact Hd.
Qed.

Ltac pow2_consts :=
  repeat match goal with
  | |- context [2 ^ ?n] =>
      let v := eval vm_compute in (2 ^ n) in change (2 ^ n) with v
  end.

Ltac fields := pow2_consts; Z.div_mod_to_equations; lia.

Ltac lor_plus k w :=
  match goal with
  | |- context [Z.lor ?x ?y] => rewrite (lor_add x y k w) by (try lia; fields)
  end.

Lemma wrap32_id z : is_int z -> wrap32 z = z.
Proof. unfold is_int, wrap32. intros H. fields. Qed.

Lemma land_wrap32 x m : 0 <= m < 0x100000000 -> Z.land (wrap32 x) m = Z.land x m.
Proof.
  intros Hm.
  assert (Hl : forall y, Z.land y m = Z.land (y mod 2 ^ 32) m).
  { intros y. rewrite <- (Z.land_ones y 32) by lia.
    rewrite <- Z.land_assoc, (Z.land_comm (Z.ones 32) m), Z.land_ones by lia.
    rewrite (Z.mod_small m) by (pow2_consts; lia). reflexivity. }
  rewrite (Hl (wrap32 x)), (Hl x). f_equal. unfold wrap32. fields.
Qed.

Lemma int_sub_id a b : is_int (a - b) -> int_sub a b = a - b.
Proof. apply wrap32_id. Qed.

Lemma int_add_id a b : is_int (a + b) -> int_add a b = a + b.
Proof. apply wrap32_id. Qed.

Lemma int_shl_id a n : 0 <= n -> is_int (a * 2 ^ n) -> int_shl a n = a * 2 ^ n.
Proof.
  intros Hn H. unfold int_shl. rewrite Z.shiftl_mul_pow2 by lia.
  apply wrap32_id, H.
Qed.

(** ** LoROM *)

(** The SNES address [pc_to_snes] builds from a headerless LoROM offset:
    bank in bits 16-22, bit 15 set, the offset within the bank below. *)
Lemma lorom_snes_value a :
  Z.lor (Z.lor (Z.land (int_shl a 1) 0x7F0000) (Z.land a 0x7FFF)) 0x8000
  = 0x10000 * ((a / 0x8000) mod 128) + 0x8000 + a mod 0x8000.
Proof.
  unfold int_shl. rewrite land_wrap32 by lia.
  rewrite Z.shiftl_mul_pow2 by lia.
  rewrite (land_field _ 16 7), (land_field _ 0 15) by lia.
  pow2_consts. lor_plus 0 15. lor_plus 15 1. fields.
Qed.

Lemma lorom_pc_value hi lo : 0 <= hi < 128 -> 0 <= lo < 0x8000 ->
  Z.lor (Z.shiftr (Z.land (0x10000 * hi + 0x8000 + lo) 0x7F0000) 1)
        (Z.land (0x10000 * hi + 0x8000 + lo) 0x7FFF)
  = 0x8000 * hi + lo.
Proof.
  intros Hhi Hlo.
  rewrite (land_field _ 16 7), (land_field _ 0 15) by lia.
  rewrite Z.shiftr_div_pow2 by lia.
  pow2_consts. lor_plus 0 15. fields.
Qed.

Ltac decide_eqb :=
  repeat match goal with
  | |- context [?x =? ?y] =>
      let E := fresh "E" in
      destruct (Z.eqb_spec x y) as [E|E]; [exfalso; revert E; fields|clear E]
  end.

Lemma lorom_not_unmapped hi lo : 0 <= hi < 126 -> 0 <= lo < 0x8000 ->
  ROM.unmapped lorom (0x10000 * hi + 0x8000 + lo) = false.
Proof.
  intros Hhi Hlo. unfold ROM.unmapped.
  change 0x408000 with (Z.lor (Z.shiftl (Z.ones 1) 22) (Z.shiftl (Z.ones 1) 15)).
  change 0x708000 with (Z.lor (Z.shiftl (Z.ones 3) 20) (Z.shiftl (Z.ones 1) 15)).
  rewrite !Z.land_lor_distr_r.
  rewrite (land_field _ 17 7), (land_field _ 22 1), (land_field _ 15 1),
    (land_field _ 20 3) by lia.
  pow2_consts. lor_plus 15 1. lor_plus 15 1.
  decide_eqb. reflexivity.
Qed.

Lemma snes_to_pc_lorom sa1banks rom a :
  ROM.mapper rom = lorom ->
  ROM.snes_to_pc sa1banks rom (snesaddress.make a)
  = if ROM.unmapped lorom a then pcaddress.make (-1)
    else pcaddress.make
           (int_add (Z.lor (Z.shiftr (Z.land a 0x7F0000) 1) (Z.land a 0x7FFF))
                    (ROM.header_size rom)).
Proof. intros Hm. unfold ROM.snes_to_pc. rewrite Hm. reflexivity. Qed.

(** C2, as amended: on a LoROM image the round trip reproduces every PC
    offset that lies at most 0x3EFFFF bytes into the payload, that is
    [header_size <= p] and [p - header_size < 0x3F0000]. *)
Theorem lorom_round_trip sa1banks rom p :
  ROM.mapper rom = lorom ->
  is_int (pcaddress.value p) ->
  ROM.header_size rom <= pcaddress.value p ->
  pcaddress.value p - ROM.header_size rom < 0x3F0000 ->
  ROM.snes_to_pc sa1banks rom (ROM.pc_to_snes sa1banks rom p) = p.
Proof.
  destruct p as [v]. cbn [pcaddress.value]. intros Hm Hv Hlo Hhi.
  unfold ROM.pc_to_snes. rewrite Hm. cbn [pcaddress.value].
  rewrite int_sub_id by (unfold is_int in *; lia).
  set (a := v - ROM.header_size rom) in *.
  rewrite lorom_snes_value.
  rewrite (Z.mod_small (a / 0x8000) 128) by fields.
  rewrite snes_to_pc_lorom by exact Hm.
  rewrite lorom_not_unmapped by fields.
  rewrite lorom_pc_value by fields. f_equal.
  assert (Hs : 0x8000 * (a / 0x8000) + a mod 0x8000 = a) by fields.
  rewrite Hs. unfold int_add, a.
  replace (v - ROM.header_size rom + ROM.header_size rom) with v by lia.
  apply wrap32_id, Hv.
Qed.

Lemma lorom_round_trip_witness :
  ROM.snes_to_pc sa1banks_default
    (ROM.make "smw.smc" None 0x80000 512 lorom)
    (ROM.pc_to_snes sa1banks_default
       (ROM.make "smw.smc" None 0x80000 512 lorom) (pcaddress.make 0x12345))
  = pcaddress.make 0x12345.
Proof.
  apply (lorom_round_trip sa1banks_default
           (ROM.make "smw.smc" None 0x80000 512 lorom) (pcaddress.make 0x12345)).
  - reflexivity.
  - unfold is_int. simpl. lia.
  - simpl. lia.
  - simpl. lia.
Defined.

(** C2 as stated fails: in a 4 MiB LoROM image the payload offset 0x3F0000
    translates to bank 0x7E, which [snes_to_pc] rejects. *)
Lemma lorom_round_trip_breaks_at_3F0000 :
  let rom := ROM.make "smw.smc" None 0x400000 0 lorom in
  let p := pcaddress.make 0x3F0000 in
  ROM.mapper rom = lorom
  /\ ROM.header_size rom <= pcaddress.value p
     < ROM.header_size rom + ROM.size rom
  /\ ROM.pc_to_snes sa1banks_default rom p = snesaddress.make 0x7E8000
  /\ ROM.snes_to_pc sa1banks_default rom (ROM.pc_to_snes sa1banks_default rom p)
     = pcaddress.make (-1)
  /\ ROM.snes_to_pc sa1banks_default rom (ROM.pc_to_snes sa1banks_default rom p)
     <> p.
Proof.
  cbv zeta. repeat split; try reflexivity; try (simpl; lia).
  vm_compute. discriminate.
Qed.

Lemma lorom_top_banks_unmapped hi lo : 126 <= hi < 128 -> 0 <= lo < 0x8000 ->
  ROM.unmapped lorom (0x10000 * hi + 0x8000 + lo) = true.
Proof.
  intros Hhi Hlo. unfold ROM.unmapped.
  rewrite (land_field _ 17 7) by lia. pow2_consts.
  assert (E : 131072 * (((65536 * hi + 32768 + lo) / 131072) mod 128)
              = 8257536) by fields.
  rewrite E. reflexivity.
Qed.

(** The bound 0x3F0000 of the LoROM round trip is the best one: with a
    header size that is not negative, no offset 0x3F0000 bytes or more into
    the payload survives the round trip. *)
Lemma lorom_round_trip_fails_from_3F0000 sa1banks rom p :
  ROM.mapper rom = lorom ->
  is_int (pcaddress.value p) ->
  0 <= ROM.header_size rom ->
  0x3F0000 <= pcaddress.value p - ROM.header_size rom ->
  ROM.snes_to_pc sa1banks rom (ROM.pc_to_snes sa1banks rom p) <> p.
Proof.
  destruct p as [v]. cbn [pcaddress.value]. intros Hm Hv Hh Hlo.
  unfold ROM.pc_to_snes. rewrite Hm. cbn [pcaddress.value].
  rewrite int_sub_id by (unfold is_int in *; lia).
  set (a := v - ROM.header_size rom) in *.
  rewrite lorom_snes_value, snes_to_pc_lorom by exact Hm.
  assert (Hhi : 0 <= (a / 0x8000) mod 128 < 128) by fields.
  assert (Hl : 0 <= a mod 0x8000 < 0x8000) by fields.
  destruct (ROM.unmapped lorom
              (0x10000 * ((a / 0x8000) mod 128) + 0x8000 + a mod 0x8000))
    eqn:Hu.
  - intros E. injection E as E. unfold is_int in Hv. lia.
  - assert (Hlt : (a / 0x8000) mod 128 < 126).
    { destruct (Z.lt_ge_cases ((a / 0x8000) mod 128) 126) as [Hc|Hc];
        [exact Hc|].
      rewrite lorom_top_banks_unmapped in Hu by lia. discriminate. }
    rewrite lorom_pc_value by lia.
    intros E. injection E as E. revert E.
    rewrite int_add_id by (unfold is_int in *; lia).
    unfold a in *. lia.
Qed.

(** ** Rejected addresses *)

Lemma snes_to_pc_lorom_unmapped sa1banks rom a :
  ROM.mapper rom = lorom -> ROM.unmapped lorom a = true ->
  ROM.snes_to_pc sa1banks rom (snesaddress.make a) = pcaddress.make (-1).
Proof. intros Hm Hu. rewrite snes_to_pc_lorom, Hu by exact Hm. reflexivity. Qed.

Lemma snes_to_pc_fullsa1rom_unmapped sa1banks rom a :
  ROM.mapper rom = fullsa1rom -> ROM.unmapped fullsa1rom a = true ->
  ROM.snes_to_pc sa1banks rom (snesaddress.make a) = pcaddress.make (-1).
Proof.
  intros Hm Hu. unfold ROM.snes_to_pc. rewrite Hm. cbn [snesaddress.value].
  unfold ROM.unmapped in Hu.
  destruct (Z.land a 0xC00000 =? 0xC00000); [discriminate|].
  cbn [negb andb] in Hu.
  destruct ((Z.land a 0xC00000 =? 0x000000) || (Z.land a 0xC00000 =? 0x800000));
    [rewrite Hu|]; reflexivity.
Qed.

(** Under SA1ROM the rejecting branch assigns [-1] to [address] and falls
    through to [return address + header_size]. *)
Lemma snes_to_pc_sa1rom_unmapped sa1banks rom a :
  ROM.mapper rom = sa1rom -> ROM.unmapped sa1rom a = true ->
  ROM.snes_to_pc sa1banks rom (snesaddress.make a)
  = pcaddress.make (int_add (-1) (ROM.header_size rom)).
Proof.
  intros Hm Hu. unfold ROM.snes_to_pc. rewrite Hm. cbn [snesaddress.value].
  unfold ROM.unmapped in Hu.
  destruct (Z.land a 0x408000 =? 0x008000); [discriminate|].
  destruct (Z.land a 0xC00000 =? 0xC00000); [discriminate|].
  reflexivity.
Qed.

(** C1 fails on the SA1ROM path: with a 512-byte copier header the WRAM
    address 0x7E0000, which no branch maps, comes back as PC offset 511
    and not as the sentinel -1. *)
Theorem snes_to_pc_sa1rom_unmapped_is_not_sentinel :
  let rom := ROM.make "smw.smc" None 0x100000 512 sa1rom in
  ROM.unmapped (ROM.mapper rom) 0x7E0000 = true
  /\ forall sa1banks,
       ROM.snes_to_pc sa1banks rom (snesaddress.make 0x7E0000)
       = pcaddress.make 511.
Proof. cbv zeta. split; [reflexivity|]. intros sa1banks. reflexivity. Qed.

(** ** SA1ROM *)

Lemma sa1_scan_spec sa1banks masked n : forall i,
  match ROM.sa1_scan sa1banks masked n i with
  | Some j => i <= j < i + Z.of_nat n /\ sa1banks j = masked
              /\ forall k, i <= k < j -> sa1banks k <> masked
  | None => forall k, i <= k < i + Z.of_nat n -> sa1banks k <> masked
  end.
Proof.
  induction n as [|n IH]; intros i; cbn [ROM.sa1_scan].
  - intros k Hk. lia.
  - destruct (Z.eqb_spec (sa1banks i) masked) as [E|E].
    + split; [lia|]. split; [exact E|]. intros k Hk. lia.
    + specialize (IH (i + 1)).
      destruct (ROM.sa1_scan sa1banks masked n (i + 1)) as [j|].
      * destruct IH as (Hj & Hm & Hfirst). split; [lia|]. split; [exact Hm|].
        intros k Hk. destruct (Z.eq_dec k i) as [->|Hne]; [exact E|].
        apply Hfirst. lia.
      * intros k Hk. destruct (Z.eq_dec k i) as [->|Hne]; [exact E|].
        apply IH. lia.
Qed.

(** The SNES address [pc_to_snes] builds for bank slot [i]. *)
Lemma sa1rom_snes_value i a : 0 <= i < 8 ->
  Z.lor (Z.lor (Z.lor 0x008000 (int_shl i 21))
               (int_shl (Z.land a 0x0F8000) 1))
        (Z.land a 0x7FFF)
  = 0x200000 * i + 0x10000 * ((a / 0x8000) mod 32) + 0x8000 + a mod 0x8000.
Proof.
  intros Hi.
  rewrite (land_field _ 15 5), (land_field _ 0 15) by lia.
  rewrite !int_shl_id by (unfold is_int; fields).
  pow2_consts. lor_plus 21 3. lor_plus 16 5. lor_plus 0 15. fields.
Qed.

(** What the first branch of [snes_to_pc] computes on such an address, the
    table entry being [0x100000 * b]. *)
Lemma sa1rom_pc_value i f lo b :
  i = 0 \/ i = 1 \/ i = 4 \/ i = 5 -> 0 <= f < 32 -> 0 <= lo < 0x8000 ->
  0 <= b < 8 ->
  let s := 0x200000 * i + 0x10000 * f + 0x8000 + lo in
  (Z.land s 0x408000 =? 0x008000) = true
  /\ Z.shiftr (Z.land s 0xE00000) 21 = i
  /\ Z.lor (Z.lor (0x100000 * b) (Z.shiftr (Z.land s 0x1F0000) 1))
           (Z.land s 0x007FFF)
     = 0x100000 * b + 0x8000 * f + lo.
Proof.
  intros Hi Hf Hlo Hb s. subst s.
  change 0x408000 with (Z.lor (Z.shiftl (Z.ones 1) 22) (Z.shiftl (Z.ones 1) 15)).
  rewrite Z.land_lor_distr_r.
  rewrite (land_field _ 22 1), (land_field _ 15 1), (land_field _ 21 3),
    (land_field _ 16 5), (land_field _ 0 15) by lia.
  rewrite !Z.shiftr_div_pow2 by lia. pow2_consts.
  lor_plus 15 1. lor_plus 15 5. lor_plus 0 15.
  destruct Hi as [-> | [-> | [-> | ->]]];
    (split; [apply Z.eqb_eq; fields | split; fields]).
Qed.

Lemma sa1_scan_low_slots sa1banks masked :
  (exists i, (i = 0 \/ i = 1 \/ i = 4 \/ i = 5) /\ sa1banks i = masked) ->
  (forall i, i = 2 \/ i = 3 \/ i = 6 \/ i = 7 -> sa1banks i <> masked) ->
  exists j, ROM.sa1_scan sa1banks masked 8 0 = Some j
            /\ (j = 0 \/ j = 1 \/ j = 4 \/ j = 5) /\ sa1banks j = masked.
Proof.
  intros (i & Hi & Hm) Hhigh.
  pose proof (sa1_scan_spec sa1banks masked 8 0) as Hs.
  destruct (ROM.sa1_scan sa1banks masked 8 0) as [j|].
  - destruct Hs as (Hj & Hjm & _). exists j. split; [reflexivity|].
    split; [|exact Hjm].
    assert (Hn : ~ (j = 2 \/ j = 3 \/ j = 6 \/ j = 7))
      by (intros Hc; exact (Hhigh j Hc Hjm)).
    lia.
  - exfalso. apply (Hs i); [lia | exact Hm].
Qed.

(** C6, as amended: on an SA1ROM image, a PC offset [p] with
    [0 <= p - header_size < 0x800000] whose bank
    [(p - header_size) & 0x700000] is the base held by one of the slots
    0, 1, 4, 5 of [sa1banks] and by none of the slots 2, 3, 6, 7 survives
    the round trip; and when no slot holds that base, [pc_to_snes] yields
    the sentinel -1. *)
Theorem sa1rom_round_trip sa1banks rom p :
  ROM.mapper rom = sa1rom ->
  is_int (pcaddress.value p) ->
  let a := pcaddress.value p - ROM.header_size rom in
  (0 <= a < 0x800000 ->
   (exists i, (i = 0 \/ i = 1 \/ i = 4 \/ i = 5)
              /\ sa1banks i = Z.land a 0x700000) ->
   (forall i, i = 2 \/ i = 3 \/ i = 6 \/ i = 7 ->
              sa1banks i <> Z.land a 0x700000) ->
   ROM.snes_to_pc sa1banks rom (ROM.pc_to_snes sa1banks rom p) = p)
  /\ ((forall i, 0 <= i < 8 -> sa1banks i <> Z.land a 0x700000) ->
      ROM.pc_to_snes sa1banks rom p = snesaddress.make (-1)).
Proof.
  destruct p as [v]. cbn [pcaddress.value]. intros Hm Hv.
  set (a := v - ROM.header_size rom). split.
  - intros Ha Hlow Hhigh.
    destruct (sa1_scan_low_slots _ _ Hlow Hhigh) as (j & Hscan & Hj & Hbank).
    unfold ROM.pc_to_snes. rewrite Hm. cbn [pcaddress.value].
    rewrite int_sub_id by (unfold is_int in *; lia). fold a.
    rewrite Hscan, sa1rom_snes_value by lia.
    unfold ROM.snes_to_pc. rewrite Hm. cbn [snesaddress.value].
    assert (Hb : sa1banks j = 0x100000 * ((a / 0x100000) mod 8))
      by (rewrite Hbank; apply (land_field a 20 3); lia).
    assert (Hf : 0 <= (a / 0x8000) mod 32 < 32) by fields.
    assert (Hl : 0 <= a mod 0x8000 < 0x8000) by fields.
    assert (Hr : 0 <= (a / 0x100000) mod 8 < 8) by fields.
    pose proof (sa1rom_pc_value j _ _ _ Hj Hf Hl Hr) as Hpc.
    cbv zeta in Hpc. destruct Hpc as (Hsel & Hidx & Hval).
    rewrite Hsel, Hidx, Hb, Hval. f_equal.
    assert (Hs : 0x100000 * ((a / 0x100000) mod 8)
                 + 0x8000 * ((a / 0x8000) mod 32) + a mod 0x8000 = a) by fields.
    rewrite Hs. unfold int_add, a.
    replace (v - ROM.header_size rom + ROM.header_size rom) with v by lia.
    apply wrap32_id, Hv.
  - intros Hnone.
    unfold ROM.pc_to_snes. rewrite Hm. cbn [pcaddress.value].
    unfold int_sub. rewrite land_wrap32 by lia. fold a.
    pose proof (sa1_scan_spec sa1banks (Z.land a 0x700000) 8 0) as Hs.
    destruct (ROM.sa1_scan sa1banks (Z.land a 0x700000) 8 0) as [j|];
      [|reflexivity].
    destruct Hs as (Hj & Hjm & _). exfalso. apply (Hnone j); [lia | exact Hjm].
Qed.

Lemma sa1rom_round_trip_witness :
  let rom := ROM.make "smw.smc" None 0x400000 512 sa1rom in
  ROM.snes_to_pc sa1banks_default rom
    (ROM.pc_to_snes sa1banks_default rom (pcaddress.make 0x234767))
  = pcaddress.make 0x234767
  /\ ROM.pc_to_snes sa1banks_default rom (pcaddress.make 0x400200)
     = snesaddress.make (-1).
Proof.
  cbv zeta.
  assert (Hint : forall v, 0 <= v < 0x1000000 -> is_int v)
    by (unfold is_int; lia).
  split.
  - apply (proj1 (sa1rom_round_trip sa1banks_default
                    (ROM.make "smw.smc" None 0x400000 512 sa1rom)
                    (pcaddress.make 0x234767) eq_refl
                    (Hint 0x234767 ltac:(lia)))).
    + simpl. lia.
    + exists 4. split; [tauto|reflexivity].
    + intros i [-> | [-> | [-> | ->]]]; discriminate.
  - apply (proj2 (sa1rom_round_trip sa1banks_default
                    (ROM.make "smw.smc" None 0x400000 512 sa1rom)
                    (pcaddress.make 0x400200) eq_refl
                    (Hint 0x400200 ltac:(lia)))).
    intros i Hi.
    assert (Hc : i = 0 \/ i = 1 \/ i = 2 \/ i = 3 \/ i = 4 \/ i = 5 \/ i = 6
                 \/ i = 7) by lia.
    destruct Hc as [-> | [-> | [-> | [-> | [-> | [-> | [-> | ->]]]]]]];
      discriminate.
Defined.

(** C6 as stated fails: in a 9 MiB SA1ROM image the payload offset 0x800000
    has bank bits [0x800000 & 0x700000 = 0], the base of slot 0, yet it
    translates to SNES 0x008000 and from there back to PC offset 0. *)
Lemma sa1rom_round_trip_breaks_at_800000 :
  let rom := ROM.make "smw.smc" None 0x900000 0 sa1rom in
  let p := pcaddress.make 0x800000 in
  ROM.mapper rom = sa1rom
  /\ ROM.header_size rom <= pcaddress.value p
     < ROM.header_size rom + ROM.size rom
  /\ sa1banks_default 0
     = Z.land (pcaddress.value p - ROM.header_size rom) 0x700000
  /\ ROM.pc_to_snes sa1banks_default rom p = snesaddress.make 0x008000
  /\ ROM.snes_to_pc sa1banks_default rom (ROM.pc_to_snes sa1banks_default rom p)
     = pcaddress.make 0
  /\ ROM.snes_to_pc sa1banks_default rom (ROM.pc_to_snes sa1banks_default rom p)
     <> p.
Proof.
  cbv zeta. repeat split; try reflexivity; try (simpl; lia).
  vm_compute. discriminate.
Qed.

(** The bound 0x800000 of the SA1ROM round trip is the best one: with a
    header size that is not negative, an offset 0x800000 bytes or more into
    the payload whose bank bits match slot 0, 1, 4 or 5 (and no other slot
    before it) comes back reduced modulo 0x800000. *)
Lemma sa1rom_round_trip_fails_from_800000 sa1banks rom p :
  ROM.mapper rom = sa1rom ->
  is_int (pcaddress.value p) ->
  0 <= ROM.header_size rom ->
  let a := pcaddress.value p - ROM.header_size rom in
  0x800000 <= a ->
  (exists i, (i = 0 \/ i = 1 \/ i = 4 \/ i = 5)
             /\ sa1banks i = Z.land a 0x700000) ->
  (forall i, i = 2 \/ i = 3 \/ i = 6 \/ i = 7 ->
             sa1banks i <> Z.land a 0x700000) ->
  ROM.snes_to_pc sa1banks rom (ROM.pc_to_snes sa1banks rom p)
  = pcaddress.make (a mod 0x800000 + ROM.header_size rom)
  /\ ROM.snes_to_pc sa1banks rom (ROM.pc_to_snes sa1banks rom p) <> p.
Proof.
  destruct p as [v]. cbn [pcaddress.value]. intros Hm Hv Hh.
  set (a := v - ROM.header_size rom). intros Ha Hlow Hhigh.
  destruct (sa1_scan_low_slots _ _ Hlow Hhigh) as (j & Hscan & Hj & Hbank).
  assert (Hval : ROM.snes_to_pc sa1banks rom
                   (ROM.pc_to_snes sa1banks rom (pcaddress.make v))
                 = pcaddress.make (a mod 0x800000 + ROM.header_size rom)).
  { unfold ROM.pc_to_snes. rewrite Hm. cbn [pcaddress.value].
    rewrite int_sub_id by (unfold is_int in *; lia). fold a.
    rewrite Hscan, sa1rom_snes_value by lia.
    unfold ROM.snes_to_pc. rewrite Hm. cbn [snesaddress.value].
    assert (Hb : sa1banks j = 0x100000 * ((a / 0x100000) mod 8))
      by (rewrite Hbank; apply (land_field a 20 3); lia).
    assert (Hf : 0 <= (a / 0x8000) mod 32 < 32) by fields.
    assert (Hl : 0 <= a mod 0x8000 < 0x8000) by fields.
    assert (Hr : 0 <= (a / 0x100000) mod 8 < 8) by fields.
    pose proof (sa1rom_pc_value j _ _ _ Hj Hf Hl Hr) as Hpc.
    cbv zeta in Hpc. destruct Hpc as (Hsel & Hidx & Hpcv).
    rewrite Hsel, Hidx, Hb, Hpcv. f_equal.
    assert (Hs : 0x100000 * ((a / 0x100000) mod 8)
                 + 0x8000 * ((a / 0x8000) mod 32) + a mod 0x8000
                 = a mod 0x800000) by fields.
    rewrite Hs. apply int_add_id. unfold is_int in *. fields. }
  split; [exact Hval|]. rewrite Hval. intros E. injection E as E.
  revert E. unfold a in *. fields.
Qed.

(** ** RATS tags *)

Lemma byte_val_range b : 0 <= byte_val b < 256.
Proof.
  unfold byte_val. pose proof (Byte.to_N_bounded b). lia.
Qed.

Lemma byte_val_inj b b' : byte_val b = byte_val b' -> b = b'.
Proof.
  unfold byte_val. intros H. apply N2Z.inj in H.
  assert (Hs : Some b = Some b')
    by (rewrite <- (Byte.of_to_N b), <- (Byte.of_to_N b'), H; reflexivity).
  congruence.
Qed.

Lemma le16_range lo hi : 0 <= le16 lo hi < 0x10000.
Proof.
  unfold le16. pose proof (byte_val_range lo). pose proof (byte_val_range hi).
  lia.
Qed.

Lemma le16_inj lo hi lo' hi' : le16 lo hi = le16 lo' hi' -> lo = lo' /\ hi = hi'.
Proof.
  unfold le16. intros H.
  pose proof (byte_val_range lo). pose proof (byte_val_range hi).
  pose proof (byte_val_range lo'). pose proof (byte_val_range hi').
  split; apply byte_val_inj; lia.
Qed.

(** [lo | (hi << 8)], converted to [uint16_t]. *)
Lemma le16_lor lo hi :
  wrap16 (Z.lor (byte_val lo) (Z.shiftl (byte_val hi) 8)) = le16 lo hi.
Proof.
  pose proof (byte_val_range lo). pose proof (byte_val_range hi).
  rewrite Z.shiftl_mul_pow2 by lia. pow2_consts.
  rewrite (lor_add _ _ 8 8) by (try lia; fields).
  unfold wrap16, le16. fields.
Qed.

Lemma lxor_FFFF x : 0 <= x < 0x10000 -> Z.lxor x 0xFFFF = 0xFFFF - x.
Proof.
  intros Hx.
  assert (Hadd : Z.lxor x 0xFFFF + x = 0xFFFF).
  { rewrite Z.add_nocarry_lxor.
    - rewrite (Z.lxor_comm x), Z.lxor_assoc, Z.lxor_nilpotent, Z.lxor_0_r.
      reflexivity.
    - apply Z.bits_inj'. intros n Hn.
      rewrite Z.land_spec, Z.lxor_spec, Z.bits_0.
      destruct (Z.testbit x n) eqn:Hb; [|apply andb_false_r].
      change 0xFFFF with (Z.ones 16).
      destruct (Z.lt_ge_cases n 16).
      + rewrite Z.ones_spec_low by lia. reflexivity.
      + rewrite <- (Z.mod_small x (2 ^ 16)) in Hb by (pow2_consts; lia).
        rewrite Z.mod_pow2_bits_high in Hb by lia. discriminate. }
  lia.
Qed.

Lemma byte_at_middle pre l post k b :
  l !! k = Some b ->
  byte_at (pre ++ l ++ post) (Z.of_nat (length pre) + Z.of_nat k)
  = Ok (byte_val b).
Proof.
  intros Hl. unfold byte_at.
  destruct (Z.ltb_spec (Z.of_nat (length pre) + Z.of_nat k) 0); [lia|].
  rewrite <- Nat2Z.inj_add, Nat2Z.id.
  rewrite lookup_app_r by lia.
  replace (length pre + k - length pre)%nat with k by lia.
  rewrite (lookup_app_l_Some _ _ _ _ Hl). reflexivity.
Qed.

Lemma bytes_at_middle pre l post :
  bytes_at (pre ++ l ++ post) (Z.of_nat (length pre)) (length l) = Ok l.
Proof.
  unfold bytes_at.
  destruct (Z.ltb_spec (Z.of_nat (length pre)) 0); [lia|].
  rewrite Nat2Z.id.
  destruct (Nat.leb_spec (length pre + length l) (length (pre ++ l ++ post)))
    as [_|Hlen]; [|rewrite !length_app in Hlen; lia].
  rewrite drop_app_length, take_app_length. reflexivity.
Qed.

Ltac osimpl := cbn [mbind mret outcome_bind outcome_ret obind defined].
Tactic Notation "osimpl" "in" hyp(H) :=
  cbn [mbind mret outcome_bind outcome_ret obind defined] in H.

(** The value [get_rats_size] computes from the eight bytes in front of
    the given offset. *)
Lemma get_rats_size_eval rom pre t0 t1 t2 t3 s0 s1 c0 c1 post :
  ROM.m_data rom = Some (pre ++ [t0; t1; t2; t3; s0; s1; c0; c1] ++ post) ->
  is_int (Z.of_nat (length pre) + 8) ->
  ROM.get_rats_size rom (pcaddress.make (Z.of_nat (length pre) + 8))
  = Ok (if bool_decide ([t0; t1; t2; t3] = ROM.rats_tag) then
          if Z.lxor (le16 s0 s1) 0xFFFF =? le16 c0 c1
          then Some ((le16 s0 s1 + 1) mod 0x10000)
          else None
        else None).
Proof.
  intros Hdata Hint. unfold ROM.get_rats_size. rewrite Hdata.
  cbn [pcaddress.value]. osimpl.
  change ROM.rats_header_offset with 8.
  replace (Z.of_nat (length pre) + 8 - 8) with (Z.of_nat (length pre)) by lia.
  rewrite wrap32_id by (unfold is_int in *; lia).
  assert (Htag : bytes_at (pre ++ [t0; t1; t2; t3; s0; s1; c0; c1] ++ post)
                   (Z.of_nat (length pre)) (length ROM.rats_tag)
                 = Ok [t0; t1; t2; t3])
    by apply (bytes_at_middle pre [t0; t1; t2; t3] ([s0; s1; c0; c1] ++ post)).
  rewrite Htag. osimpl.
  destruct (bool_decide ([t0; t1; t2; t3] = ROM.rats_tag)); [|reflexivity].
  cbn [negb].
  set (base := Z.of_nat (length pre)) in *.
  change (Z.of_nat (length ROM.rats_tag)) with 4.
  unfold is_int in Hint.
  rewrite (int_add_id base 4) by (unfold is_int; lia).
  rewrite !int_add_id by (unfold is_int; lia).
  replace (base + 4 + 1) with (base + Z.of_nat 5) by lia.
  replace (base + 4 + 2) with (base + Z.of_nat 6) by lia.
  replace (base + 4 + 3) with (base + Z.of_nat 7) by lia.
  change (base + 4) with (base + Z.of_nat 4).
  unfold base.
  rewrite (byte_at_middle pre _ post 4 s0), (byte_at_middle pre _ post 5 s1),
    (byte_at_middle pre _ post 6 c0), (byte_at_middle pre _ post 7 c1)
    by reflexivity.
  osimpl. rewrite !le16_lor.
  destruct (Z.lxor (le16 s0 s1) 65535 =? le16 c0 c1); reflexivity.
Qed.

(** C4, as amended: with the eight bytes in front of offset [p] readable,
    [get_rats_size p] is absent when the four bytes at [p-8] are not
    ["STAR"], absent when the little-endian checksum at [p-2] differs from
    the little-endian size at [p-4] XOR 0xFFFF, and otherwise the size plus
    one reduced to 16 bits (which is size+1 for every size below 0xFFFF);
    and from a well-formed header, replacing any single byte of the tag or
    of the checksum by a different byte makes the result absent. *)
Theorem get_rats_size_spec rom pre t0 t1 t2 t3 s0 s1 c0 c1 post :
  ROM.m_data rom = Some (pre ++ [t0; t1; t2; t3; s0; s1; c0; c1] ++ post) ->
  is_int (Z.of_nat (length pre) + 8) ->
  let p := pcaddress.make (Z.of_nat (length pre) + 8) in
  let size := le16 s0 s1 in
  let chksum := le16 c0 c1 in
  ([t0; t1; t2; t3] <> ROM.rats_tag -> ROM.get_rats_size rom p = Ok None)
  /\ ([t0; t1; t2; t3] = ROM.rats_tag -> chksum <> Z.lxor size 0xFFFF ->
      ROM.get_rats_size rom p = Ok None)
  /\ ([t0; t1; t2; t3] = ROM.rats_tag -> chksum = Z.lxor size 0xFFFF ->
      ROM.get_rats_size rom p = Ok (Some ((size + 1) mod 0x10000))
      /\ (size < 0xFFFF -> (size + 1) mod 0x10000 = size + 1)
      /\ forall rom' (i : nat) b b',
           (i < 4 \/ i = 6 \/ i = 7)%nat ->
           [t0; t1; t2; t3; s0; s1; c0; c1] !! i = Some b -> b' <> b ->
           ROM.m_data rom'
           = Some (pre ++ <[i := b']> [t0; t1; t2; t3; s0; s1; c0; c1] ++ post) ->
           ROM.get_rats_size rom' p = Ok None).
Proof.
  intros Hdata Hint p size chksum. subst p size chksum.
  rewrite (get_rats_size_eval _ _ _ _ _ _ _ _ _ _ _ Hdata Hint).
  split; [|split].
  - intros Htag. rewrite bool_decide_eq_false_2 by exact Htag. reflexivity.
  - intros Htag Hchk. rewrite bool_decide_eq_true_2 by exact Htag.
    destruct (Z.eqb_spec (Z.lxor (le16 s0 s1) 0xFFFF) (le16 c0 c1));
      [congruence | reflexivity].
  - intros Htag Hchk. split; [|split].
    + rewrite bool_decide_eq_true_2 by exact Htag.
      rewrite Hchk, Z.eqb_refl. reflexivity.
    + intros Hlt. pose proof (le16_range s0 s1). apply Z.mod_small. lia.
    + intros rom' i b b' Hi Hb Hne Hdata'.
      assert (Hc : (i = 0 \/ i = 1 \/ i = 2 \/ i = 3 \/ i = 6 \/ i = 7)%nat)
        by lia.
      destruct Hc as [-> | [-> | [-> | [-> | [-> | ->]]]]];
        cbn [lookup list_lookup] in Hb; injection Hb as <-;
        cbn [insert list_insert] in Hdata';
        rewrite (get_rats_size_eval _ _ _ _ _ _ _ _ _ _ _ Hdata' Hint).
      1-4: rewrite bool_decide_eq_false_2; [reflexivity|];
           intros Heq; apply Hne; rewrite <- Htag in Heq; congruence.
      all: rewrite bool_decide_eq_true_2 by exact Htag.
      * destruct (Z.eqb_spec (Z.lxor (le16 s0 s1) 0xFFFF) (le16 b' c1))
          as [E|E]; [|reflexivity].
        exfalso. apply Hne. rewrite <- Hchk in E. apply le16_inj in E.
        symmetry. tauto.
      * destruct (Z.eqb_spec (Z.lxor (le16 s0 s1) 0xFFFF) (le16 c0 b'))
          as [E|E]; [|reflexivity].
        exfalso. apply Hne. rewrite <- Hchk in E. apply le16_inj in E.
        symmetry. tauto.
Qed.

(** The tag of the specification's example: ["STAR"], size bytes [04 00],
    checksum bytes [FB FF] yields 5; with the first tag byte or the first
    checksum byte altered the result is absent. *)
Lemma get_rats_size_spec_witness :
  let block := ["S"; "T"; "A"; "R"; x04; x00; xfb; xff]%byte in
  let rom := ROM.make "smw.smc" (Some block) 0 0 lorom in
  let rom_tag := ROM.make "smw.smc" (Some (<[0%nat := "s"%byte]> block)) 0 0 lorom in
  let rom_sum := ROM.make "smw.smc" (Some (<[6%nat := xfa]> block)) 0 0 lorom in
  ROM.get_rats_size rom (pcaddress.make 8) = Ok (Some 5)
  /\ ROM.get_rats_size rom_tag (pcaddress.make 8) = Ok None
  /\ ROM.get_rats_size rom_sum (pcaddress.make 8) = Ok None.
Proof.
  cbv zeta.
  assert (Hint : is_int (Z.of_nat (length (@nil byte)) + 8))
    by (unfold is_int; simpl; lia).
  pose proof (get_rats_size_spec
                (ROM.make "smw.smc"
                   (Some ["S"; "T"; "A"; "R"; x04; x00; xfb; xff]%byte)
                   0 0 lorom)
                [] "S"%byte "T"%byte "A"%byte "R"%byte x04 x00 xfb xff []
                eq_refl Hint) as H.
  cbv zeta in H. destruct H as (_ & _ & H).
  destruct (H eq_refl eq_refl) as (Hval & _ & Hmut).
  split; [exact Hval|]. split.
  - apply (Hmut _ 0%nat "S"%byte "s"%byte); [lia | reflexivity | discriminate
                                            | reflexivity].
  - apply (Hmut _ 6%nat xfb xfa); [lia | reflexivity | discriminate
                                  | reflexivity].
Defined.

(** C4 as stated fails for the largest size field: with size bytes [FF FF]
    and the matching checksum bytes [00 00] the result is 0, not
    0xFFFF + 1. *)
Lemma get_rats_size_wraps_at_FFFF :
  let block := ["S"; "T"; "A"; "R"; xff; xff; x00; x00]%byte in
  let rom := ROM.make "smw.smc" (Some block) 0 0 lorom in
  le16 x00 x00 = Z.lxor (le16 xff xff) 0xFFFF
  /\ ROM.get_rats_size rom (pcaddress.make 8) = Ok (Some 0)
  /\ ROM.get_rats_size rom (pcaddress.make 8) <> Ok (Some (le16 xff xff + 1)).
Proof.
  cbv zeta. split; [reflexivity|]. split; [reflexivity|].
  vm_compute. discriminate.
Qed.

(** ** Loading a ROM *)

Section open_properties.
Variable read_all : filesystem -> string -> bool -> Z -> option (list byte).
Variable MAX_ROM_SIZE : Z.

(** What [open] leaves in the container once the file could be opened;
    [byte_at] is undefined outside the buffer, so a defined result has
    read the one or two marker bytes it branches on. *)
Lemma open_inv fs rom file b rom' :
  open_update fs (ROM.name rom) = Some file ->
  ROM.open read_all MAX_ROM_SIZE fs rom = Ok (b, rom') ->
  let size0 := wrap32 (file_size fs file) in
  ROM.name rom' = ROM.name rom
  /\ ROM.header_size rom' = Z.land size0 0x7FFF
  /\ ROM.size rom' = int_sub size0 (Z.land size0 0x7FFF)
  /\ ROM.m_data rom'
     = (if b then read_all fs (ROM.name rom) false
                  (MAX_ROM_SIZE + Z.land size0 0x7FFF)
        else None)
  /\ (b = true ->
      exists buf m,
        ROM.m_data rom' = Some buf
        /\ byte_at buf (ROM.header_size rom' + 0x7FD5) = Ok m
        /\ (m = 0x23 ->
            exists m', byte_at buf (ROM.header_size rom' + 0x7FD7) = Ok m'
                       /\ (m' = 0x0D -> ROM.mapper rom' = fullsa1rom)
                       /\ (m' <> 0x0D -> ROM.mapper rom' = sa1rom))
        /\ (m <> 0x23 -> ROM.mapper rom' = lorom)).
Proof.
  intros Hopen Hres size0. unfold ROM.open in Hres. rewrite Hopen in Hres.
  fold size0 in Hres.
  destruct (read_all fs (ROM.name rom) false
              (MAX_ROM_SIZE + Z.land size0 0x7FFF)) as [buf|] eqn:Hread.
  2:{ osimpl in Hres. injection Hres as <- <-. cbn.
      repeat split; try reflexivity. discriminate. }
  destruct (byte_at buf (Z.land size0 0x7FFF + 0x7fd5)) as [m|] eqn:Hm;
    osimpl in Hres; [|discriminate].
  destruct (Z.eqb_spec m 0x23) as [E|E].
  - destruct (byte_at buf (Z.land size0 0x7FFF + 0x7fd7)) as [m'|] eqn:Hm';
      osimpl in Hres; [|discriminate].
    destruct (Z.eqb_spec m' 0x0D) as [E'|E'];
      injection Hres as <- <-; cbn; repeat split; try reflexivity;
      intros _; exists buf, m; (split; [reflexivity|]); (split; [exact Hm|]);
      (split; [|congruence]); intros _; exists m';
      (split; [exact Hm'|]); split; congruence.
  - injection Hres as <- <-. cbn. repeat split; try reflexivity.
    intros _. exists buf, m. split; [reflexivity|]. split; [exact Hm|].
    split; [congruence|]. reflexivity.
Qed.

(** C5: once [open] has succeeded, the mapper is fixed by the bytes of
    the loaded buffer at [header_size + 0x7FD5] and [header_size +
    0x7FD7]: 0x23 then 0x0D is FullSA1ROM, 0x23 then anything else is
    SA1ROM, anything but 0x23 is LoROM. *)
Theorem open_detects_mapper fs rom rom' :
  ROM.open read_all MAX_ROM_SIZE fs rom = Ok (true, rom') ->
  exists buf m,
    ROM.m_data rom' = Some buf
    /\ byte_at buf (ROM.header_size rom' + 0x7FD5) = Ok m
    /\ (m = 0x23 ->
        exists m', byte_at buf (ROM.header_size rom' + 0x7FD7) = Ok m'
                   /\ (m' = 0x0D -> ROM.mapper rom' = fullsa1rom)
                   /\ (m' <> 0x0D -> ROM.mapper rom' = sa1rom))
    /\ (m <> 0x23 -> ROM.mapper rom' = lorom).
Proof.
  intros Hres.
  destruct (open_update fs (ROM.name rom)) as [file|] eqn:Hopen.
  - destruct (open_inv _ _ _ _ _ Hopen Hres) as (_ & _ & _ & _ & H).
    exact (H eq_refl).
  - unfold ROM.open in Hres. rewrite Hopen in Hres. discriminate.
Qed.

Lemma land_7FFF_wrap32 n : Z.land (wrap32 n) 0x7FFF = n mod 0x8000.
Proof.
  rewrite land_wrap32 by lia. change 0x7FFF with (Z.ones 15).
  rewrite Z.land_ones by lia. reflexivity.
Qed.

(** C8, as amended: when the ROM file can be opened and holds [N] bytes,
    [open] sets [header_size] to [N mod 0x8000] (512 for a 0x100200-byte
    file, 0 for a 0x100000-byte file), and, for [N] below 2^31, [size]
    to [N - header_size]. *)
Theorem open_header_size fs rom file b rom' :
  open_update fs (ROM.name rom) = Some file ->
  ROM.open read_all MAX_ROM_SIZE fs rom = Ok (b, rom') ->
  let N := file_size fs file in
  ROM.header_size rom' = N mod 0x8000
  /\ (N < 0x80000000 -> ROM.size rom' = N - ROM.header_size rom')
  /\ (N = 0x100200 -> ROM.header_size rom' = 512)
  /\ (N = 0x100000 -> ROM.header_size rom' = 0).
Proof.
  intros Hopen Hres N.
  destruct (open_inv _ _ _ _ _ Hopen Hres) as (_ & Hh & Hs & _).
  cbv zeta in Hh, Hs. fold N in Hh, Hs.
  rewrite land_7FFF_wrap32 in Hh, Hs.
  assert (HN : 0 <= N) by (unfold N, file_size; lia).
  split; [exact Hh|]. split; [|split].
  - intros Hlt. rewrite Hs, Hh. rewrite wrap32_id by (unfold is_int; lia).
    apply int_sub_id. unfold is_int. fields.
  - intros E. rewrite Hh, E. reflexivity.
  - intros E. rewrite Hh, E. reflexivity.
Qed.

End open_properties.

Lemma open_detects_mapper_witness :
  let fs := single_file "smw.smc" (marked_image 512 x23 x0d) in
  let rom := ROM.make "smw.smc" None 0 0 lorom in
  let rom' := ROM.make "smw.smc" (Some (marked_image 512 x23 x0d))
                       0x8000 512 fullsa1rom in
  ROM.open read_all_padded 0x8000 fs rom = Ok (true, rom')
  /\ exists buf m,
       ROM.m_data rom' = Some buf
       /\ byte_at buf (ROM.header_size rom' + 0x7FD5) = Ok m
       /\ (m = 0x23 ->
           exists m', byte_at buf (ROM.header_size rom' + 0x7FD7) = Ok m'
                      /\ (m' = 0x0D -> ROM.mapper rom' = fullsa1rom)
                      /\ (m' <> 0x0D -> ROM.mapper rom' = sa1rom))
       /\ (m <> 0x23 -> ROM.mapper rom' = lorom).
Proof.
  cbv zeta.
  assert (H : ROM.open read_all_padded 0x8000
                (single_file "smw.smc" (marked_image 512 x23 x0d))
                (ROM.make "smw.smc" None 0 0 lorom)
              = Ok (true, ROM.make "smw.smc" (Some (marked_image 512 x23 x0d))
                                   0x8000 512 fullsa1rom))
    by reflexivity.
  split; [exact H|].
  exact (open_detects_mapper read_all_padded 0x8000 _ _ _ H).
Defined.

Lemma open_header_size_witness :
  let fs := single_file "smw.smc" (marked_image 512 x00 x00) in
  let rom := ROM.make "smw.smc" None 0 0 lorom in
  let rom' := ROM.make "smw.smc" (Some (marked_image 512 x00 x00))
                       0x8000 512 lorom in
  file_size fs "smw.smc" = 0x8200
  /\ ROM.header_size rom' = file_size fs "smw.smc" mod 0x8000
  /\ (file_size fs "smw.smc" < 0x80000000 ->
      ROM.size rom' = file_size fs "smw.smc" - ROM.header_size rom').
Proof.
  cbv zeta.
  assert (Hopen : open_update (single_file "smw.smc" (marked_image 512 x00 x00))
                    (ROM.name (ROM.make "smw.smc" None 0 0 lorom))
                  = Some "smw.smc") by reflexivity.
  assert (H : ROM.open read_all_padded 0x8000
                (single_file "smw.smc" (marked_image 512 x00 x00))
                (ROM.make "smw.smc" None 0 0 lorom)
              = Ok (true, ROM.make "smw.smc" (Some (marked_image 512 x00 x00))
                                   0x8000 512 lorom))
    by reflexivity.
  split; [reflexivity|].
  destruct (open_header_size read_all_padded 0x8000 _ _ _ _ _ Hopen H)
    as (Hh & Hs & _).
  split; [exact Hh | exact Hs].
Defined.

Lemma open_update_single path content :
  open_update (single_file path content) path = Some path.
Proof.
  unfold open_update, single_file. cbn [files unwritable].
  rewrite lookup_singleton_eq.
  destruct (decide (path ∈ (∅ : gset string))) as [Hin|_];
    [set_solver | reflexivity].
Qed.

Lemma file_size_single path content :
  file_size (single_file path content) path = Z.of_nat (length content).
Proof.
  unfold file_size, single_file. cbn [files].
  rewrite lookup_singleton_eq. reflexivity.
Qed.

Lemma read_all_padded_single path content text_mode minimum_size :
  read_all_padded (single_file path content) path text_mode minimum_size
  = Some (content
          ++ replicate (Z.to_nat minimum_size - length content) "000"%byte).
Proof.
  unfold read_all_padded, single_file. cbn [files].
  rewrite lookup_singleton_eq. reflexivity.
Qed.

(** What [open] computes for a file of [n] zero bytes, [n] being 2^31:
    the size narrowed to [int] is negative. The buffer is only inspected
    at offset 0x7FD5. *)
Lemma open_zero_file_2GiB (n : nat) :
  Z.of_nat n = 0x80000000 ->
  ROM.open read_all_padded 0x8000
    (single_file "big.smc" (replicate n "000"%byte))
    (ROM.make "big.smc" None 0 0 lorom)
  = Ok (true,
        ROM.make "big.smc"
          (read_all_padded (single_file "big.smc" (replicate n "000"%byte))
             "big.smc" false 0x8000)
          (-0x80000000) 0 lorom).
Proof.
  intros Hn. unfold ROM.open. cbn [ROM.name ROM.mapper].
  rewrite open_update_single, file_size_single, length_replicate, Hn.
  change (wrap32 0x80000000) with (-0x80000000).
  change (Z.land (-0x80000000) 0x7FFF) with 0.
  change (int_sub (-0x80000000) 0) with (-0x80000000).
  change (0x8000 + 0) with 0x8000.
  rewrite read_all_padded_single.
  assert (Hb : byte_at
                 (replicate n "000"%byte
                  ++ replicate (Z.to_nat 0x8000 - length (replicate n "000"%byte))
                       "000"%byte) (0 + 0x7fd5) = Ok 0).
  { unfold byte_at. change (0 + 0x7fd5 <? 0) with false. cbv iota.
    rewrite lookup_app_l by (rewrite length_replicate; lia).
    rewrite lookup_replicate_2 by lia. reflexivity. }
  rewrite Hb. osimpl. reflexivity.
Qed.

(** C8 as stated fails for a file of 2^31 bytes: [size] is the negative
    number -2^31 and not [N - header_size]. *)
Lemma open_size_wraps_at_2GiB :
  let content := replicate (Z.to_nat 0x80000000) "000"%byte in
  let fs := single_file "big.smc" content in
  exists rom',
    open_update fs "big.smc" = Some "big.smc"
    /\ file_size fs "big.smc" = 0x80000000
    /\ ROM.open read_all_padded 0x8000 fs (ROM.make "big.smc" None 0 0 lorom)
       = Ok (true, rom')
    /\ ROM.header_size rom' = 0
    /\ ROM.size rom' = -0x80000000
    /\ ROM.size rom' <> file_size fs "big.smc" - ROM.header_size rom'.
Proof.
  cbv zeta.
  assert (Hn : Z.of_nat (Z.to_nat 0x80000000) = 0x80000000)
    by (apply Z2Nat.id; lia).
  eexists. rewrite open_update_single, file_size_single, length_replicate.
  split; [reflexivity|]. split; [exact Hn|].
  split; [apply (open_zero_file_2GiB _ Hn)|].
  cbn [ROM.header_size ROM.size]. rewrite Hn.
  split; [reflexivity|]. split; [reflexivity|]. lia.
Qed.

(** ** Sprite tables *)

Lemma pointer_eqb_eq p q : pointer.eqb p q = true <-> p = q.
Proof.
  destruct p as [l h b], q as [l' h' b']. unfold pointer.eqb. cbn.
  rewrite !andb_true_iff, !Z.eqb_eq. split.
  - intros [[-> ->] ->]. reflexivity.
  - intros E. injection E as -> -> ->. auto.
Qed.

Lemma is_empty_iff B H L p :
  pointer.is_empty B H L p = true <-> p = pointer.DEFAULT_PTR B H L.
Proof. apply pointer_eqb_eq. Qed.

Lemma is_empty_false B H L p :
  p <> pointer.DEFAULT_PTR B H L -> pointer.is_empty B H L p = false.
Proof.
  intros Hne. destruct (pointer.is_empty B H L p) eqn:E; [|reflexivity].
  apply is_empty_iff in E. contradiction.
Qed.

(** C9: a cleared sprite has both table pointers at [DEFAULT_PTR] and an
    empty table; storing any other pointer into [table.init] or into
    [table.main] of a cleared sprite makes [has_empty_table] false. *)
Theorem clear_has_empty_table B H L s p :
  sprite_table.init (sprite.table (sprite.clear B H L s))
  = pointer.DEFAULT_PTR B H L
  /\ sprite_table.main (sprite.table (sprite.clear B H L s))
     = pointer.DEFAULT_PTR B H L
  /\ sprite.has_empty_table B H L (sprite.clear B H L s) = true
  /\ (p <> pointer.DEFAULT_PTR B H L ->
      sprite.has_empty_table B H L (sprite.set_init (sprite.clear B H L s) p)
      = false
      /\ sprite.has_empty_table B H L
           (sprite.set_main (sprite.clear B H L s) p) = false).
Proof.
  split; [reflexivity|]. split; [reflexivity|].
  unfold sprite.has_empty_table. cbn.
  assert (Hd : pointer.is_empty B H L (pointer.DEFAULT_PTR B H L) = true)
    by (apply is_empty_iff; reflexivity).
  rewrite Hd. split; [reflexivity|].
  intros Hne. rewrite (is_empty_false _ _ _ _ Hne). auto.
Qed.

(** The result of the loop of [is_empty_table]: true exactly when no
    sprite of the span has an empty table. *)
Lemma is_empty_table_true_iff B H L sprites :
  is_empty_table B H L sprites = true
  <-> Forall (fun s => sprite.has_empty_table B H L s = false) sprites.
Proof.
  induction sprites as [|s rest IH]; cbn [is_empty_table].
  - split; [constructor | reflexivity].
  - destruct (sprite.has_empty_table B H L s) eqn:E.
    + split; [discriminate|]. intros Hall. inversion Hall; congruence.
    + rewrite IH. split.
      * intros Hall. constructor; assumption.
      * intros Hall. inversion Hall; assumption.
Qed.

Lemma lxor_1_neq l : Z.lxor l 1 <> l.
Proof.
  intros E.
  assert (Hb : Z.testbit (Z.lxor l 1) 0 = Z.testbit l 0)
    by (rewrite E; reflexivity).
  rewrite Z.lxor_spec in Hb. change (Z.testbit 1 0) with true in Hb.
  destruct (Z.testbit l 0); discriminate.
Qed.

(** C3 fails on the code: on a span holding one cleared sprite, whose
    table is empty, [is_empty_table] answers false; on a span holding one
    sprite whose init pointer differs from the sentinel in its low bit,
    whose table is therefore not empty, it answers true. *)
Theorem is_empty_table_is_inverted B H L s :
  let empty := sprite.clear B H L s in
  let d := pointer.DEFAULT_PTR B H L in
  let used :=
    sprite.set_init empty
      (pointer.make (Z.lxor (pointer.lowbyte d) 1) (pointer.highbyte d)
                    (pointer.bankbyte d)) in
  sprite.has_empty_table B H L empty = true
  /\ is_empty_table B H L [empty] = false
  /\ sprite.has_empty_table B H L used = false
  /\ is_empty_table B H L [used] = true.
Proof.
  intros empty d used.
  assert (He : sprite.has_empty_table B H L empty = true).
  { unfold sprite.has_empty_table, empty. cbn.
    assert (Hd : pointer.is_empty B H L (pointer.DEFAULT_PTR B H L) = true)
      by (apply is_empty_iff; reflexivity).
    rewrite Hd. reflexivity. }
  assert (Hu : sprite.has_empty_table B H L used = false).
  { unfold sprite.has_empty_table, used, empty. cbn.
    rewrite is_empty_false; [reflexivity|].
    unfold pointer.DEFAULT_PTR, pointer.of_int. cbn.
    intros E. injection E as E. exact (lxor_1_neq _ E). }
  cbn [is_empty_table]. rewrite He, Hu. auto.
Qed.

(** ** The patch staging buffer *)

Lemma bind_Ok {A B} (m : M A) (f : A -> M B) w a w' :
  m w = Ok (a, w') -> (m ≫= f) w = f a w'.
Proof. intros Hm. unfold mbind, M_bind. rewrite Hm. reflexivity. Qed.

Lemma bind_get_world {A} (k : world -> M A) w : (get_world ≫= k) w = k w w.
Proof. reflexivity. Qed.

Lemma tolower_path_nonempty path :
  path <> ""%string -> tolower <$> list_byte_of_string path <> [].
Proof.
  intros Hne Hnil. apply Hne.
  rewrite <- (string_of_list_byte_of_string path).
  destruct (list_byte_of_string path); [reflexivity | discriminate].
Qed.

Section staging.
Variable format_args : Type.
Variable vsnprintf : string -> format_args -> list byte.

Abbreviation append := (patchfile.append format_args).
Abbreviation appended := (patchfile.appended format_args vsnprintf).

Lemma apply_appends_spec (ops : list append) : forall pf w,
  Forall valid_append ops ->
  patchfile.apply_appends format_args vsnprintf pf ops w
  = Ok (patchfile.set_stream pf
          (patchfile.m_data_stream pf ++ mjoin (appended <$> ops)), w).
Proof.
  induction ops as [|a rest IH]; intros pf w Hvalid;
    cbn [patchfile.apply_appends fmap list_fmap mjoin list_join].
  - rewrite app_nil_r. destruct pf. reflexivity.
  - inversion Hvalid as [|? ? Ha Hrest]; subst.
    assert (Hstep : patchfile.apply_append format_args vsnprintf pf a w
                    = Ok (patchfile.set_stream pf
                            (patchfile.m_data_stream pf ++ appended a), w)).
    { destruct a as [format args | bindata size]; [reflexivity|].
      cbn [patchfile.apply_append patchfile.appended valid_append] in *.
      unfold patchfile.fwrite.
      destruct (Z.leb_spec 0 size); [|lia].
      destruct (Z.leb_spec size (Z.of_nat (length bindata))); [|lia].
      reflexivity. }
    rewrite (bind_Ok _ _ _ _ _ Hstep), IH by exact Hrest.
    cbn [patchfile.set_stream patchfile.m_data_stream].
    rewrite <- app_assoc. reflexivity.
Qed.

Lemma close_spec pf w old vfile :
  heap w !! cxx_string.c_str (patchfile.m_data pf) = Some old ->
  patchfile.m_vfile pf = Some vfile ->
  patchfile.close pf w
  = Ok (patchfile.make (patchfile.m_fs_path pf) (patchfile.m_path pf)
          (patchfile.m_data_stream pf) (cxx_string.make (brk w))
          (Some (memoryfile.make
                   (Some (cxx_string.c_str (patchfile.m_path pf)))
                   (Some (brk w))
                   (Z.of_nat (length (patchfile.m_data_stream pf)))))
          (patchfile.m_from_meimei pf) (patchfile.m_binary pf),
        {| heap := <[brk w := patchfile.m_data_stream pf]>
                     (delete (cxx_string.c_str (patchfile.m_data pf))
                             (heap w));
           brk := Pos.succ (brk w); fs := fs w;
           s_meimei_keep := s_meimei_keep w;
           s_pixi_keep := s_pixi_keep w |}).
Proof.
  intros Hold Hv.
  unfold patchfile.close, cxx_string.assign, cxx_string.new, free, alloc,
    patchfile.refresh_vfile, cxx_string.contents, load.
  unfold mbind, mret, M_bind, M_ret. rewrite Hold.
  cbn [patchfile.m_vfile patchfile.m_data patchfile.m_path
       patchfile.m_fs_path patchfile.m_data_stream patchfile.m_from_meimei
       patchfile.m_binary cxx_string.c_str set_heap heap brk fs
       s_meimei_keep s_pixi_keep].
  rewrite Hv.
  cbn [patchfile.m_data cxx_string.c_str heap].
  rewrite lookup_insert_eq. reflexivity.
Qed.

(** The object and the state construction, appends and [close] lead to:
    the path buffer at the first fresh address, the finalized data two
    addresses above it. *)
Lemma stage_spec w path mode o (ops : list append) :
  Forall valid_append ops ->
  let b := brk w in
  let d := Pos.succ (Pos.succ b) in
  let content := mjoin (appended <$> ops) in
  let lowered := tolower <$> list_byte_of_string path in
  patchfile.stage format_args vsnprintf path mode o ops w
  = Ok (patchfile.make path (cxx_string.make b) content (cxx_string.make d)
          (Some (memoryfile.make (Some b) (Some d)
                   (Z.of_nat (length content))))
          (origin.eqb o origin.meimei)
          (match mode with binary_mode => true | text_mode => false end),
        {| heap := <[d := content]>
                     (delete (Pos.succ b)
                        (<[Pos.succ b := []]> (<[b := lowered]> (heap w))));
           brk := Pos.succ d; fs := fs w;
           s_meimei_keep := s_meimei_keep w;
           s_pixi_keep := s_pixi_keep w |}).
Proof.
  intros Hvalid b d content lowered. unfold patchfile.stage.
  erewrite bind_Ok by reflexivity.
  erewrite bind_Ok by (apply apply_appends_spec; exact Hvalid).
  erewrite close_spec; [reflexivity | | reflexivity].
  unfold patchfile.set_stream.
  cbn [patchfile.m_data cxx_string.c_str heap brk].
  apply lookup_insert_eq.
Qed.


(** The file system a finalized buffer leaves behind when destroyed. *)
Lemma destroy_spec pf w lowered content :
  heap w !! cxx_string.c_str (patchfile.m_path pf) = Some lowered ->
  lowered <> [] ->
  heap w !! cxx_string.c_str (patchfile.m_data pf) = Some content ->
  cxx_string.c_str (patchfile.m_path pf)
  <> cxx_string.c_str (patchfile.m_data pf) ->
  patchfile.m_vfile pf
  = Some (memoryfile.make
            (Some (cxx_string.c_str (patchfile.m_path pf)))
            (Some (cxx_string.c_str (patchfile.m_data pf)))
            (Z.of_nat (length content))) ->
  let path := patchfile.m_fs_path pf in
  let keep := if patchfile.m_from_meimei pf then s_meimei_keep w
              else s_pixi_keep w in
  exists w',
    patchfile.destroy pf w = Ok ((), w')
    /\ unwritable (fs w') = unwritable (fs w)
    /\ files (fs w')
       = (if keep then
            if decide (path ∈ unwritable (fs w)) then files (fs w)
            else <[path := content]> (files (fs w))
          else delete path (files (fs w))).
Proof.
  intros Hpath Hne Hdata Hdist Hv path keep.
  assert (Hfree : forall f,
            (cxx_string.destroy (patchfile.m_data pf);;
             cxx_string.destroy (patchfile.m_path pf)) (set_fs f w)
            = Ok ((), set_fs f
                    (set_heap
                       (delete (cxx_string.c_str (patchfile.m_path pf))
                          (delete (cxx_string.c_str (patchfile.m_data pf))
                             (heap w))) w))).
  { intros f. unfold cxx_string.destroy, free, mbind, M_bind.
    cbn [set_fs set_heap heap]. rewrite Hdata.
    cbn [set_fs set_heap heap].
    rewrite lookup_delete_ne, Hpath by congruence. reflexivity. }
  assert (Hw : set_fs (fs w) w = w) by (destruct w; reflexivity).
  unfold patchfile.destroy.
  erewrite bind_Ok by (unfold cxx_string.contents, load; rewrite Hpath;
                       reflexivity).
  rewrite bool_decide_eq_false_2 by exact Hne.
  match goal with
  | |- exists w', (?body ≫= ?rest) w = _ /\ _ =>
      assert (Hbody : exists f,
                body w = Ok ((), set_fs f w)
                /\ unwritable f = unwritable (fs w)
                /\ files f
                   = (if keep then
                        if decide (path ∈ unwritable (fs w))
                        then files (fs w)
                        else <[path := content]> (files (fs w))
                      else delete path (files (fs w))))
  end.
  { rewrite bind_get_world. fold path. fold keep. destruct keep.
    - unfold open_write.
      destruct (decide (path ∈ unwritable (fs w))) as [Hin|Hnin].
      + exists (fs w). rewrite Hw. repeat split; reflexivity.
      + rewrite Hv. cbn [memoryfile.buffer memoryfile.length].
        erewrite bind_Ok.
        2:{ unfold read_buffer.
            destruct (Z.eqb_spec (Z.of_nat (length content)) 0) as [E|E].
            - destruct content; [reflexivity | discriminate].
            - unfold load, mbind, M_bind. rewrite Hdata.
              destruct (Z.ltb_spec 0 (Z.of_nat (length content))); [|lia].
              destruct (Z.leb_spec (Z.of_nat (length content))
                          (Z.of_nat (length content))); [|lia].
              cbn [andb]. rewrite Nat2Z.id, firstn_all. reflexivity. }
        eexists. split; [reflexivity|]. split; [reflexivity|].
        unfold file_append. cbn [files].
        rewrite lookup_insert_eq. cbn [default].
        rewrite insert_insert_eq. reflexivity.
    - destruct (fs_exists (fs w) path) eqn:Hex.
      + eexists. split; [reflexivity|]. split; reflexivity.
      + exists (fs w). rewrite Hw. split; [reflexivity|].
        split; [reflexivity|].
        unfold fs_exists in Hex. apply bool_decide_eq_false in Hex.
        rewrite delete_id; [reflexivity|].
        destruct (files (fs w) !! path) eqn:E; [|reflexivity].
        exfalso. apply Hex. eauto. }
  destruct Hbody as (f & Hbody & Hun & Hfiles).
  rewrite (bind_Ok _ _ _ _ _ Hbody), Hfree.
  eexists. split; [reflexivity|]. split; [exact Hun | exact Hfiles].
Qed.

(** C7, as amended: for a staging buffer constructed on a non-empty
    path, appended to and finalized, whose finalized content is the
    concatenation of the appended bytes: destroyed with its origin's keep
    flag set, and its path one that can be opened for writing, it leaves
    a file of exactly that content at the path; destroyed with the flag
    unset, it leaves no file at the path, whether or not one was there,
    and touches no other file. *)
Theorem staged_patchfile_destroy w path mode o (ops : list append)
    pixi meimei :
  path <> ""%string ->
  Forall valid_append ops ->
  let content := mjoin (appended <$> ops) in
  exists pf w1 w',
    (patchfile.set_keep pixi meimei;;
     patchfile.stage format_args vsnprintf path mode o ops) w = Ok (pf, w1)
    /\ snapshot_consistent w1 pf
    /\ heap w1 !! cxx_string.c_str (patchfile.m_data pf) = Some content
    /\ fs w1 = fs w
    /\ patchfile.destroy pf w1 = Ok ((), w')
    /\ (keep_of o pixi meimei = true -> path ∉ unwritable (fs w) ->
        files (fs w') = <[path := content]> (files (fs w)))
    /\ (keep_of o pixi meimei = false ->
        files (fs w') = delete path (files (fs w))).
Proof.
  intros Hpath Hvalid content.
  set (w0 := {| heap := heap w; brk := brk w; fs := fs w;
                s_meimei_keep := meimei; s_pixi_keep := pixi |}).
  assert (Hkeep : patchfile.set_keep pixi meimei w = Ok ((), w0))
    by reflexivity.
  pose proof (stage_spec w0 path mode o ops Hvalid) as Hstage.
  cbv zeta in Hstage. cbn [heap brk fs s_meimei_keep s_pixi_keep w0] in Hstage.
  set (b := brk w) in *. set (d := Pos.succ (Pos.succ b)) in *.
  set (lowered := tolower <$> list_byte_of_string path) in *.
  fold content in Hstage.
  match type of Hstage with
  | _ = Ok (?x, ?y) => set (pf := x) in *; set (w1 := y) in *
  end.
  assert (Hd : heap w1 !! d = Some content) by apply lookup_insert_eq.
  assert (Hb : heap w1 !! b = Some lowered).
  { unfold w1. cbn [heap].
    rewrite lookup_insert_ne, lookup_delete_ne, lookup_insert_ne
      by (unfold d; lia).
    apply lookup_insert_eq. }
  destruct (destroy_spec pf w1 lowered content) as (w' & Hdestroy & _ & Hfiles);
    [exact Hb | apply tolower_path_nonempty, Hpath | exact Hd
     | cbn; unfold d; lia | reflexivity |].
  exists pf, w1, w'.
  split; [rewrite (bind_Ok _ _ _ _ _ Hkeep); exact Hstage|].
  split.
  { exists (memoryfile.make (Some b) (Some d) (Z.of_nat (length content))),
           content.
    repeat split; try reflexivity; try exact Hd. exists lowered. exact Hb. }
  split; [exact Hd|]. split; [reflexivity|]. split; [exact Hdestroy|].
  cbv zeta in Hfiles.
  cbn [pf w1 patchfile.m_from_meimei patchfile.m_fs_path fs s_meimei_keep
       s_pixi_keep] in Hfiles.
  assert (Hflag : (if origin.eqb o origin.meimei then meimei else pixi)
                  = keep_of o pixi meimei) by (destruct o; reflexivity).
  rewrite Hflag in Hfiles. split.
  - intros Hk Hw. rewrite Hk in Hfiles.
    destruct (decide (path ∈ unwritable (fs w))); [contradiction|].
    exact Hfiles.
  - intros Hk. rewrite Hk in Hfiles. exact Hfiles.
Qed.

End staging.

(** A formatter for format strings without conversions, and a process
    state with nothing allocated, one stale file and both flags unset. *)
Lemma staged_patchfile_destroy_witness :
  let vsnprintf := fun (format : string) (_ : unit) =>
                     list_byte_of_string format in
  let w := {| heap := ∅; brk := 1%positive;
              fs := single_file "stale.asm" ["!"%byte];
              s_meimei_keep := false; s_pixi_keep := false |} in
  let ops := [patchfile.Formatted unit "org $008000" tt;
              patchfile.Raw unit [x60; x6b]%byte 1] in
  let content := list_byte_of_string "org $008000" ++ [x60] in
  (exists pf w1 w',
     (patchfile.set_keep true false;;
      patchfile.stage unit vsnprintf "Patch.ASM" text_mode origin.pixi ops) w
     = Ok (pf, w1)
     /\ patchfile.destroy pf w1 = Ok ((), w')
     /\ files (fs w') !! "Patch.ASM"%string = Some content)
  /\ (exists pf w1 w',
        (patchfile.set_keep true false;;
         patchfile.stage unit vsnprintf "stale.asm" text_mode origin.meimei
           ops) w = Ok (pf, w1)
        /\ patchfile.destroy pf w1 = Ok ((), w')
        /\ files (fs w') !! "stale.asm"%string = None).
Proof.
  cbv zeta. split.
  - destruct (staged_patchfile_destroy unit
                (fun (format : string) (_ : unit) => list_byte_of_string format)
                {| heap := ∅; brk := 1%positive;
                   fs := single_file "stale.asm" ["!"%byte];
                   s_meimei_keep := false; s_pixi_keep := false |}
                "Patch.ASM" text_mode origin.pixi
                [patchfile.Formatted unit "org $008000" tt;
                 patchfile.Raw unit [x60; x6b]%byte 1] true false)
      as (pf & w1 & w' & Hstage & _ & _ & _ & Hdestroy & Hkeep & _).
    + discriminate.
    + repeat constructor; simpl; lia.
    + exists pf, w1, w'. split; [exact Hstage|]. split; [exact Hdestroy|].
      rewrite Hkeep; [apply lookup_insert_eq | reflexivity | set_solver].
  - destruct (staged_patchfile_destroy unit
                (fun (format : string) (_ : unit) => list_byte_of_string format)
                {| heap := ∅; brk := 1%positive;
                   fs := single_file "stale.asm" ["!"%byte];
                   s_meimei_keep := false; s_pixi_keep := false |}
                "stale.asm" text_mode origin.meimei
                [patchfile.Formatted unit "org $008000" tt;
                 patchfile.Raw unit [x60; x6b]%byte 1] true false)
      as (pf & w1 & w' & Hstage & _ & _ & _ & Hdestroy & _ & Hdrop).
    + discriminate.
    + repeat constructor; simpl; lia.
    + exists pf, w1, w'. split; [exact Hstage|]. split; [exact Hdestroy|].
      rewrite Hdrop by reflexivity. apply lookup_delete_eq.
Defined.

(** C7 as stated fails when the target path cannot be opened for
    writing: the destructor returns at [fp == nullptr] and, the keep flag
    being set, no file appears at the path. *)
Lemma kept_patchfile_unwritable_path :
  let vsnprintf := fun (format : string) (_ : unit) =>
                     list_byte_of_string format in
  let w := {| heap := ∅; brk := 1%positive;
              fs := {| files := ∅; unwritable := {[ "patch.asm"%string ]} |};
              s_meimei_keep := false; s_pixi_keep := false |} in
  exists pf w1 w',
    (patchfile.set_keep true true;;
     patchfile.stage unit vsnprintf "patch.asm" binary_mode origin.pixi
       [patchfile.Raw unit [x60; x6b]%byte 2]) w = Ok (pf, w1)
    /\ heap w1 !! cxx_string.c_str (patchfile.m_data pf) = Some [x60; x6b]%byte
    /\ s_pixi_keep w1 = true
    /\ patchfile.destroy pf w1 = Ok ((), w')
    /\ files (fs w') !! "patch.asm"%string = None.
Proof.
  cbv zeta. do 3 eexists.
  split; [vm_compute; reflexivity|].
  split; [vm_compute; reflexivity|].
  split; [reflexivity|].
  split; [vm_compute; reflexivity|].
  vm_compute. reflexivity.
Qed.

(** ** Moving a staging buffer *)

Section moving.
Variable sso_capacity : nat.

(** Moving a string: the new string holds the characters, the source is
    empty, the two have different buffers, and no other buffer
    changes. *)
Lemma string_move_spec w s bs :
  heap_ok w ->
  heap w !! cxx_string.c_str s = Some bs ->
  exists dst src' w',
    cxx_string.move_construct sso_capacity s w = Ok ((dst, src'), w')
    /\ heap w' !! cxx_string.c_str dst = Some bs
    /\ heap w' !! cxx_string.c_str src' = Some []
    /\ cxx_string.c_str dst <> cxx_string.c_str src'
    /\ (forall l, l <> cxx_string.c_str s -> l <> brk w ->
                  heap w' !! l = heap w !! l)
    /\ (cxx_string.c_str dst = cxx_string.c_str s
        \/ cxx_string.c_str dst = brk w)
    /\ brk w' = Pos.succ (brk w)
    /\ heap_ok w'.
Proof.
  intros Hok Hs.
  assert (Hlt : (cxx_string.c_str s < brk w)%positive) by (apply Hok; eauto).
  assert (Hok' : forall h,
            (forall l, is_Some (h !! l) ->
                       is_Some (heap w !! l) \/ l = brk w) ->
            heap_ok {| heap := h; brk := Pos.succ (brk w); fs := fs w;
                       s_meimei_keep := s_meimei_keep w;
                       s_pixi_keep := s_pixi_keep w |}).
  { intros h Hh l Hl. cbn [heap brk] in *.
    destruct (Hh l Hl) as [Hold | ->]; [apply Hok in Hold|]; lia. }
  unfold cxx_string.move_construct.
  erewrite bind_Ok by (unfold cxx_string.contents, load; rewrite Hs;
                       reflexivity).
  destruct (length bs <=? sso_capacity)%nat.
  - exists (cxx_string.make (brk w)), s.
    unfold cxx_string.new, alloc, store, mbind, mret, M_bind, M_ret.
    cbn [heap cxx_string.c_str].
    rewrite lookup_insert_ne, Hs by lia.
    eexists. split; [reflexivity|].
    cbn [set_heap heap brk cxx_string.c_str].
    split; [rewrite lookup_insert_ne by lia; apply lookup_insert_eq|].
    split; [apply lookup_insert_eq|].
    split; [lia|].
    split; [intros l Hl1 Hl2; rewrite !lookup_insert_ne by congruence;
            reflexivity|].
    split; [right; reflexivity|]. split; [reflexivity|].
    apply Hok'. intros l Hl.
    destruct (decide (l = cxx_string.c_str s)) as [->|Hn1]; [left; eauto|].
    destruct (decide (l = brk w)) as [->|Hn2]; [right; reflexivity|].
    left. rewrite !lookup_insert_ne in Hl by congruence. exact Hl.
  - exists s, (cxx_string.make (brk w)).
    unfold cxx_string.new, alloc, mbind, mret, M_bind, M_ret.
    eexists. split; [reflexivity|].
    cbn [heap brk cxx_string.c_str].
    split; [rewrite lookup_insert_ne by lia; exact Hs|].
    split; [apply lookup_insert_eq|].
    split; [lia|].
    split; [intros l Hl1 Hl2; rewrite lookup_insert_ne by congruence;
            reflexivity|].
    split; [left; reflexivity|]. split; [reflexivity|].
    apply Hok'. intros l Hl.
    destruct (decide (l = brk w)) as [->|Hn2]; [right; reflexivity|].
    left. rewrite lookup_insert_ne in Hl by congruence. exact Hl.
Qed.

(** C10: from a staging buffer whose strings are alive and whose
    snapshot exists, move construction yields an object whose snapshot
    points at its own data buffer, carries that buffer's size and points
    at its own lower-cased path, never at a buffer of the moved-from
    object, the characters being those of the source; and [close] leaves
    the snapshot of the object equally self-consistent, on the bytes of
    the stream. *)
Theorem snapshot_self_consistent w pf :
  heap_ok w -> owns w pf -> is_Some (patchfile.m_vfile pf) ->
  (exists dest other' w',
     patchfile.move_construct sso_capacity pf w = Ok ((dest, other'), w')
     /\ snapshot_consistent w' dest
     /\ (forall vfile, patchfile.m_vfile dest = Some vfile ->
           memoryfile.buffer vfile
           <> Some (cxx_string.c_str (patchfile.m_data other'))
           /\ memoryfile.path vfile
              <> Some (cxx_string.c_str (patchfile.m_path other')))
     /\ heap w' !! cxx_string.c_str (patchfile.m_data dest)
        = heap w !! cxx_string.c_str (patchfile.m_data pf)
     /\ heap w' !! cxx_string.c_str (patchfile.m_path dest)
        = heap w !! cxx_string.c_str (patchfile.m_path pf))
  /\ (exists pf' w',
        patchfile.close pf w = Ok (pf', w')
        /\ snapshot_consistent w' pf'
        /\ heap w' !! cxx_string.c_str (patchfile.m_data pf')
           = Some (patchfile.m_data_stream pf)).
Proof.
  intros Hok ([bp Hp] & [bd Hd] & Hdist) [v0 Hv]. split.
  - destruct (string_move_spec w _ bp Hok Hp)
      as (path & opath & w1 & Hm1 & Hpath1 & Hopath1 & Hne1 & Hframe1
          & Hfrom1 & Hbrk1 & Hok1).
    assert (Hltp : (cxx_string.c_str (patchfile.m_path pf) < brk w)%positive)
      by (apply Hok; eauto).
    assert (Hltd : (cxx_string.c_str (patchfile.m_data pf) < brk w)%positive)
      by (apply Hok; eauto).
    assert (Hd1 : heap w1 !! cxx_string.c_str (patchfile.m_data pf) = Some bd)
      by (rewrite Hframe1 by (congruence || lia); exact Hd).
    destruct (string_move_spec w1 _ bd Hok1 Hd1)
      as (data & odata & w2 & Hm2 & Hdata2 & Hodata2 & Hne2 & Hframe2
          & Hfrom2 & Hbrk2 & Hok2).
    assert (Hpath2 : heap w2 !! cxx_string.c_str path = Some bp).
    { rewrite Hframe2; [exact Hpath1 | |];
        destruct Hfrom1 as [-> | ->]; (congruence || lia). }
    assert (Hopath2 : cxx_string.c_str path <> cxx_string.c_str opath)
      by exact Hne1.
    exists (patchfile.make (patchfile.m_fs_path pf) path
              (patchfile.m_data_stream pf) data
              (Some (memoryfile.make (Some (cxx_string.c_str path))
                       (Some (cxx_string.c_str data))
                       (Z.of_nat (length bd))))
              (patchfile.m_from_meimei pf) (patchfile.m_binary pf)),
           (patchfile.make "" opath [] odata None
              (patchfile.m_from_meimei pf) (patchfile.m_binary pf)),
           w2.
    split.
    { unfold patchfile.move_construct.
      rewrite (bind_Ok _ _ _ _ _ Hm1). cbv beta iota.
      rewrite (bind_Ok _ _ _ _ _ Hm2). cbv beta iota.
      unfold patchfile.refresh_vfile.
      cbn [patchfile.m_vfile patchfile.m_data patchfile.m_path
           patchfile.m_fs_path patchfile.m_data_stream
           patchfile.m_from_meimei patchfile.m_binary].
      rewrite Hv. unfold cxx_string.contents, load, mbind, mret, M_bind, M_ret.
      rewrite Hdata2. reflexivity. }
    cbn [patchfile.m_vfile patchfile.m_data patchfile.m_path].
    split.
    { eexists _, bd. cbn [patchfile.m_vfile patchfile.m_data patchfile.m_path
                          memoryfile.buffer memoryfile.length memoryfile.path].
      repeat split; try reflexivity; [exact Hdata2 | eauto]. }
    split.
    { intros vfile E. injection E as <-.
      cbn [memoryfile.buffer memoryfile.path]. split; congruence. }
    split; [rewrite Hdata2, Hd | rewrite Hpath2, Hp]; reflexivity.
  - assert (Hltp : (cxx_string.c_str (patchfile.m_path pf) < brk w)%positive)
      by (apply Hok; eauto).
    eexists _, _. split; [exact (close_spec pf w bd v0 Hd Hv)|].
    cbn [patchfile.m_data cxx_string.c_str heap]. split.
    + eexists _, _.
      cbn [patchfile.m_vfile patchfile.m_data patchfile.m_path
           cxx_string.c_str heap memoryfile.buffer memoryfile.length
           memoryfile.path].
      split; [reflexivity|]. split; [reflexivity|].
      split; [apply lookup_insert_eq|]. split; [reflexivity|].
      split; [reflexivity|].
      rewrite lookup_insert_ne, lookup_delete_ne by (congruence || lia).
      eauto.
    + apply lookup_insert_eq.
Qed.

End moving.

(** Construction reaches the states the previous theorem is about. *)
Lemma create_establishes w path mode o :
  heap_ok w ->
  exists pf w',
    patchfile.create path mode o w = Ok (pf, w')
    /\ heap_ok w' /\ owns w' pf /\ is_Some (patchfile.m_vfile pf).
Proof.
  intros Hok. eexists _, _. split; [reflexivity|].
  cbn [patchfile.m_vfile]. split; [|split; [|eauto]].
  - intros l Hl. cbn [heap brk] in *.
    destruct (decide (l = Pos.succ (brk w))) as [->|Hn1]; [lia|].
    destruct (decide (l = brk w)) as [->|Hn2]; [lia|].
    rewrite !lookup_insert_ne in Hl by congruence.
    apply Hok in Hl. lia.
  - unfold owns. cbn [patchfile.m_path patchfile.m_data cxx_string.c_str heap brk].
    split; [|split].
    + rewrite lookup_insert_ne by lia. rewrite lookup_insert_eq. eauto.
    + rewrite lookup_insert_eq. eauto.
    + lia.
Qed.

Lemma heap_ok_empty f k1 k2 :
  heap_ok {| heap := ∅; brk := 1%positive; fs := f;
             s_meimei_keep := k1; s_pixi_keep := k2 |}.
Proof. intros l [bs Hl]. cbn [heap] in Hl. rewrite lookup_empty in Hl. discriminate. Qed.

Lemma snapshot_self_consistent_witness :
  let w0 := {| heap := ∅; brk := 1%positive; fs := single_file "stale.asm" [];
               s_meimei_keep := false; s_pixi_keep := false |} in
  exists pf w,
    patchfile.create "Patch.ASM" text_mode origin.pixi w0 = Ok (pf, w)
    /\ (exists dest other' w',
          patchfile.move_construct 15 pf w = Ok ((dest, other'), w')
          /\ snapshot_consistent w' dest
          /\ heap w' !! cxx_string.c_str (patchfile.m_path dest)
             = Some (list_byte_of_string "patch.asm"))
    /\ (exists pf' w', patchfile.close pf w = Ok (pf', w')
                       /\ snapshot_consistent w' pf').
Proof.
  cbv zeta.
  destruct (create_establishes
              {| heap := ∅; brk := 1%positive; fs := single_file "stale.asm" [];
                 s_meimei_keep := false; s_pixi_keep := false |}
              "Patch.ASM" text_mode origin.pixi (heap_ok_empty _ _ _))
    as (pf & w & Hcreate & Hok & Howns & Hv).
  exists pf, w. split; [exact Hcreate|].
  destruct (snapshot_self_consistent 15 w pf Hok Howns Hv)
    as ((dest & other' & w' & Hmove & Hsnap & _ & _ & Hpath)
        & (pf' & w'' & Hclose & Hsnap' & _)).
  split.
  - exists dest, other', w'. split; [exact Hmove|]. split; [exact Hsnap|].
    rewrite Hpath. injection Hcreate as <- <-.
    cbn [patchfile.m_path cxx_string.c_str heap].
    rewrite lookup_insert_ne by discriminate. apply lookup_insert_eq.
  - exists pf', w''. split; [exact Hclose | exact Hsnap'].
Defined.

Lemma clear_has_empty_table_witness :
  let s := sprite.make 12 0x1B 0x105
             (sprite_table.make 1 0x36 [0; 0; 0; 0; 0; 0]
                (pointer.of_int 0x128000) (pointer.of_int 0x128123) [0; 0])
             (status_pointers.make (pointer.of_int 0x018021)
                (pointer.of_int 0x018021) (pointer.of_int 0x018021)
                (pointer.of_int 0x018021) (pointer.of_int 0x018021))
             (pointer.of_int 0x018021) 2 4 "sprites/" "thwomp.asm"
             "thwomp.cfg" [] XYPosition [] [] Sprite in
  let p := pointer.of_int 0x128000 in
  p <> pointer.DEFAULT_PTR 0x01 0x80 0x21
  /\ sprite.has_empty_table 0x01 0x80 0x21 (sprite.clear 0x01 0x80 0x21 s)
     = true
  /\ sprite.has_empty_table 0x01 0x80 0x21
       (sprite.set_init (sprite.clear 0x01 0x80 0x21 s) p) = false
  /\ sprite.has_empty_table 0x01 0x80 0x21
       (sprite.set_main (sprite.clear 0x01 0x80 0x21 s) p) = false.
Proof.
  cbv zeta.
  assert (Hne : pointer.of_int 0x128000 <> pointer.DEFAULT_PTR 0x01 0x80 0x21)
    by discriminate.
  split; [exact Hne|].
  destruct (clear_has_empty_table 0x01 0x80 0x21
              (sprite.make 12 0x1B 0x105
                 (sprite_table.make 1 0x36 [0; 0; 0; 0; 0; 0]
                    (pointer.of_int 0x128000) (pointer.of_int 0x128123) [0; 0])
                 (status_pointers.make (pointer.of_int 0x018021)
                    (pointer.of_int 0x018021) (pointer.of_int 0x018021)
                    (pointer.of_int 0x018021) (pointer.of_int 0x018021))
                 (pointer.of_int 0x018021) 2 4 "sprites/" "thwomp.asm"
                 "thwomp.cfg" [] XYPosition [] [] Sprite)
              (pointer.of_int 0x128000))
    as (_ & _ & Hclear & Hset).
  split; [exact Hclear|]. exact (Hset Hne).
Defined.

(* ================================================================== *)
(** * Further properties of the code                                  *)
(* ================================================================== *)

(** ** FullSA1ROM and the reverse translation *)

(** OR-ing a mask of [w] ones at position [k] into any value. *)
Lemma lor_mask x k w : 0 <= k -> 0 <= w ->
  Z.lor x (Z.shiftl (Z.ones w) k)
  = x + 2 ^ k * (2 ^ w - 1) - 2 ^ k * ((x / 2 ^ k) mod 2 ^ w).
Proof.
  intros Hk Hw. rewrite <- land_field by lia.
  pose proof (Z.add_lor_land x (Z.shiftl (Z.ones w) k)) as H.
  rewrite Z.shiftl_mul_pow2, Z.ones_equiv in * by lia.
  rewrite <- Z.sub_1_r in *. lia.
Qed.

Lemma fullsa1rom_snes_value top a : top = 0 \/ top = 1 ->
  Z.lor (Z.lor (Z.lor (0x800000 * top) (Z.land (int_shl a 1) 0x3F0000)) 0x8000)
        (Z.land a 0x7FFF)
  = 0x800000 * top + 0x10000 * ((a / 0x8000) mod 64) + 0x8000 + a mod 0x8000.
Proof.
  intros Htop. unfold int_shl. rewrite land_wrap32 by lia.
  rewrite Z.shiftl_mul_pow2 by lia.
  rewrite (land_field _ 16 6), (land_field _ 0 15) by lia.
  pow2_consts. lor_plus 16 6. lor_plus 15 1. lor_plus 0 15. fields.
Qed.

Lemma fullsa1rom_pc_value top hi lo :
  top = 0 \/ top = 1 -> 0 <= hi < 64 -> 0 <= lo < 0x8000 ->
  let s := 0x800000 * top + 0x10000 * hi + 0x8000 + lo in
  (Z.land s 0xC00000 =? 0xC00000) = false
  /\ (Z.land s 0xC00000 =? 0x000000) || (Z.land s 0xC00000 =? 0x800000) = true
  /\ (Z.land s 0x008000 =? 0x000000) = false
  /\ Z.lor (Z.lor (Z.shiftr (Z.land s 0x800000) 2)
                  (Z.shiftr (Z.land s 0x3F0000) 1))
           (Z.land s 0x7FFF)
     = 0x200000 * top + 0x8000 * hi + lo.
Proof.
  intros Htop Hhi Hlo s. subst s.
  rewrite (land_field _ 22 2), (land_field _ 15 1), (land_field _ 23 1),
    (land_field _ 16 6), (land_field _ 0 15) by lia.
  rewrite !Z.shiftr_div_pow2 by lia. pow2_consts.
  lor_plus 15 6. lor_plus 0 15.
  destruct Htop as [-> | ->].
  - split; [apply Z.eqb_neq; fields|].
    split; [apply orb_true_iff; left; apply Z.eqb_eq; fields|].
    split; [apply Z.eqb_neq; fields | fields].
  - split; [apply Z.eqb_neq; fields|].
    split; [apply orb_true_iff; right; apply Z.eqb_eq; fields|].
    split; [apply Z.eqb_neq; fields | fields].
Qed.

Lemma fullsa1rom_hirom_value x : 0 <= x < 0x400000 ->
  Z.lor (0x400000 + x) 0xC00000 = 0xC00000 + x
  /\ (Z.land (0xC00000 + x) 0xC00000 =? 0xC00000) = true
  /\ Z.lor (Z.land (0xC00000 + x) 0x3FFFFF) 0x400000 = 0x400000 + x.
Proof.
  intros Hx. split; [|split].
  - change 0xC00000 with (Z.shiftl (Z.ones 2) 22) at 1.
    rewrite lor_mask by lia. fields.
  - rewrite (land_field _ 22 2) by lia. apply Z.eqb_eq. fields.
  - rewrite (land_field _ 0 22) by lia. pow2_consts.
    rewrite (lor_add _ _ 22 1) by (try lia; fields). fields.
Qed.

(** Under FullSA1ROM the translation round-trips on all of the 8 MiB the
    mapper reaches: every PC offset less than 0x800000 bytes past the
    header comes back from [snes_to_pc (pc_to_snes p)] unchanged, whether
    it goes through the banks 00-3F, 80-BF or C0-FF. *)
Theorem fullsa1rom_round_trip sa1banks rom p :
  ROM.mapper rom = fullsa1rom ->
  is_int (pcaddress.value p) ->
  0 <= pcaddress.value p - ROM.header_size rom < 0x800000 ->
  ROM.snes_to_pc sa1banks rom (ROM.pc_to_snes sa1banks rom p) = p.
Proof.
  destruct p as [v]. cbn [pcaddress.value]. intros Hm Hv Ha.
  unfold ROM.pc_to_snes. rewrite Hm. cbn [pcaddress.value].
  rewrite int_sub_id by (unfold is_int in *; lia).
  set (a := v - ROM.header_size rom) in *.
  assert (Hback : forall x, x = a ->
            pcaddress.make (int_add x (ROM.header_size rom)) = pcaddress.make v).
  { intros x ->. f_equal. unfold int_add, a.
    replace (v - ROM.header_size rom + ROM.header_size rom) with v by lia.
    apply wrap32_id, Hv. }
  rewrite (land_field _ 22 1), (land_field _ 21 2) by lia. pow2_consts.
  destruct (Z.eqb_spec (4194304 * ((a / 4194304) mod 2)) 4194304) as [E|E].
  - assert (Hx : 0 <= a - 0x400000 < 0x400000) by (revert E; fields).
    destruct (fullsa1rom_hirom_value _ Hx) as (H1 & H2 & H3).
    replace (0x400000 + (a - 0x400000)) with a in H1 by lia.
    rewrite H1. unfold ROM.snes_to_pc. rewrite Hm. cbn [snesaddress.value].
    rewrite H2, H3. apply Hback. lia.
  - destruct (Z.eqb_spec (2097152 * ((a / 2097152) mod 4)) 0) as [E0|E0].
    + pose proof (fullsa1rom_snes_value 0 a (or_introl eq_refl)) as Hs.
      change (0x800000 * 0) with 0 in Hs. rewrite Z.lor_0_l in Hs.
      cbn [Z.add] in Hs. rewrite Hs.
      unfold ROM.snes_to_pc. rewrite Hm. cbn [snesaddress.value].
      assert (Hhi : 0 <= (a / 0x8000) mod 64 < 64) by fields.
      assert (Hl : 0 <= a mod 0x8000 < 0x8000) by fields.
      pose proof (fullsa1rom_pc_value 0 _ _ (or_introl eq_refl) Hhi Hl) as Hpc.
      cbv zeta in Hpc. change (0x800000 * 0) with 0 in Hpc.
      change (0x200000 * 0) with 0 in Hpc. cbn [Z.add] in Hpc.
      destruct Hpc as (H1 & H2 & H3 & H4).
      rewrite H1, H2, H3, H4. apply Hback. fields.
    + destruct (Z.eqb_spec (2097152 * ((a / 2097152) mod 4)) 2097152)
        as [E1|E1]; [|exfalso; revert E E0 E1; fields].
      change 8388608 with (0x800000 * 1).
      rewrite (fullsa1rom_snes_value 1 a (or_intror eq_refl)).
      unfold ROM.snes_to_pc. rewrite Hm. cbn [snesaddress.value].
      assert (Hhi : 0 <= (a / 0x8000) mod 64 < 64) by fields.
      assert (Hl : 0 <= a mod 0x8000 < 0x8000) by fields.
      pose proof (fullsa1rom_pc_value 1 _ _ (or_intror eq_refl) Hhi Hl) as Hpc.
      cbv zeta in Hpc. destruct Hpc as (H1 & H2 & H3 & H4).
      rewrite H1, H2, H3, H4. apply Hback. revert E E0 E1. fields.
Qed.

(** ** Addresses that are never rejected, offsets that are never exceeded *)

Lemma pc_to_snes_lorom sa1banks rom p :
  ROM.mapper rom = lorom ->
  let a := int_sub (pcaddress.value p) (ROM.header_size rom) in
  ROM.pc_to_snes sa1banks rom p
  = snesaddress.make
      (0x10000 * ((a / 0x8000) mod 128) + 0x8000 + a mod 0x8000).
Proof.
  intros Hm a. unfold ROM.pc_to_snes. rewrite Hm. fold a.
  rewrite lorom_snes_value. reflexivity.
Qed.

(** [pc_to_snes] reports an offset as invalid under SA1ROM only. Under
    LoROM every offset, also one below the header or beyond the image,
    gets an address between 0x008000 and 0x7FFFFF; under FullSA1ROM
    every offset at or past the header gets an address from 0x008000 up,
    the final [return -1] being out of reach. *)
Theorem pc_to_snes_sentinel_only_sa1rom sa1banks rom p :
  let s := snesaddress.value (ROM.pc_to_snes sa1banks rom p) in
  (ROM.mapper rom = lorom -> 0x8000 <= s <= 0x7FFFFF)
  /\ (ROM.mapper rom = fullsa1rom ->
      0 <= pcaddress.value p - ROM.header_size rom < 0x80000000 ->
      0x8000 <= s).
Proof.
  cbv zeta. split.
  - intros Hm. rewrite pc_to_snes_lorom by exact Hm.
    cbn [snesaddress.value]. fields.
  - intros Hm Ha. unfold ROM.pc_to_snes. rewrite Hm.
    rewrite int_sub_id by (unfold is_int; lia).
    set (a := pcaddress.value p - ROM.header_size rom) in *.
    rewrite (land_field _ 22 1), (land_field _ 21 2) by lia. pow2_consts.
    destruct (Z.eqb_spec (4194304 * ((a / 4194304) mod 2)) 4194304) as [E|E].
    + cbn [snesaddress.value]. change 0xC00000 with (Z.shiftl (Z.ones 2) 22).
      rewrite lor_mask by lia. fields.
    + destruct (Z.eqb_spec (2097152 * ((a / 2097152) mod 4)) 0) as [E0|E0].
      * pose proof (fullsa1rom_snes_value 0 a (or_introl eq_refl)) as Hs.
        change (0x800000 * 0) with 0 in Hs. rewrite Z.lor_0_l in Hs.
        cbn [Z.add] in Hs. cbn [snesaddress.value]. rewrite Hs. fields.
      * destruct (Z.eqb_spec (2097152 * ((a / 2097152) mod 4)) 2097152)
          as [E1|E1]; [|exfalso; revert E E0 E1; fields].
        cbn [snesaddress.value]. change 8388608 with (0x800000 * 1).
        rewrite (fullsa1rom_snes_value 1 a (or_intror eq_refl)). fields.
Qed.

Lemma wrap32_add_sub x h : wrap32 (wrap32 (x + h) - h) = wrap32 x.
Proof. unfold wrap32. fields. Qed.

Lemma lorom_pc_value_gen s :
  Z.lor (Z.shiftr (Z.land s 0x7F0000) 1) (Z.land s 0x7FFF)
  = 0x8000 * ((s / 0x10000) mod 128) + s mod 0x8000.
Proof.
  rewrite (land_field _ 16 7), (land_field _ 0 15) by lia.
  rewrite Z.shiftr_div_pow2 by lia.
  pow2_consts. lor_plus 0 15. fields.
Qed.

(** An address [snes_to_pc] accepts is translated to an offset less
    than 4 MiB past the header under LoROM, less than 8 MiB past it under
    FullSA1ROM. *)
Theorem snes_to_pc_offset_bound sa1banks rom s :
  ROM.unmapped (ROM.mapper rom) s = false ->
  (ROM.mapper rom = lorom ->
   exists a, 0 <= a < 0x400000
             /\ ROM.snes_to_pc sa1banks rom (snesaddress.make s)
                = pcaddress.make (int_add a (ROM.header_size rom)))
  /\ (ROM.mapper rom = fullsa1rom ->
      exists a, 0 <= a < 0x800000
                /\ ROM.snes_to_pc sa1banks rom (snesaddress.make s)
                   = pcaddress.make (int_add a (ROM.header_size rom))).
Proof.
  intros Hu. split; intros Hm; rewrite Hm in Hu.
  - rewrite snes_to_pc_lorom, Hu, lorom_pc_value_gen by exact Hm.
    eexists. split; [|reflexivity]. fields.
  - unfold ROM.snes_to_pc. rewrite Hm. cbn [snesaddress.value].
    unfold ROM.unmapped in Hu.
    destruct (Z.land s 0xC00000 =? 0xC00000).
    + eexists. split; [|reflexivity].
      rewrite (land_field _ 0 22) by lia. pow2_consts.
      rewrite (lor_add _ _ 22 1) by (try lia; fields). fields.
    + cbn [negb andb] in Hu.
      destruct ((Z.land s 0xC00000 =? 0) || (Z.land s 0xC00000 =? 0x800000));
        [|discriminate].
      rewrite Hu. eexists. split; [|reflexivity].
      rewrite (land_field _ 23 1), (land_field _ 16 6), (land_field _ 0 15)
        by lia.
      rewrite !Z.shiftr_div_pow2 by lia. pow2_consts.
      lor_plus 15 6. lor_plus 0 15. fields.
Qed.

(** Under LoROM the translation round-trips from the SNES side too:
    an address below 0x7E0000 with bit 15 set is accepted by
    [snes_to_pc], whatever the header size, and [pc_to_snes] gives it
    back. *)
Theorem lorom_snes_round_trip sa1banks rom s :
  ROM.mapper rom = lorom ->
  0 <= s < 0x7E0000 ->
  Z.land s 0x8000 = 0x8000 ->
  ROM.pc_to_snes sa1banks rom
    (ROM.snes_to_pc sa1banks rom (snesaddress.make s))
  = snesaddress.make s.
Proof.
  intros Hm Hs Hbit.
  rewrite (land_field _ 15 1) in Hbit by lia.
  assert (Hu : ROM.unmapped lorom s = false).
  { unfold ROM.unmapped.
    change 0x408000 with (Z.lor (Z.shiftl (Z.ones 1) 22) (Z.shiftl (Z.ones 1) 15)).
    change 0x708000 with (Z.lor (Z.shiftl (Z.ones 3) 20) (Z.shiftl (Z.ones 1) 15)).
    rewrite !Z.land_lor_distr_r.
    rewrite (land_field _ 17 7), (land_field _ 22 1), (land_field _ 15 1),
      (land_field _ 20 3) by lia.
    rewrite Hbit. pow2_consts. lor_plus 15 1. lor_plus 15 1.
    repeat match goal with
    | |- context [?x =? ?y] =>
        destruct (Z.eqb_spec x y) as [E|E];
          [exfalso; revert E Hbit; fields | clear E]
    end. reflexivity. }
  rewrite snes_to_pc_lorom, Hu, lorom_pc_value_gen by exact Hm.
  rewrite pc_to_snes_lorom by exact Hm. cbv zeta. cbn [pcaddress.value].
  unfold int_add, int_sub. rewrite wrap32_add_sub.
  rewrite wrap32_id by (unfold is_int; fields).
  f_equal. revert Hbit. fields.
Qed.

(** ** The SA-1 bank table *)

Lemma land_408000 s :
  Z.land s 0x408000
  = 0x400000 * ((s / 0x400000) mod 2) + 0x8000 * ((s / 0x8000) mod 2).
Proof.
  change 0x408000 with (Z.lor (Z.shiftl (Z.ones 1) 22) (Z.shiftl (Z.ones 1) 15)).
  rewrite Z.land_lor_distr_r.
  rewrite (land_field _ 22 1), (land_field _ 15 1) by lia.
  pow2_consts. lor_plus 15 1. reflexivity.
Qed.

Lemma sa1rom_lorom_slot s :
  Z.land s 0x408000 = 0x008000 ->
  let i := Z.shiftr (Z.land s 0xE00000) 21 in
  i = 0 \/ i = 1 \/ i = 4 \/ i = 5.
Proof.
  rewrite land_408000. intros H. cbv zeta.
  rewrite (land_field _ 21 3), Z.shiftr_div_pow2 by lia.
  revert H. fields.
Qed.

Lemma sa1rom_hirom_slot s :
  let i := Z.lor (Z.shiftr (Z.land s 0x100000) 20)
                 (Z.shiftr (Z.land s 0x200000) 19) in
  i = 0 \/ i = 1 \/ i = 4 \/ i = 5.
Proof.
  cbv zeta.
  rewrite (land_field _ 20 1), (land_field _ 21 1), !Z.shiftr_div_pow2 by lia.
  pow2_consts. lor_plus 2 1. fields.
Qed.

(** [snes_to_pc] reads the bank table in the slots 0, 1, 4 and 5 only:
    two tables that agree there translate every address alike, under
    every mapper. *)
Theorem snes_to_pc_reads_four_slots sa1banks sa1banks' rom s :
  sa1banks 0 = sa1banks' 0 -> sa1banks 1 = sa1banks' 1 ->
  sa1banks 4 = sa1banks' 4 -> sa1banks 5 = sa1banks' 5 ->
  ROM.snes_to_pc sa1banks rom s = ROM.snes_to_pc sa1banks' rom s.
Proof.
  intros H0 H1 H4 H5. unfold ROM.snes_to_pc.
  destruct (ROM.mapper rom); try reflexivity.
  destruct (Z.eqb_spec (Z.land (snesaddress.value s) 0x408000) 0x008000) as [E|E].
  - destruct (sa1rom_lorom_slot _ E) as [-> | [-> | [-> | ->]]]; congruence.
  - destruct (Z.land (snesaddress.value s) 0xC00000 =? 0xC00000);
      [|reflexivity].
    destruct (sa1rom_hirom_slot (snesaddress.value s))
      as [-> | [-> | [-> | ->]]]; congruence.
Qed.

(** ** Reading through the translation *)

Lemma data_at_Some rom buf i x :
  ROM.m_data rom = Some buf -> 0 <= i -> buf !! Z.to_nat i = Some x ->
  ROM.data_at rom i = Ok (byte_val x).
Proof.
  intros Hb Hi Hx. unfold ROM.data_at. rewrite Hb. osimpl. unfold byte_at.
  destruct (Z.ltb_spec i 0); [lia|]. rewrite Hx. reflexivity.
Qed.

Lemma data_at_negative rom i : i < 0 -> ROM.data_at rom i = Undefined.
Proof.
  intros Hi. unfold ROM.data_at. destruct (ROM.m_data rom); osimpl;
    [|reflexivity].
  unfold byte_at. destruct (Z.ltb_spec i 0); [reflexivity | lia].
Qed.

Lemma le24_lor x0 x1 x2 :
  Z.lor (Z.lor (byte_val x0) (Z.shiftl (byte_val x1) 8))
        (Z.shiftl (byte_val x2) 16)
  = byte_val x0 + 0x100 * byte_val x1 + 0x10000 * byte_val x2.
Proof.
  pose proof (byte_val_range x0). pose proof (byte_val_range x1).
  pose proof (byte_val_range x2).
  rewrite !Z.shiftl_mul_pow2 by lia. pow2_consts.
  rewrite (lor_add (byte_val x0) _ 8 8) by (try lia; fields).
  rewrite (lor_add _ _ 16 8) by (try lia; fields). lia.
Qed.

(** [read_byte], [read_word] and [read_long] assemble the bytes stored
    at an offset least significant first; the word stays below 0x10000
    and the long below 0x1000000. *)
Theorem reads_little_endian rom buf p x0 x1 x2 :
  ROM.m_data rom = Some buf ->
  0 <= pcaddress.value p -> pcaddress.value p + 2 < 0x80000000 ->
  buf !! Z.to_nat (pcaddress.value p) = Some x0 ->
  buf !! Z.to_nat (pcaddress.value p + 1) = Some x1 ->
  buf !! Z.to_nat (pcaddress.value p + 2) = Some x2 ->
  ROM.read_byte rom p = Ok (byte_val x0)
  /\ ROM.read_word rom p = Ok (byte_val x0 + 0x100 * byte_val x1)
  /\ ROM.read_long rom p
     = Ok (byte_val x0 + 0x100 * byte_val x1 + 0x10000 * byte_val x2).
Proof.
  intros Hb Hlo Hhi H0 H1 H2.
  unfold ROM.read_byte, ROM.read_word, ROM.read_long.
  rewrite !int_add_id by (unfold is_int; lia).
  rewrite (data_at_Some _ _ _ _ Hb Hlo H0).
  rewrite (data_at_Some _ _ (pcaddress.value p + 1) _ Hb ltac:(lia) H1).
  rewrite (data_at_Some _ _ (pcaddress.value p + 2) _ Hb ltac:(lia) H2).
  osimpl.
  rewrite le16_lor, le24_lor. repeat split; reflexivity.
Qed.

Lemma byte_of_shift x k : 0 <= k ->
  Z.land (Z.shiftr x k) 0xFF = (x / 2 ^ k) mod 0x100.
Proof.
  intros Hk. change 0xFF with (Z.ones 8).
  rewrite Z.land_ones, Z.shiftr_div_pow2 by lia. reflexivity.
Qed.

Lemma land_FF_byte x : 0 <= x < 0x100 -> Z.land x 0xFF = x.
Proof.
  intros Hx. change 0xFF with (Z.ones 8). rewrite Z.land_ones by lia.
  apply Z.mod_small. lia.
Qed.

Lemma pointer_of_bytes x0 x1 x2 bank :
  pointer.of_int
    (Z.lor (Z.lor (Z.lor (byte_val x0) (Z.shiftl (byte_val x1) 8))
                  (Z.shiftl (byte_val x2) 16))
           (int_shl bank 16))
  = pointer.make (byte_val x0) (byte_val x1)
                 (Z.lor (byte_val x2) (Z.land bank 0xFF)).
Proof.
  pose proof (byte_val_range x0). pose proof (byte_val_range x1).
  pose proof (byte_val_range x2).
  rewrite le24_lor. unfold pointer.of_int.
  set (v := byte_val x0 + 0x100 * byte_val x1 + 0x10000 * byte_val x2).
  assert (Hw : forall m, 0 <= m < 0x100000000 ->
            Z.land (int_shl bank 16) m = Z.land (bank * 0x10000) m).
  { intros m Hm. unfold int_shl. rewrite land_wrap32 by exact Hm.
    rewrite Z.shiftl_mul_pow2 by lia. reflexivity. }
  f_equal.
  - rewrite Z.land_lor_distr_l, Hw by lia.
    change 0xFF with (Z.shiftl (Z.ones 8) 0).
    rewrite !land_field by lia. unfold v.
    replace (2 ^ 0 * ((bank * 65536 / 2 ^ 0) mod 2 ^ 8)) with 0 by fields.
    rewrite Z.lor_0_r. fields.
  - rewrite Z.shiftr_lor, Z.land_lor_distr_l, !byte_of_shift by lia.
    unfold int_shl, wrap32. rewrite Z.shiftl_mul_pow2 by lia.
    replace ((((bank * 2 ^ 16 + 0x80000000) mod 0x100000000 - 0x80000000)
              / 2 ^ 8) mod 0x100) with 0 by fields.
    rewrite Z.lor_0_r. unfold v. fields.
  - rewrite Z.shiftr_lor, Z.land_lor_distr_l, !byte_of_shift by lia.
    unfold int_shl, wrap32. rewrite Z.shiftl_mul_pow2 by lia.
    change 0xFF with (Z.ones 8). rewrite Z.land_ones by lia.
    f_equal; [unfold v|]; fields.
Qed.

Section pointer_reads.
Variable sa1banks : Z -> Z.

(** [pointer_snes] returns the three bytes stored at the translated
    address as low, high and bank byte; the low eight bits of the [bank]
    argument are OR-ed into the stored bank byte, and its higher bits are
    dropped. *)
Theorem pointer_snes_bytes rom buf s bank x0 x1 x2 :
  let pc := pcaddress.value (ROM.snes_to_pc sa1banks rom s) in
  ROM.m_data rom = Some buf ->
  0 <= pc -> pc + 2 < 0x80000000 ->
  buf !! Z.to_nat pc = Some x0 ->
  buf !! Z.to_nat (pc + 1) = Some x1 ->
  buf !! Z.to_nat (pc + 2) = Some x2 ->
  ROM_pointer_snes sa1banks rom s bank
  = Ok (pointer.make (byte_val x0) (byte_val x1)
                     (Z.lor (byte_val x2) (Z.land bank 0xFF))).
Proof.
  intros pc Hb Hlo Hhi H0 H1 H2. unfold ROM_pointer_snes. fold pc.
  rewrite !int_add_id by (unfold is_int; lia).
  rewrite (data_at_Some _ _ pc _ Hb Hlo H0).
  rewrite (data_at_Some _ _ (pc + 1) _ Hb ltac:(lia) H1).
  rewrite (data_at_Some _ _ (pc + 2) _ Hb ltac:(lia) H2).
  osimpl. rewrite pointer_of_bytes. reflexivity.
Qed.

(** [pointer_snes] does not look at the sentinel: on an address the
    translation rejects it reads through [m_data[-1]]. *)
Theorem pointer_snes_rejected_address rom a bank :
  ROM.mapper rom <> sa1rom ->
  ROM.unmapped (ROM.mapper rom) a = true ->
  ROM.snes_to_pc sa1banks rom (snesaddress.make a) = pcaddress.make (-1)
  /\ ROM_pointer_snes sa1banks rom (snesaddress.make a) bank = Undefined.
Proof.
  intros Hm Hu.
  assert (Hpc : ROM.snes_to_pc sa1banks rom (snesaddress.make a)
                = pcaddress.make (-1)).
  { destruct (ROM.mapper rom) eqn:E; [|contradiction|].
    - apply snes_to_pc_lorom_unmapped; assumption.
    - apply snes_to_pc_fullsa1rom_unmapped; assumption. }
  split; [exact Hpc|]. unfold ROM_pointer_snes. rewrite Hpc.
  cbn [pcaddress.value]. rewrite (data_at_negative rom (-1)) by lia. reflexivity.
Qed.

(** Where the editor version lives. *)
Lemma lm_version_address rom k :
  (ROM.mapper rom = sa1rom -> sa1banks 0 = 0) ->
  0 <= k < 0x8000 - 0x70B4 ->
  ROM.snes_to_pc sa1banks rom (snesaddress.make (0x0FF0B4 + k))
  = pcaddress.make (int_add (0x7F0B4 + k) (ROM.header_size rom)).
Proof.
  intros Hbank Hk. unfold ROM.snes_to_pc. cbn [snesaddress.value].
  set (s := 0x0FF0B4 + k).
  assert (H1 : Z.land s 0xFE0000 = 0x0E0000)
    by (rewrite (land_field _ 17 7) by lia; unfold s; fields).
  assert (H2 : Z.land s 0x408000 = 0x008000)
    by (rewrite land_408000; unfold s; fields).
  assert (H3 : Z.land s 0x708000 = 0x008000).
  { change 0x708000 with (Z.lor (Z.shiftl (Z.ones 3) 20) (Z.shiftl (Z.ones 1) 15)).
    rewrite Z.land_lor_distr_r, (land_field _ 20 3), (land_field _ 15 1) by lia.
    pow2_consts. lor_plus 15 1. unfold s. fields. }
  assert (H4 : Z.land s 0xC00000 = 0)
    by (rewrite (land_field _ 22 2) by lia; unfold s; fields).
  assert (H5 : Z.land s 0x008000 = 0x008000)
    by (rewrite (land_field _ 15 1) by lia; unfold s; fields).
  assert (H6 : Z.land s 0x7FFF = 0x70B4 + k)
    by (rewrite (land_field _ 0 15) by lia; unfold s; fields).
  assert (H7 : Z.land s 0x7F0000 = 0x0F0000)
    by (rewrite (land_field _ 16 7) by lia; unfold s; fields).
  assert (H8 : Z.land s 0x3F0000 = 0x0F0000)
    by (rewrite (land_field _ 16 6) by lia; unfold s; fields).
  assert (H9 : Z.land s 0x1F0000 = 0x0F0000)
    by (rewrite (land_field _ 16 5) by lia; unfold s; fields).
  assert (H10 : Z.land s 0xE00000 = 0)
    by (rewrite (land_field _ 21 3) by lia; unfold s; fields).
  assert (H11 : Z.land s 0x800000 = 0)
    by (rewrite (land_field _ 23 1) by lia; unfold s; fields).
  assert (Hor : Z.lor 0x78000 (0x70B4 + k) = 0x7F0B4 + k)
    by (rewrite (lor_add _ _ 0 15) by (try lia; fields); lia).
  destruct (ROM.mapper rom) eqn:Hm.
  - rewrite H1, H2, H3, H7, H6. cbn [Z.eqb orb Pos.eqb Z.shiftr Z.shiftl Pos.div2 Z.div2 Z.opp Z.shiftr].
    change (Z.shiftr 0x0F0000 1) with 0x78000. rewrite Hor. reflexivity.
  - rewrite H2, H10, H9, H6. change (0x008000 =? 0x008000) with true. cbv iota.
    change (Z.shiftr 0 21) with 0. rewrite Hbank by reflexivity.
    change (Z.shiftr 0x0F0000 1) with 0x78000. rewrite Z.lor_0_l, Hor.
    reflexivity.
  - rewrite H4, H5, H11, H8, H6.
    change (0 =? 0xC00000) with false. change (0 =? 0) with true.
    change (0x008000 =? 0) with false. cbv iota. cbn [orb].
    change (Z.shiftr 0 2) with 0. change (Z.shiftr 0x0F0000 1) with 0x78000.
    rewrite Z.lor_0_l, Hor. reflexivity.
Qed.

(** [get_lm_version] reads the bytes at file offsets [header_size +
    0x7F0B4], [+ 0x7F0B6] and [+ 0x7F0B7] under every mapper (under
    SA1ROM for a bank table whose slot 0 is the start of the image),
    skipping the byte between the first two, and weighs them 100, 10 and
    1 as they are stored; so [is_exlevel] answers true as soon as the
    first byte is 3 or more. *)
Theorem lm_version_bytes rom buf major dot minor patch :
  (ROM.mapper rom = sa1rom -> sa1banks 0 = 0) ->
  ROM.m_data rom = Some buf ->
  0 <= ROM.header_size rom < 0x8000 ->
  take 4 (drop (Z.to_nat (ROM.header_size rom + 0x7F0B4)) buf)
  = [major; dot; minor; patch] ->
  let version := byte_val major * 100 + byte_val minor * 10 + byte_val patch in
  ROM_get_lm_version sa1banks rom = Ok version
  /\ ROM_is_exlevel sa1banks rom = Ok (253 <? version)
  /\ (3 <= byte_val major -> ROM_is_exlevel sa1banks rom = Ok true).
Proof.
  intros Hbank Hb Hh Hbytes version.
  assert (Hat : forall k x, (k < 4)%nat ->
            [major; dot; minor; patch] !! k = Some x ->
            ROM.data_at rom
              (pcaddress.value
                 (ROM.snes_to_pc sa1banks rom
                    (snesaddress.make (0x0FF0B4 + Z.of_nat k))))
            = Ok (byte_val x)).
  { intros k x Hk Hx. rewrite lm_version_address by (try assumption; lia).
    cbn [pcaddress.value]. rewrite int_add_id by (unfold is_int; lia).
    apply (data_at_Some _ buf); [exact Hb | lia |].
    rewrite <- Hbytes in Hx. rewrite lookup_take in Hx.
    rewrite decide_True in Hx by exact Hk.
    rewrite lookup_drop in Hx.
    replace (Z.to_nat (ROM.header_size rom + 0x7F0B4) + k)%nat
      with (Z.to_nat (0x7F0B4 + Z.of_nat k + ROM.header_size rom)) in Hx
      by lia.
    exact Hx. }
  assert (Hv : ROM_get_lm_version sa1banks rom = Ok version).
  { unfold ROM_get_lm_version. cbv zeta.
    pose proof (Hat 0%nat major ltac:(lia) eq_refl) as H0.
    pose proof (Hat 2%nat minor ltac:(lia) eq_refl) as H2.
    pose proof (Hat 3%nat patch ltac:(lia) eq_refl) as H3.
    change (0x0FF0B4 + Z.of_nat 0) with 0x0FF0B4 in H0.
    change (0x0FF0B4 + Z.of_nat 2) with (0x0FF0B4 + 2) in H2.
    change (0x0FF0B4 + Z.of_nat 3) with (0x0FF0B4 + 3) in H3.
    rewrite H0, H2, H3. reflexivity. }
  assert (He : ROM_is_exlevel sa1banks rom = Ok (253 <? version))
    by (unfold ROM_is_exlevel; rewrite Hv; reflexivity).
  split; [exact Hv|]. split; [exact He|].
  intros Hmajor. rewrite He. f_equal. apply Z.ltb_lt.
  pose proof (byte_val_range minor). pose proof (byte_val_range patch).
  unfold version. lia.
Qed.

End pointer_reads.

Lemma wrap32_sub_add x h : wrap32 (wrap32 (x - h) + h) = wrap32 x.
Proof. unfold wrap32. fields. Qed.

(** ** Writing the image back *)

(** What [close] does to the files: if the image cannot be opened for
    writing, the container keeps its buffer and no file changes;
    otherwise the file of the image is replaced by the first [size +
    header_size] bytes of the buffer, the buffer is released, and every
    other file is left as it was. *)
Theorem ROM_close_writes_prefix fs rom rom' fs' :
  ROM_close fs rom = Ok (rom', fs') ->
  (ROM.name rom ∈ unwritable fs /\ rom' = rom /\ fs' = fs)
  \/ ((ROM.name rom ∉ unwritable fs)
      /\ ROM.m_data rom' = None
      /\ unwritable fs' = unwritable fs
      /\ exists written,
           files fs' = <[ROM.name rom := written]> (files fs)
           /\ Z.of_nat (length written)
              = int_add (ROM.size rom) (ROM.header_size rom)
           /\ written `prefix_of` default [] (ROM.m_data rom)).
Proof.
  unfold ROM_close, open_write.
  destruct (decide (ROM.name rom ∈ unwritable fs)) as [Hin|Hnin].
  - osimpl. intros E. injection E as <- <-. left. auto.
  - intros Hres. right. split; [exact Hnin|].
    set (count := int_add (ROM.size rom) (ROM.header_size rom)) in *.
    assert (Hfiles : forall written,
              files (file_append
                       {| files := <[ROM.name rom := []]> (files fs);
                          unwritable := unwritable fs |}
                       (ROM.name rom) written)
              = <[ROM.name rom := written]> (files fs)).
    { intros written. unfold file_append. cbn [files].
      rewrite lookup_insert_eq. cbn [default app].
      apply insert_insert_eq. }
    destruct (Z.eqb_spec count 0) as [E0|E0].
    + osimpl in Hres. injection Hres as <- <-. cbn [ROM.m_data].
      split; [reflexivity|]. split; [reflexivity|].
      exists []. split; [apply Hfiles|]. split; [cbn; lia|].
      apply prefix_nil.
    + destruct (ROM.m_data rom) as [buf|]; osimpl in Hres; [|discriminate].
      destruct (Z.ltb_spec 0 count); [|discriminate].
      destruct (Z.leb_spec count (Z.of_nat (length buf))); [|discriminate].
      cbn [andb] in Hres. osimpl in Hres. injection Hres as <- <-.
      cbn [ROM.m_data]. split; [reflexivity|]. split; [reflexivity|].
      exists (take (Z.to_nat count) buf). split; [apply Hfiles|].
      split; [rewrite length_take; lia|]. apply prefix_take.
Qed.

Section reopening.
Variable read_all : filesystem -> string -> bool -> Z -> option (list byte).
Variable MAX_ROM_SIZE : Z.

(** Opening an image and closing it again leaves the file system as it
    was, for a file of less than 2 GiB whose bytes [read_all] has put at
    the start of the buffer: [close] writes back exactly the bytes
    [open] was given, header included. *)
Theorem open_close_round_trip fs rom rom' content :
  ROM.open read_all MAX_ROM_SIZE fs rom = Ok (true, rom') ->
  files fs !! ROM.name rom = Some content ->
  Z.of_nat (length content) < 0x80000000 ->
  (forall buf, ROM.m_data rom' = Some buf -> content `prefix_of` buf) ->
  ROM_close fs rom'
  = Ok (ROM.make (ROM.name rom) None (ROM.size rom') (ROM.header_size rom')
                 (ROM.mapper rom'), fs).
Proof.
  intros Hopen Hfile Hlen Hprefix.
  destruct (open_update fs (ROM.name rom)) as [file|] eqn:Hup.
  2:{ unfold ROM.open in Hopen. rewrite Hup in Hopen. discriminate. }
  pose proof (open_inv read_all MAX_ROM_SIZE fs rom file true rom' Hup Hopen)
    as Hinv.
  cbv zeta in Hinv. destruct Hinv as (Hname & Hh & Hs & _ & Hbuf).
  destruct (Hbuf eq_refl) as (buf & _ & Hdata & _).
  unfold open_update in Hup. rewrite Hfile in Hup.
  destruct (decide (ROM.name rom ∈ unwritable fs)) as [|Hnin];
    [discriminate|].
  injection Hup as Hup. subst file.
  assert (Hsize : file_size fs (ROM.name rom) = Z.of_nat (length content))
    by (unfold file_size, FILE; rewrite Hfile; reflexivity).
  rewrite Hsize, wrap32_id in Hh, Hs by (unfold is_int; lia).
  assert (Hcount : int_add (ROM.size rom') (ROM.header_size rom')
                   = Z.of_nat (length content)).
  { rewrite Hs, Hh. rewrite (land_field _ 0 15) by lia.
    unfold int_add, int_sub. rewrite wrap32_sub_add.
    apply wrap32_id. unfold is_int. lia. }
  destruct (Hprefix buf Hdata) as [rest ->].
  unfold ROM_close, open_write. rewrite Hname, Hcount.
  destruct (decide (ROM.name rom ∈ unwritable fs)); [contradiction|].
  rewrite Hdata.
  assert (Hfs : file_append
                  {| files := <[ROM.name rom := []]> (files fs);
                     unwritable := unwritable fs |} (ROM.name rom) content
                = fs).
  { unfold file_append. cbn [files unwritable].
    rewrite lookup_insert_eq. cbn [default app].
    rewrite insert_insert_eq, insert_id by exact Hfile.
    destruct fs. reflexivity. }
  destruct (Z.eqb_spec (Z.of_nat (length content)) 0) as [E|E].
  - assert (Hnil : content = [])
      by (destruct content; [reflexivity | discriminate]).
    rewrite Hnil in Hfs. osimpl. rewrite Hfs. reflexivity.
  - osimpl. destruct (Z.ltb_spec 0 (Z.of_nat (length content))); [|lia].
    cbn [andb].
    match goal with
    | |- context [?a <=? ?b] =>
        destruct (Z.leb_spec a b);
          [|pose proof (length_app content rest); lia]
    end.
    osimpl. rewrite Nat2Z.id, take_app_length, Hfs. reflexivity.
Qed.

End reopening.

(** ** More on the patch staging buffer *)

Lemma keep_flag o pixi meimei :
  (if origin.eqb o origin.meimei then meimei else pixi)
  = keep_of o pixi meimei.
Proof. destruct o; reflexivity. Qed.

Section staging_more.
Variable format_args : Type.
Variable vsnprintf : string -> format_args -> list byte.

Abbreviation append := (patchfile.append format_args).
Abbreviation appended := (patchfile.appended format_args vsnprintf).
Abbreviation stage := (patchfile.stage format_args vsnprintf).
Abbreviation apply_appends := (patchfile.apply_appends format_args vsnprintf).

(** A staging buffer constructed on the empty path is dropped without a
    trace, whatever the keep flags. *)
Theorem empty_path_leaves_no_trace w mode o (ops : list append) pixi meimei :
  Forall valid_append ops ->
  exists pf w1 w',
    (patchfile.set_keep pixi meimei;; stage "" mode o ops) w = Ok (pf, w1)
    /\ patchfile.destroy pf w1 = Ok ((), w')
    /\ fs w' = fs w.
Proof.
  intros Hvalid.
  set (w0 := {| heap := heap w; brk := brk w; fs := fs w;
                s_meimei_keep := meimei; s_pixi_keep := pixi |}).
  assert (Hkeep : patchfile.set_keep pixi meimei w = Ok ((), w0))
    by reflexivity.
  pose proof (stage_spec format_args vsnprintf w0 "" mode o ops Hvalid)
    as Hstage.
  cbv zeta in Hstage.
  cbn [heap brk fs s_meimei_keep s_pixi_keep w0] in Hstage.
  set (b := brk w) in *. set (d := Pos.succ (Pos.succ b)) in *.
  match type of Hstage with
  | _ = Ok (?x, ?y) => set (pf := x) in *; set (w1 := y) in *
  end.
  assert (Hb : heap w1 !! b = Some []).
  { unfold w1. cbn [heap].
    rewrite lookup_insert_ne, lookup_delete_ne, lookup_insert_ne
      by (unfold d; lia).
    apply lookup_insert_eq. }
  assert (Hd : heap w1 !! d = Some (mjoin (appended <$> ops)))
    by apply lookup_insert_eq.
  exists pf, w1. eexists.
  split; [rewrite (bind_Ok _ _ _ _ _ Hkeep); exact Hstage|].
  split.
  - unfold patchfile.destroy.
    erewrite bind_Ok
      by (unfold cxx_string.contents, load; cbn [pf patchfile.m_path
            cxx_string.c_str]; rewrite Hb; reflexivity).
    rewrite bool_decide_eq_true_2 by reflexivity.
    unfold cxx_string.destroy, free, mbind, mret, M_bind, M_ret.
    cbn [pf patchfile.m_data patchfile.m_path cxx_string.c_str].
    unfold loc in *. rewrite Hd. cbn [set_heap heap].
    rewrite lookup_delete_ne, Hb by (unfold d; lia). reflexivity.
  - reflexivity.
Qed.

(** The destructor writes what the last [close] saw: bytes appended
    after it stay in the stream and do not reach the file. *)
Theorem destructor_writes_last_close w path mode o (ops ops' : list append)
    pixi meimei :
  path <> ""%string ->
  Forall valid_append ops -> Forall valid_append ops' ->
  keep_of o pixi meimei = true ->
  path ∉ unwritable (fs w) ->
  exists pf w1 w',
    (patchfile.set_keep pixi meimei;;
     pf ← stage path mode o ops; apply_appends pf ops') w = Ok (pf, w1)
    /\ patchfile.m_data_stream pf
       = mjoin (appended <$> ops) ++ mjoin (appended <$> ops')
    /\ patchfile.destroy pf w1 = Ok ((), w')
    /\ files (fs w') = <[path := mjoin (appended <$> ops)]> (files (fs w)).
Proof.
  intros Hpath Hvalid Hvalid' Hk Hw.
  set (w0 := {| heap := heap w; brk := brk w; fs := fs w;
                s_meimei_keep := meimei; s_pixi_keep := pixi |}).
  assert (Hkeep : patchfile.set_keep pixi meimei w = Ok ((), w0))
    by reflexivity.
  pose proof (stage_spec format_args vsnprintf w0 path mode o ops Hvalid)
    as Hstage.
  cbv zeta in Hstage.
  cbn [heap brk fs s_meimei_keep s_pixi_keep w0] in Hstage.
  set (b := brk w) in *. set (d := Pos.succ (Pos.succ b)) in *.
  set (lowered := tolower <$> list_byte_of_string path) in *.
  set (content := mjoin (appended <$> ops)) in *.
  match type of Hstage with
  | _ = Ok (?x, ?y) => set (pf := x) in *; set (w1 := y) in *
  end.
  pose proof (apply_appends_spec format_args vsnprintf ops' pf w1 Hvalid')
    as Happ.
  set (pf' := patchfile.set_stream pf
                (patchfile.m_data_stream pf ++ mjoin (appended <$> ops')))
    in *.
  assert (Hd : heap w1 !! d = Some content) by apply lookup_insert_eq.
  assert (Hb : heap w1 !! b = Some lowered).
  { unfold w1. cbn [heap].
    rewrite lookup_insert_ne, lookup_delete_ne, lookup_insert_ne
      by (unfold d; lia).
    apply lookup_insert_eq. }
  destruct (destroy_spec pf' w1 lowered content)
    as (w' & Hdestroy & _ & Hfiles);
    [exact Hb | apply tolower_path_nonempty, Hpath | exact Hd
     | cbn; unfold d; lia | reflexivity |].
  exists pf', w1, w'.
  split.
  { rewrite (bind_Ok _ _ _ _ _ Hkeep), (bind_Ok _ _ _ _ _ Hstage).
    exact Happ. }
  split; [reflexivity|]. split; [exact Hdestroy|].
  cbv zeta in Hfiles.
  cbn [pf' pf w1 patchfile.set_stream patchfile.m_from_meimei
       patchfile.m_fs_path fs s_meimei_keep s_pixi_keep] in Hfiles.
  rewrite keep_flag, Hk in Hfiles.
  destruct (decide (path ∈ unwritable (fs w))); [contradiction|].
  exact Hfiles.
Qed.

(** Without any [close] the snapshot is the one the constructor made:
    the kept file is empty, whatever was appended. *)
Theorem unclosed_patchfile_writes_empty_file w path mode o
    (ops : list append) pixi meimei :
  path <> ""%string ->
  Forall valid_append ops ->
  keep_of o pixi meimei = true ->
  path ∉ unwritable (fs w) ->
  exists pf w1 w',
    (patchfile.set_keep pixi meimei;;
     pf ← patchfile.create path mode o; apply_appends pf ops) w
    = Ok (pf, w1)
    /\ patchfile.m_data_stream pf = mjoin (appended <$> ops)
    /\ patchfile.destroy pf w1 = Ok ((), w')
    /\ files (fs w') = <[path := []]> (files (fs w)).
Proof.
  intros Hpath Hvalid Hk Hw.
  set (w0 := {| heap := heap w; brk := brk w; fs := fs w;
                s_meimei_keep := meimei; s_pixi_keep := pixi |}).
  assert (Hkeep : patchfile.set_keep pixi meimei w = Ok ((), w0))
    by reflexivity.
  set (b := brk w). set (lowered := tolower <$> list_byte_of_string path).
  set (pf := patchfile.make path (cxx_string.make b) []
               (cxx_string.make (Pos.succ b))
               (Some (memoryfile.make None None 0))
               (origin.eqb o origin.meimei)
               (match mode with binary_mode => true | text_mode => false end)).
  set (w1 := {| heap := <[Pos.succ b := []]> (<[b := lowered]> (heap w));
                brk := Pos.succ (Pos.succ b); fs := fs w;
                s_meimei_keep := meimei; s_pixi_keep := pixi |}).
  assert (Hcreate : patchfile.create path mode o w0 = Ok (pf, w1))
    by reflexivity.
  pose proof (apply_appends_spec format_args vsnprintf ops pf w1 Hvalid)
    as Happ.
  set (pf' := patchfile.set_stream pf
                (patchfile.m_data_stream pf ++ mjoin (appended <$> ops)))
    in *.
  assert (Hd : heap w1 !! Pos.succ b = Some []) by apply lookup_insert_eq.
  assert (Hb : heap w1 !! b = Some lowered).
  { unfold w1. cbn [heap]. rewrite lookup_insert_ne by lia.
    apply lookup_insert_eq. }
  exists pf', w1. eexists.
  split.
  { rewrite (bind_Ok _ _ _ _ _ Hkeep), (bind_Ok _ _ _ _ _ Hcreate).
    exact Happ. }
  split; [reflexivity|].
  assert (Hne : lowered <> []) by apply tolower_path_nonempty, Hpath.
  split.
  - unfold patchfile.destroy.
    erewrite bind_Ok
      by (unfold cxx_string.contents, load; cbn [pf' pf patchfile.set_stream
            patchfile.m_path cxx_string.c_str]; rewrite Hb; reflexivity).
    rewrite bool_decide_eq_false_2 by exact Hne.
    match goal with
    | |- (?body ≫= ?rest) w1 = _ =>
        assert (Hbody : body w1
                        = Ok ((), set_fs
                                    (file_append
                                       {| files := <[path := []]> (files (fs w));
                                          unwritable := unwritable (fs w) |}
                                       path []) w1))
    end.
    { rewrite bind_get_world.
      cbn [pf' pf w1 patchfile.set_stream patchfile.m_from_meimei
           patchfile.m_fs_path patchfile.m_vfile patchfile.m_binary
           fs s_meimei_keep s_pixi_keep].
      rewrite keep_flag, Hk. unfold open_write.
      rewrite decide_False by exact Hw. reflexivity. }
    rewrite (bind_Ok _ _ _ _ _ Hbody).
    unfold cxx_string.destroy, free, mbind, mret, M_bind, M_ret.
    cbn [pf' pf patchfile.set_stream patchfile.m_data patchfile.m_path
         cxx_string.c_str set_fs heap].
    unfold loc in *. rewrite Hd. cbn [set_heap heap].
    rewrite lookup_delete_ne, Hb by lia. reflexivity.
  - cbn [fs set_heap set_fs file_append files].
    rewrite lookup_insert_eq. cbn [default app].
    apply insert_insert_eq.
Qed.

End staging_more.

Section restaging.
Variable format_args : Type.
Variable vsnprintf : string -> format_args -> list byte.
Variable fresh : memoryfile.t.

(** [clear] starts the staging over: after it only what is appended and
    finalized afterwards reaches the file, whatever the new snapshot
    held. *)
Theorem cleared_patchfile_restaged w path mode o
    (ops ops' : list (patchfile.append format_args)) pixi meimei :
  path <> ""%string ->
  Forall valid_append ops -> Forall valid_append ops' ->
  keep_of o pixi meimei = true ->
  path ∉ unwritable (fs w) ->
  let content' := mjoin (patchfile.appended format_args vsnprintf <$> ops') in
  exists pf w1 w',
    (patchfile.set_keep pixi meimei;;
     pf ← patchfile.stage format_args vsnprintf path mode o ops;
     pf ← patchfile_clear fresh pf;
     pf ← patchfile.apply_appends format_args vsnprintf pf ops';
     patchfile.close pf) w = Ok (pf, w1)
    /\ snapshot_consistent w1 pf
    /\ heap w1 !! cxx_string.c_str (patchfile.m_data pf) = Some content'
    /\ patchfile.destroy pf w1 = Ok ((), w')
    /\ files (fs w') = <[path := content']> (files (fs w)).
Proof.
  intros Hpath Hvalid Hvalid' Hk Hw content'.
  set (w0 := {| heap := heap w; brk := brk w; fs := fs w;
                s_meimei_keep := meimei; s_pixi_keep := pixi |}).
  assert (Hkeep : patchfile.set_keep pixi meimei w = Ok ((), w0))
    by reflexivity.
  pose proof (stage_spec format_args vsnprintf w0 path mode o ops Hvalid)
    as Hstage.
  cbv zeta in Hstage.
  cbn [heap brk fs s_meimei_keep s_pixi_keep w0] in Hstage.
  set (b := brk w) in *. set (d := Pos.succ (Pos.succ b)) in *.
  set (lowered := tolower <$> list_byte_of_string path) in *.
  match type of Hstage with
  | _ = Ok (?x, ?y) => set (pf1 := x) in *; set (w1 := y) in *
  end.
  set (pf2 := patchfile.make path (cxx_string.make b) []
                (cxx_string.make d) (Some fresh)
                (origin.eqb o origin.meimei)
                (match mode with binary_mode => true | text_mode => false end)).
  set (w2 := set_heap (<[d := []]> (heap w1)) w1).
  assert (Hclear : patchfile_clear fresh pf1 w1 = Ok (pf2, w2)).
  { unfold patchfile_clear, store, mbind, mret, M_bind, M_ret.
    cbn [pf1 patchfile.m_data cxx_string.c_str]. unfold loc in *.
    unfold w1 at 1. cbn [heap]. rewrite lookup_insert_eq. reflexivity. }
  pose proof (apply_appends_spec format_args vsnprintf ops' pf2 w2 Hvalid')
    as Happ.
  cbn [pf2 patchfile.set_stream patchfile.m_data_stream patchfile.m_fs_path
       patchfile.m_path patchfile.m_data patchfile.m_vfile
       patchfile.m_from_meimei patchfile.m_binary app] in Happ.
  fold content' in Happ.
  match type of Happ with
  | _ = Ok (?x, _) => set (pf3 := x) in *
  end.
  assert (Hd2 : heap w2 !! d = Some []) by apply lookup_insert_eq.
  pose proof (close_spec pf3 w2 [] fresh Hd2 eq_refl) as Hclose.
  unfold pf3, pf2, patchfile.set_stream in Hclose.
  cbn [patchfile.m_data_stream patchfile.m_fs_path patchfile.m_path
       patchfile.m_data patchfile.m_vfile patchfile.m_from_meimei
       patchfile.m_binary cxx_string.c_str app] in Hclose.
  unfold w2, w1 in Hclose.
  cbn [set_heap heap brk fs s_meimei_keep s_pixi_keep] in Hclose.
  fold content' in Hclose.
  match type of Hclose with
  | _ = Ok (?x, ?y) => set (pf4 := x) in *; set (w3 := y) in *
  end.
  assert (Hd3 : heap w3 !! Pos.succ d = Some content')
    by apply lookup_insert_eq.
  assert (Hb3 : heap w3 !! b = Some lowered).
  { unfold w3. cbn [heap].
    rewrite lookup_insert_ne, lookup_delete_ne, lookup_insert_ne,
      lookup_insert_ne, lookup_delete_ne, lookup_insert_ne
      by (unfold d; lia).
    apply lookup_insert_eq. }
  destruct (destroy_spec pf4 w3 lowered content')
    as (w' & Hdestroy & _ & Hfiles);
    [exact Hb3 | apply tolower_path_nonempty, Hpath | exact Hd3
     | cbn; unfold d; lia | reflexivity |].
  exists pf4, w3, w'.
  split.
  { rewrite (bind_Ok _ _ _ _ _ Hkeep), (bind_Ok _ _ _ _ _ Hstage),
      (bind_Ok _ _ _ _ _ Hclear), (bind_Ok _ _ _ _ _ Happ).
    exact Hclose. }
  split.
  { exists (memoryfile.make (Some b) (Some (Pos.succ d))
              (Z.of_nat (length content'))), content'.
    repeat split; try reflexivity; try exact Hd3. exists lowered. exact Hb3. }
  split; [exact Hd3|]. split; [exact Hdestroy|].
  cbv zeta in Hfiles.
  cbn [pf4 w3 patchfile.m_from_meimei patchfile.m_fs_path fs s_meimei_keep
       s_pixi_keep] in Hfiles.
  rewrite keep_flag, Hk in Hfiles.
  destruct (decide (path ∈ unwritable (fs w))); [contradiction|].
  exact Hfiles.
Qed.

End restaging.

Section moving_more.
Variable sso_capacity : nat.

Lemma string_move_inv w s bs dst src' w' :
  heap w !! cxx_string.c_str s = Some bs ->
  cxx_string.move_construct sso_capacity s w = Ok ((dst, src'), w') ->
  ((cxx_string.c_str dst = cxx_string.c_str s
    /\ cxx_string.c_str src' = brk w)
   \/ (cxx_string.c_str dst = brk w
       /\ cxx_string.c_str src' = cxx_string.c_str s))
  /\ fs w' = fs w
  /\ s_meimei_keep w' = s_meimei_keep w
  /\ s_pixi_keep w' = s_pixi_keep w.
Proof.
  intros Hs. unfold cxx_string.move_construct.
  erewrite bind_Ok by (unfold cxx_string.contents, load; rewrite Hs;
                       reflexivity).
  destruct (length bs <=? sso_capacity)%nat.
  - unfold cxx_string.new, alloc, store, mbind, mret, M_bind, M_ret.
    cbn [heap cxx_string.c_str].
    intros E.
    match type of E with
    | context [?m !! ?k] => destruct (m !! k); [|discriminate]
    end.
    injection E as <- <- <-. cbn. auto.
  - unfold cxx_string.new, alloc, mbind, mret, M_bind, M_ret.
    intros E. injection E as <- <- <-. cbn. auto.
Qed.

(** Moving a staging buffer and destroying both objects writes the file
    once, from the destination: the moved-from object, whose path is
    empty, leaves the file system alone. *)
Theorem moved_patchfile_destroyed_once w pf lowered content :
  heap_ok w ->
  heap w !! cxx_string.c_str (patchfile.m_path pf) = Some lowered ->
  lowered <> [] ->
  heap w !! cxx_string.c_str (patchfile.m_data pf) = Some content ->
  cxx_string.c_str (patchfile.m_path pf)
  <> cxx_string.c_str (patchfile.m_data pf) ->
  is_Some (patchfile.m_vfile pf) ->
  let path := patchfile.m_fs_path pf in
  let keep := if patchfile.m_from_meimei pf then s_meimei_keep w
              else s_pixi_keep w in
  exists dest other' w1 w2 w3,
    patchfile.move_construct sso_capacity pf w = Ok ((dest, other'), w1)
    /\ patchfile.destroy other' w1 = Ok ((), w2)
    /\ fs w2 = fs w
    /\ patchfile.destroy dest w2 = Ok ((), w3)
    /\ unwritable (fs w3) = unwritable (fs w)
    /\ files (fs w3)
       = (if keep then
            if decide (path ∈ unwritable (fs w)) then files (fs w)
            else <[path := content]> (files (fs w))
          else delete path (files (fs w))).
Proof.
  intros Hok Hp Hne Hd Hdist [v0 Hv] path keep.
  set (P := cxx_string.c_str (patchfile.m_path pf)) in *.
  set (D := cxx_string.c_str (patchfile.m_data pf)) in *.
  assert (HltP : (P < brk w)%positive) by (apply Hok; eauto).
  assert (HltD : (D < brk w)%positive) by (apply Hok; eauto).
  destruct (string_move_spec sso_capacity w _ lowered Hok Hp)
    as (npath & opath & wa & Hm1 & Hpath1 & Hopath1 & Hne1 & Hframe1
        & _ & Hbrk1 & Hok1).
  destruct (string_move_inv _ _ _ _ _ _ Hp Hm1)
    as (Hwhere1 & Hfs1 & Hmk1 & Hpk1).
  fold P in Hframe1, Hwhere1.
  assert (Hd1 : heap wa !! D = Some content)
    by (rewrite Hframe1 by (congruence || lia); exact Hd).
  destruct (string_move_spec sso_capacity wa _ content Hok1 Hd1)
    as (ndata & odata & wb & Hm2 & Hdata2 & Hodata2 & Hne2 & Hframe2
        & _ & Hbrk2 & Hok2).
  destruct (string_move_inv _ _ _ _ _ _ Hd1 Hm2)
    as (Hwhere2 & Hfs2 & Hmk2 & Hpk2).
  fold D in Hframe2, Hwhere2. rewrite Hbrk1 in Hwhere2.
  set (p := cxx_string.c_str npath) in *.
  set (p' := cxx_string.c_str opath) in *.
  set (q := cxx_string.c_str ndata) in *.
  set (q' := cxx_string.c_str odata) in *.
  assert (Hpos : (p = P /\ p' = brk w) \/ (p = brk w /\ p' = P))
    by exact Hwhere1.
  assert (Hqos : (q = D /\ q' = Pos.succ (brk w))
                 \/ (q = Pos.succ (brk w) /\ q' = D)) by exact Hwhere2.
  assert (Hsep : p <> p' /\ p <> q /\ p <> q' /\ p' <> q /\ p' <> q'
                 /\ q <> q')
    by (destruct Hpos as [[-> ->] | [-> ->]],
          Hqos as [[-> ->] | [-> ->]]; repeat split; (congruence || lia)).
  destruct Hsep as (Hs1 & Hs2 & Hs3 & Hs4 & Hs5 & Hs6).
  assert (Hpath2 : heap wb !! p = Some lowered).
  { rewrite Hframe2; [exact Hpath1 | |];
      destruct Hpos as [[-> _] | [-> _]]; (congruence || lia). }
  assert (Hopath2 : heap wb !! p' = Some []).
  { rewrite Hframe2; [exact Hopath1 | |];
      destruct Hpos as [[_ ->] | [_ ->]]; (congruence || lia). }
  set (dest := patchfile.make (patchfile.m_fs_path pf) npath
                 (patchfile.m_data_stream pf) ndata
                 (Some (memoryfile.make (Some p) (Some q)
                          (Z.of_nat (length content))))
                 (patchfile.m_from_meimei pf) (patchfile.m_binary pf)).
  set (other' := patchfile.make "" opath [] odata None
                   (patchfile.m_from_meimei pf) (patchfile.m_binary pf)).
  set (wc := set_heap (delete p' (delete q' (heap wb))) wb).
  assert (Hmove : patchfile.move_construct sso_capacity pf w
                  = Ok ((dest, other'), wb)).
  { unfold patchfile.move_construct.
    rewrite (bind_Ok _ _ _ _ _ Hm1). cbv beta iota.
    rewrite (bind_Ok _ _ _ _ _ Hm2). cbv beta iota.
    unfold patchfile.refresh_vfile.
    cbn [patchfile.m_vfile patchfile.m_data patchfile.m_path
         patchfile.m_fs_path patchfile.m_data_stream
         patchfile.m_from_meimei patchfile.m_binary].
    rewrite Hv. unfold cxx_string.contents, load, mbind, mret, M_bind, M_ret.
    fold q. unfold loc in *. rewrite Hdata2. reflexivity. }
  assert (Hdrop : patchfile.destroy other' wb = Ok ((), wc)).
  { unfold patchfile.destroy.
    erewrite bind_Ok
      by (unfold cxx_string.contents, load;
          cbn [other' patchfile.m_path]; fold p'; unfold loc in *;
          rewrite Hopath2; reflexivity).
    rewrite bool_decide_eq_true_2 by reflexivity.
    unfold cxx_string.destroy, free, mbind, mret, M_bind, M_ret.
    cbn [other' patchfile.m_data patchfile.m_path]. fold p' q'.
    unfold loc in *. rewrite Hodata2. cbn [set_heap heap].
    rewrite lookup_delete_ne, Hopath2 by congruence. reflexivity. }
  assert (Hpath3 : heap wc !! p = Some lowered).
  { unfold wc. cbn [set_heap heap].
    rewrite !lookup_delete_ne by congruence. exact Hpath2. }
  assert (Hdata3 : heap wc !! q = Some content).
  { unfold wc. cbn [set_heap heap].
    rewrite !lookup_delete_ne by congruence. exact Hdata2. }
  destruct (destroy_spec dest wc lowered content)
    as (w3 & Hdestroy & Hun & Hfiles);
    [exact Hpath3 | exact Hne | exact Hdata3 | exact Hs2 | reflexivity |].
  exists dest, other', wb, wc, w3.
  assert (Hfsb : fs wb = fs w) by congruence.
  split; [exact Hmove|]. split; [exact Hdrop|].
  split; [exact Hfsb|]. split; [exact Hdestroy|].
  cbv zeta in Hfiles.
  cbn [dest wc set_heap patchfile.m_from_meimei patchfile.m_fs_path fs
       s_meimei_keep s_pixi_keep] in Hfiles, Hun.
  rewrite Hfsb in Hfiles, Hun. rewrite Hmk2, Hmk1, Hpk2, Hpk1 in Hfiles.
  split; [exact Hun | exact Hfiles].
Qed.

End moving_more.

(** ** The stream handler *)

Lemma pending_insert s : forall handles replaced tp f r,
  handles !! tp = Some f -> replaced !! tp = Some r ->
  pending (<[tp := Some s]> handles) (<[tp := true]> replaced)
  ++ (if r : bool then option_list f else [])
  ≡ₚ s :: pending handles replaced.
Proof.
  induction handles as [|f0 handles IH]; intros [|r0 replaced] [|tp] f r Hf Hr;
    try discriminate.
  - injection Hf as ->. injection Hr as ->. cbn.
    rewrite (Permutation_app_comm (pending _ _)). reflexivity.
  - cbn in Hf, Hr. cbn [insert list_insert pending].
    rewrite <- app_assoc, (IH _ _ _ _ Hf Hr).
    symmetry. apply Permutation_middle.
Qed.

Lemma pending_lookup : forall handles replaced tp s,
  handles !! tp = Some (Some s) -> replaced !! tp = Some true ->
  s ∈ pending handles replaced.
Proof.
  induction handles as [|f0 handles IH]; intros [|r0 replaced] [|tp] s Hf Hr;
    try discriminate.
  - injection Hf as ->. injection Hr as ->. cbn. set_solver.
  - cbn in Hf, Hr. cbn [pending]. apply elem_of_app. right. eauto.
Qed.

Lemma replaced_not_null_insert handles replaced tp s :
  replaced_not_null handles replaced ->
  (tp < length handles)%nat ->
  replaced_not_null (<[tp := Some s]> handles) (<[tp := true]> replaced).
Proof.
  intros Hnn Hlt i Hi. destruct (decide (i = tp)) as [->|Hne].
  - exists s. apply list_lookup_insert_eq. exact Hlt.
  - rewrite list_lookup_insert_ne in Hi by congruence.
    rewrite list_lookup_insert_ne by congruence. apply Hnn, Hi.
Qed.

Lemma close_replaced_spec : forall handles replaced closed,
  replaced_not_null handles replaced ->
  NoDup (pending handles replaced ++ closed) ->
  iohandler.close_replaced handles replaced closed
  = Ok (rev (pending handles replaced) ++ closed).
Proof.
  induction handles as [|f handles IH]; intros [|r replaced] closed Hnn Hnd;
    try reflexivity.
  cbn [iohandler.close_replaced pending].
  assert (Hnn' : replaced_not_null handles replaced)
    by (intros i Hi; apply (Hnn (S i)), Hi).
  destruct r.
  - destruct (Hnn 0%nat eq_refl) as [s Hs]. injection Hs as ->.
    cbn [pending option_list option_rect app] in Hnd.
    apply NoDup_cons in Hnd as [Hnin Hnd].
    unfold iohandler.fclose.
    rewrite bool_decide_eq_false_2 by set_solver. osimpl.
    rewrite IH; [| exact Hnn' |].
    + cbn [option_list option_rect app rev]. rewrite <- app_assoc. reflexivity.
    + apply NoDup_app in Hnd as (H1 & H2 & H3).
      apply NoDup_app. split; [exact H1|]. split.
      * intros x Hx Hc. apply elem_of_cons in Hc as [->|Hc].
        -- apply Hnin. set_solver.
        -- exact (H2 x Hx Hc).
      * apply NoDup_cons. split; [set_solver | exact H3].
  - osimpl. cbn [app]. apply IH; assumption.
Qed.

Section handler_properties.
Variable spare : nat.

Lemma create_pending :
  pending (iohandler.m_handles (iohandler.create spare))
          (iohandler.m_replaced (iohandler.create spare)) = []
  /\ replaced_not_null (iohandler.m_handles (iohandler.create spare))
                       (iohandler.m_replaced (iohandler.create spare))
  /\ length (iohandler.m_handles (iohandler.create spare)) = (4 + spare)%nat
  /\ length (iohandler.m_replaced (iohandler.create spare)) = (4 + spare)%nat.
Proof.
  cbn [iohandler.create iohandler.m_handles iohandler.m_replaced].
  split; [|split; [|split]].
  - cbn. induction spare as [|n IH]; [reflexivity | exact IH].
  - intros i Hi. exfalso.
    do 4 (destruct i as [|i]; [discriminate|]). cbn in Hi.
    apply lookup_replicate in Hi as [Hi _]. discriminate.
  - cbn. rewrite length_replicate. reflexivity.
  - cbn. rewrite length_replicate. reflexivity.
Qed.

Lemma sets_spec : forall (calls : list (nat * iohandler.stream)) h closed,
  replaced_not_null (iohandler.m_handles h) (iohandler.m_replaced h) ->
  length (iohandler.m_handles h) = length (iohandler.m_replaced h) ->
  Forall (fun c => (c.1 < length (iohandler.m_handles h))%nat) calls ->
  NoDup (calls.*2
         ++ pending (iohandler.m_handles h) (iohandler.m_replaced h)
         ++ closed) ->
  exists h' closed',
    iohandler.sets (prod_map id Some <$> calls) h closed = Ok (h', closed')
    /\ replaced_not_null (iohandler.m_handles h') (iohandler.m_replaced h')
    /\ pending (iohandler.m_handles h') (iohandler.m_replaced h') ++ closed'
       ≡ₚ calls.*2
          ++ pending (iohandler.m_handles h) (iohandler.m_replaced h)
          ++ closed.
Proof.
  induction calls as [|[tp s] calls IH]; intros h closed Hnn Hlen Hin Hnd.
  - exists h, closed. split; [reflexivity|]. split; [exact Hnn | reflexivity].
  - apply Forall_cons in Hin as [Hlt Hin]. cbn [fst] in Hlt.
    cbn [fmap list_fmap snd app] in Hnd |- *.
    apply NoDup_cons in Hnd as [Hnin Hnd].
    destruct (lookup_lt_is_Some_2 (iohandler.m_handles h) tp Hlt) as [f Hf].
    destruct (lookup_lt_is_Some_2 (iohandler.m_replaced h) tp) as [r Hr];
      [lia|].
    set (h1 := iohandler.make (<[tp := Some s]> (iohandler.m_handles h))
                 (<[tp := true]> (iohandler.m_replaced h))).
    set (closed1 := (if r then option_list f else []) ++ closed).
    assert (Hset : iohandler.set tp (Some s) h closed = Ok (h1, closed1)).
    { unfold iohandler.set. rewrite Hr, Hf. osimpl. destruct r.
      - destruct (Hnn tp Hr) as [x Hx]. rewrite Hx in Hf. injection Hf as <-.
        unfold iohandler.fclose. rewrite bool_decide_eq_false_2; [reflexivity|].
        intros Hc. pose proof (pending_lookup _ _ _ _ Hx Hr) as Hp.
        apply NoDup_app in Hnd as (_ & _ & Hnd).
        apply NoDup_app in Hnd as (_ & Hdis & _). exact (Hdis x Hp Hc).
      - reflexivity. }
    assert (Hperm : pending (iohandler.m_handles h1) (iohandler.m_replaced h1)
                    ++ closed1
                    ≡ₚ s :: pending (iohandler.m_handles h)
                              (iohandler.m_replaced h) ++ closed).
    { unfold closed1, h1.
      cbn [iohandler.m_handles iohandler.m_replaced].
      rewrite app_assoc, (pending_insert s _ _ _ _ _ Hf Hr). reflexivity. }
    destruct (IH h1 closed1) as (h' & closed' & Hsets & Hnn' & Hfinal).
    + apply replaced_not_null_insert; assumption.
    + unfold h1. cbn [iohandler.m_handles iohandler.m_replaced].
      rewrite !length_insert. exact Hlen.
    + unfold h1. cbn [iohandler.m_handles]. rewrite length_insert. exact Hin.
    + rewrite Hperm. rewrite <- Permutation_middle.
      apply NoDup_cons. split; assumption.
    + exists h', closed'. split.
      * cbn [fmap list_fmap prod_map fst snd iohandler.sets id].
        rewrite Hset. exact Hsets.
      * split; [exact Hnn'|].
        rewrite Hfinal, Hperm. symmetry. apply Permutation_middle.
Qed.

(** Whatever streams are handed to [set], in whatever slots, each is
    closed exactly once by the time the handler is destroyed, either by a
    later [set] on its slot or by the destructor; and nothing else is
    closed, so the standard streams the constructor installs stay
    open. *)
Theorem handler_closes_each_stream_once
    (calls : list (nat * iohandler.stream)) :
  Forall (fun c => (c.1 < 4 + spare)%nat) calls ->
  NoDup calls.*2 ->
  exists closed,
    ('(h, closed) ← iohandler.sets (prod_map id Some <$> calls)
                      (iohandler.create spare) [];
     iohandler.destroy h closed) = Ok closed
    /\ closed ≡ₚ calls.*2.
Proof.
  intros Hin Hnd.
  destruct create_pending as (Hp & Hnn & Hlen & Hlen').
  destruct (sets_spec calls (iohandler.create spare) [])
    as (h' & closed' & Hsets & Hnn' & Hperm).
  - exact Hnn.
  - congruence.
  - rewrite Hlen. exact Hin.
  - rewrite Hp, !app_nil_r. exact Hnd.
  - rewrite Hp, !app_nil_r in Hperm.
    exists (rev (pending (iohandler.m_handles h') (iohandler.m_replaced h'))
            ++ closed').
    split.
    + rewrite Hsets. osimpl. unfold iohandler.destroy.
      apply close_replaced_spec; [exact Hnn'|].
      rewrite Hperm. exact Hnd.
    + rewrite <- Hperm. apply Permutation_app_tail.
      symmetry. apply Permutation_rev.
Qed.

Lemma close_replaced_null : forall handles replaced tp closed,
  (forall i, (i < tp)%nat -> replaced !! i = Some false) ->
  replaced !! tp = Some true -> handles !! tp = Some None ->
  iohandler.close_replaced handles replaced closed = Undefined.
Proof.
  induction handles as [|f handles IH]; intros [|r replaced] [|tp] closed
    Hbefore Hr Hf; try discriminate.
  - injection Hr as ->. injection Hf as ->. reflexivity.
  - cbn [iohandler.close_replaced].
    assert (E : r = false)
      by (pose proof (Hbefore 0%nat ltac:(lia)) as E; injection E as E;
          exact E).
    rewrite E. osimpl. apply (IH _ tp); [|exact Hr | exact Hf].
    intros i Hi. apply (Hbefore (S i)). lia.
Qed.

(** Installing the null pointer does not put a slot back into its
    initial state: the slot counts as replaced, and the destructor hands
    the null pointer to [fclose]. *)
Theorem handler_null_stream_is_closed (tp : nat) :
  (tp < 4 + spare)%nat ->
  ('(h, closed) ← iohandler.set tp None (iohandler.create spare) [];
   iohandler.destroy h closed) = Undefined.
Proof.
  intros Hlt.
  destruct create_pending as (_ & _ & Hlen & Hlen').
  destruct (lookup_lt_is_Some_2 (iohandler.m_handles (iohandler.create spare))
              tp) as [f Hf]; [lia|].
  assert (Hfalse : forall i, (i < 4 + spare)%nat ->
            iohandler.m_replaced (iohandler.create spare) !! i = Some false).
  { intros i Hi. cbn [iohandler.create iohandler.m_replaced].
    do 4 (destruct i as [|i]; [reflexivity|]). cbn.
    apply lookup_replicate. split; [reflexivity | lia]. }
  unfold iohandler.set. rewrite (Hfalse tp Hlt), Hf. osimpl.
  unfold iohandler.destroy. cbn [iohandler.m_handles iohandler.m_replaced].
  apply (close_replaced_null _ _ tp).
  - intros i Hi. rewrite list_lookup_insert_ne by lia. apply Hfalse. lia.
  - apply list_lookup_insert_eq. lia.
  - apply list_lookup_insert_eq. lia.
Qed.

End handler_properties.

(** ** The console helpers *)

(** [libconsole::isspace] accepts exactly the six white-space characters
    of the C locale: the codes 9 to 13 and 32. *)
Theorem isspace_c_locale ch :
  isspace ch
  = ((9 <=? byte_val ch) && (byte_val ch <=? 13)) || (byte_val ch =? 32).
Proof. destruct ch; reflexivity. Qed.

(** ** Worked examples *)

(** An 8 MiB FullSA1ROM image with a copier header: one offset in each
    of the three ranges [pc_to_snes] tells apart. *)
Lemma fullsa1rom_round_trip_witness :
  let rom := ROM.make "smw.smc" None 0x800000 512 fullsa1rom in
  ROM.pc_to_snes sa1banks_default rom (pcaddress.make (512 + 0x012345))
  = snesaddress.make 0x02A345
  /\ ROM.pc_to_snes sa1banks_default rom (pcaddress.make (512 + 0x234567))
     = snesaddress.make 0x86C567
  /\ ROM.pc_to_snes sa1banks_default rom (pcaddress.make (512 + 0x567890))
     = snesaddress.make 0xD67890
  /\ ROM.snes_to_pc sa1banks_default rom
       (ROM.pc_to_snes sa1banks_default rom (pcaddress.make (512 + 0x012345)))
     = pcaddress.make (512 + 0x012345)
  /\ ROM.snes_to_pc sa1banks_default rom
       (ROM.pc_to_snes sa1banks_default rom (pcaddress.make (512 + 0x234567)))
     = pcaddress.make (512 + 0x234567)
  /\ ROM.snes_to_pc sa1banks_default rom
       (ROM.pc_to_snes sa1banks_default rom (pcaddress.make (512 + 0x567890)))
     = pcaddress.make (512 + 0x567890).
Proof.
  cbv zeta. do 3 (split; [reflexivity|]).
  split; [|split];
    apply (fullsa1rom_round_trip sa1banks_default);
    first [reflexivity | unfold is_int; simpl; lia].
Defined.

Lemma lorom_snes_round_trip_witness :
  let rom := ROM.make "smw.smc" None 0x100000 512 lorom in
  ROM.snes_to_pc sa1banks_default rom (snesaddress.make 0x0FF0B4)
  = pcaddress.make (512 + 0x7F0B4)
  /\ ROM.pc_to_snes sa1banks_default rom
       (ROM.snes_to_pc sa1banks_default rom (snesaddress.make 0x0FF0B4))
     = snesaddress.make 0x0FF0B4.
Proof.
  cbv zeta. split; [reflexivity|].
  apply (lorom_snes_round_trip sa1banks_default);
    [reflexivity | lia | reflexivity].
Defined.

(** An offset below the header of a LoROM image, and the last byte of an
    8 MiB FullSA1ROM image. *)
Lemma pc_to_snes_sentinel_only_sa1rom_witness :
  let lo := ROM.make "smw.smc" None 0x100000 512 lorom in
  let full := ROM.make "smw.smc" None 0x800000 512 fullsa1rom in
  (0x8000
   <= snesaddress.value
        (ROM.pc_to_snes sa1banks_default lo (pcaddress.make 5))
   <= 0x7FFFFF)
  /\ 0x8000
     <= snesaddress.value
          (ROM.pc_to_snes sa1banks_default full
             (pcaddress.make (512 + 0x7FFFFF))).
Proof.
  cbv zeta. split.
  - exact (proj1 (pc_to_snes_sentinel_only_sa1rom sa1banks_default
                    (ROM.make "smw.smc" None 0x100000 512 lorom)
                    (pcaddress.make 5)) eq_refl).
  - apply (proj2 (pc_to_snes_sentinel_only_sa1rom sa1banks_default
                    (ROM.make "smw.smc" None 0x800000 512 fullsa1rom)
                    (pcaddress.make (512 + 0x7FFFFF))) eq_refl).
    simpl. lia.
Defined.

(** A mirror of bank 0 under LoROM, and a bank of the linear area under
    FullSA1ROM. *)
Lemma snes_to_pc_offset_bound_witness :
  let lo := ROM.make "smw.smc" None 0x100000 512 lorom in
  let full := ROM.make "smw.smc" None 0x800000 512 fullsa1rom in
  (exists a, 0 <= a < 0x400000
             /\ ROM.snes_to_pc sa1banks_default lo (snesaddress.make 0x808000)
                = pcaddress.make (int_add a 512))
  /\ (exists a, 0 <= a < 0x800000
                /\ ROM.snes_to_pc sa1banks_default full
                     (snesaddress.make 0xC12345)
                   = pcaddress.make (int_add a 512)).
Proof.
  cbv zeta. split.
  - exact (proj1 (snes_to_pc_offset_bound sa1banks_default
                    (ROM.make "smw.smc" None 0x100000 512 lorom) 0x808000
                    eq_refl) eq_refl).
  - exact (proj2 (snes_to_pc_offset_bound sa1banks_default
                    (ROM.make "smw.smc" None 0x800000 512 fullsa1rom) 0xC12345
                    eq_refl) eq_refl).
Defined.

(** Two bank tables that differ in slot 2 only. *)
Lemma snes_to_pc_reads_four_slots_witness :
  let other := fun i => if i =? 2 then 0x400000 else sa1banks_default i in
  let rom := ROM.make "smw.smc" None 0x400000 512 sa1rom in
  sa1banks_default 2 <> other 2
  /\ ROM.snes_to_pc sa1banks_default rom (snesaddress.make 0x40FFFF)
     = ROM.snes_to_pc other rom (snesaddress.make 0x40FFFF)
  /\ ROM.snes_to_pc sa1banks_default rom (snesaddress.make 0xE08000)
     = ROM.snes_to_pc other rom (snesaddress.make 0xE08000).
Proof.
  cbv zeta. split; [discriminate|].
  split;
    apply (snes_to_pc_reads_four_slots sa1banks_default
             (fun i => if i =? 2 then 0x400000 else sa1banks_default i));
    reflexivity.
Defined.

(** The last byte of a 4 MiB LoROM image. *)
Lemma lorom_round_trip_fails_from_3F0000_witness :
  let rom := ROM.make "smw.smc" None 0x400000 512 lorom in
  ROM.pc_to_snes sa1banks_default rom (pcaddress.make (512 + 0x3FFFFF))
  = snesaddress.make 0x7FFFFF
  /\ ROM.snes_to_pc sa1banks_default rom
       (ROM.pc_to_snes sa1banks_default rom (pcaddress.make (512 + 0x3FFFFF)))
     <> pcaddress.make (512 + 0x3FFFFF).
Proof.
  cbv zeta. split; [reflexivity|].
  apply (lorom_round_trip_fails_from_3F0000 sa1banks_default);
    [reflexivity | unfold is_int; simpl; lia | simpl; lia | simpl; lia].
Defined.

(** An offset in the tenth MiB of a SA1ROM image. *)
Lemma sa1rom_round_trip_fails_from_800000_witness :
  let rom := ROM.make "smw.smc" None 0xA00000 512 sa1rom in
  let p := pcaddress.make (512 + 0x912345) in
  ROM.snes_to_pc sa1banks_default rom (ROM.pc_to_snes sa1banks_default rom p)
  = pcaddress.make (512 + 0x112345)
  /\ ROM.snes_to_pc sa1banks_default rom
       (ROM.pc_to_snes sa1banks_default rom p) <> p.
Proof.
  cbv zeta.
  apply (sa1rom_round_trip_fails_from_800000 sa1banks_default
           (ROM.make "smw.smc" None 0xA00000 512 sa1rom)
           (pcaddress.make (512 + 0x912345))).
  - reflexivity.
  - unfold is_int. simpl. lia.
  - simpl. lia.
  - simpl. lia.
  - exists 1. split; [auto | reflexivity].
  - intros i [-> | [-> | [-> | ->]]]; discriminate.
Defined.

Lemma reads_little_endian_witness :
  let rom := ROM.make "smw.smc" (Some [x00; x21; x80; x01; xff]%byte) 5 0
                      lorom in
  ROM.read_byte rom (pcaddress.make 1) = Ok 0x21
  /\ ROM.read_word rom (pcaddress.make 1) = Ok 0x8021
  /\ ROM.read_long rom (pcaddress.make 1) = Ok 0x018021.
Proof.
  cbv zeta.
  apply (reads_little_endian
           (ROM.make "smw.smc" (Some [x00; x21; x80; x01; xff]%byte) 5 0 lorom)
           [x00; x21; x80; x01; xff]%byte (pcaddress.make 1) x21 x80 x01);
    first [reflexivity | simpl; lia].
Defined.

(** The three bytes behind SNES address 0x008000 of a headerless LoROM
    image, read once with bank 0 and once with bank 0x12. *)
Lemma pointer_snes_bytes_witness :
  let rom := ROM.make "smw.smc" (Some [x21; x80; x01; xff]%byte) 4 0 lorom in
  ROM_pointer_snes sa1banks_default rom (snesaddress.make 0x008000) 0
  = Ok (pointer.make 0x21 0x80 0x01)
  /\ ROM_pointer_snes sa1banks_default rom (snesaddress.make 0x008000) 0x12
     = Ok (pointer.make 0x21 0x80 0x13).
Proof.
  cbv zeta. split.
  - apply (pointer_snes_bytes sa1banks_default
             (ROM.make "smw.smc" (Some [x21; x80; x01; xff]%byte) 4 0 lorom)
             [x21; x80; x01; xff]%byte (snesaddress.make 0x008000) 0
             x21 x80 x01);
      first [reflexivity | simpl; lia].
  - apply (pointer_snes_bytes sa1banks_default
             (ROM.make "smw.smc" (Some [x21; x80; x01; xff]%byte) 4 0 lorom)
             [x21; x80; x01; xff]%byte (snesaddress.make 0x008000) 0x12
             x21 x80 x01);
      first [reflexivity | simpl; lia].
Defined.

(** A work-RAM address under LoROM. *)
Lemma pointer_snes_rejected_address_witness :
  let rom := ROM.make "smw.smc" (Some [x21; x80; x01; xff]%byte) 4 0 lorom in
  ROM.snes_to_pc sa1banks_default rom (snesaddress.make 0x7E0000)
  = pcaddress.make (-1)
  /\ ROM_pointer_snes sa1banks_default rom (snesaddress.make 0x7E0000) 0
     = Undefined.
Proof.
  cbv zeta.
  apply (pointer_snes_rejected_address sa1banks_default);
    [discriminate | reflexivity].
Defined.

(** An image that carries the text [3.31] at the version address: the
    digits are taken as they are stored, as character codes. *)
Lemma lm_version_bytes_witness :
  let buf := replicate (Z.to_nat 0x7F0B4) x00 ++ [x33; x2e; x33; x31]%byte in
  let rom := ROM.make "smw.smc" (Some buf) 0x80000 0 lorom in
  ROM_get_lm_version sa1banks_default rom = Ok 5659
  /\ ROM_is_exlevel sa1banks_default rom = Ok true.
Proof.
  cbv zeta.
  destruct (lm_version_bytes sa1banks_default
              (ROM.make "smw.smc"
                 (Some (replicate (Z.to_nat 0x7F0B4) x00
                        ++ [x33; x2e; x33; x31]%byte)) 0x80000 0 lorom)
              (replicate (Z.to_nat 0x7F0B4) x00 ++ [x33; x2e; x33; x31]%byte)
              x33 x2e x33 x31)
    as (Hv & _ & He).
  - discriminate.
  - reflexivity.
  - simpl. lia.
  - cbn [ROM.header_size].
    change (Z.to_nat (0 + 0x7F0B4)) with (Z.to_nat 0x7F0B4).
    rewrite drop_app_length' by (symmetry; apply length_replicate).
    reflexivity.
  - split; [exact Hv|]. apply He. unfold byte_val. simpl. lia.
Defined.

Lemma ROM_close_writes_prefix_witness :
  let fs := {| files := {[ "smw.smc"%string := [x00]%byte;
                           "notes.txt"%string := [x21]%byte ]};
               unwritable := ∅ |} in
  let rom := ROM.make "smw.smc" (Some [x21; x80; x01; xff]%byte) 2 1 lorom in
  exists rom' fs',
    ROM_close fs rom = Ok (rom', fs')
    /\ files fs' !! "notes.txt"%string = Some [x21]%byte
    /\ ((ROM.name rom ∈ unwritable fs) /\ rom' = rom /\ fs' = fs
        \/ (ROM.name rom ∉ unwritable fs)
           /\ ROM.m_data rom' = None
           /\ unwritable fs' = unwritable fs
           /\ exists written,
                files fs' = <[ROM.name rom := written]> (files fs)
                /\ Z.of_nat (length written)
                   = int_add (ROM.size rom) (ROM.header_size rom)
                /\ written `prefix_of` default [] (ROM.m_data rom)).
Proof.
  cbv zeta. eexists _, _. split; [reflexivity|]. split; [reflexivity|].
  apply ROM_close_writes_prefix. reflexivity.
Defined.

Lemma open_close_round_trip_witness :
  let fs := single_file "smw.smc" (marked_image 512 x23 x0d) in
  let rom := ROM.make "smw.smc" None 0 0 lorom in
  let rom' := ROM.make "smw.smc" (Some (marked_image 512 x23 x0d))
                       0x8000 512 fullsa1rom in
  ROM.open read_all_padded 0x8000 fs rom = Ok (true, rom')
  /\ ROM_close fs rom'
     = Ok (ROM.make "smw.smc" None 0x8000 512 fullsa1rom, fs).
Proof.
  cbv zeta.
  assert (H : ROM.open read_all_padded 0x8000
                (single_file "smw.smc" (marked_image 512 x23 x0d))
                (ROM.make "smw.smc" None 0 0 lorom)
              = Ok (true, ROM.make "smw.smc" (Some (marked_image 512 x23 x0d))
                                   0x8000 512 fullsa1rom))
    by reflexivity.
  split; [exact H|].
  apply (open_close_round_trip read_all_padded 0x8000 _ _ _
           (marked_image 512 x23 x0d) H).
  - reflexivity.
  - reflexivity.
  - intros buf E. injection E as <-. reflexivity.
Defined.

(** Both keep flags set, and a file system that holds one file. *)
Lemma empty_path_leaves_no_trace_witness :
  let vsnprintf := fun (format : string) (_ : unit) =>
                     list_byte_of_string format in
  let w := {| heap := ∅; brk := 1%positive;
              fs := single_file "stale.asm" ["!"%byte];
              s_meimei_keep := false; s_pixi_keep := false |} in
  exists pf w1 w',
    (patchfile.set_keep true true;;
     patchfile.stage unit vsnprintf "" binary_mode origin.pixi
       [patchfile.Raw unit [x60; x6b]%byte 2]) w = Ok (pf, w1)
    /\ patchfile.destroy pf w1 = Ok ((), w')
    /\ fs w' = single_file "stale.asm" ["!"%byte].
Proof.
  cbv zeta.
  apply (empty_path_leaves_no_trace unit
           (fun (format : string) (_ : unit) => list_byte_of_string format)
           {| heap := ∅; brk := 1%positive;
              fs := single_file "stale.asm" ["!"%byte];
              s_meimei_keep := false; s_pixi_keep := false |}
           binary_mode origin.pixi [patchfile.Raw unit [x60; x6b]%byte 2]
           true true).
  repeat constructor; simpl; lia.
Defined.

(** One append before [close] and one after it. *)
Lemma destructor_writes_last_close_witness :
  let vsnprintf := fun (format : string) (_ : unit) =>
                     list_byte_of_string format in
  let w := {| heap := ∅; brk := 1%positive;
              fs := single_file "stale.asm" ["!"%byte];
              s_meimei_keep := false; s_pixi_keep := false |} in
  exists pf w1 w',
    (patchfile.set_keep true false;;
     pf ← patchfile.stage unit vsnprintf "Patch.ASM" text_mode origin.pixi
            [patchfile.Formatted unit "org $008000" tt];
     patchfile.apply_appends unit vsnprintf pf
       [patchfile.Raw unit [x60; x6b]%byte 2]) w = Ok (pf, w1)
    /\ patchfile.m_data_stream pf
       = list_byte_of_string "org $008000" ++ [x60; x6b]%byte
    /\ patchfile.destroy pf w1 = Ok ((), w')
    /\ files (fs w') !! "Patch.ASM"%string
       = Some (list_byte_of_string "org $008000").
Proof.
  cbv zeta.
  destruct (destructor_writes_last_close unit
              (fun (format : string) (_ : unit) => list_byte_of_string format)
              {| heap := ∅; brk := 1%positive;
                 fs := single_file "stale.asm" ["!"%byte];
                 s_meimei_keep := false; s_pixi_keep := false |}
              "Patch.ASM" text_mode origin.pixi
              [patchfile.Formatted unit "org $008000" tt]
              [patchfile.Raw unit [x60; x6b]%byte 2] true false)
    as (pf & w1 & w' & Hrun & Hstream & Hdestroy & Hfiles).
  - discriminate.
  - repeat constructor.
  - repeat constructor; simpl; lia.
  - reflexivity.
  - set_solver.
  - exists pf, w1, w'. split; [exact Hrun|]. split; [exact Hstream|].
    split; [exact Hdestroy|]. rewrite Hfiles. apply lookup_insert_eq.
Defined.

Lemma unclosed_patchfile_writes_empty_file_witness :
  let vsnprintf := fun (format : string) (_ : unit) =>
                     list_byte_of_string format in
  let w := {| heap := ∅; brk := 1%positive;
              fs := single_file "patch.asm" ["!"%byte];
              s_meimei_keep := false; s_pixi_keep := false |} in
  exists pf w1 w',
    (patchfile.set_keep true false;;
     pf ← patchfile.create "patch.asm" text_mode origin.pixi;
     patchfile.apply_appends unit vsnprintf pf
       [patchfile.Formatted unit "org $008000" tt]) w = Ok (pf, w1)
    /\ patchfile.m_data_stream pf = list_byte_of_string "org $008000"
    /\ patchfile.destroy pf w1 = Ok ((), w')
    /\ files (fs w') !! "patch.asm"%string = Some [].
Proof.
  cbv zeta.
  destruct (unclosed_patchfile_writes_empty_file unit
              (fun (format : string) (_ : unit) => list_byte_of_string format)
              {| heap := ∅; brk := 1%positive;
                 fs := single_file "patch.asm" ["!"%byte];
                 s_meimei_keep := false; s_pixi_keep := false |}
              "patch.asm" text_mode origin.pixi
              [patchfile.Formatted unit "org $008000" tt] true false)
    as (pf & w1 & w' & Hrun & Hstream & Hdestroy & Hfiles).
  - discriminate.
  - repeat constructor.
  - reflexivity.
  - set_solver.
  - exists pf, w1, w'. split; [exact Hrun|]. split; [exact Hstream|].
    split; [exact Hdestroy|]. rewrite Hfiles. apply lookup_insert_eq.
Defined.

(** A snapshot left pointing nowhere by [clear], with a length that is
    not zero. *)
Lemma cleared_patchfile_restaged_witness :
  let vsnprintf := fun (format : string) (_ : unit) =>
                     list_byte_of_string format in
  let fresh := memoryfile.make None None 7 in
  let w := {| heap := ∅; brk := 1%positive;
              fs := single_file "stale.asm" ["!"%byte];
              s_meimei_keep := false; s_pixi_keep := false |} in
  exists pf w1 w',
    (patchfile.set_keep false true;;
     pf ← patchfile.stage unit vsnprintf "Patch.ASM" text_mode origin.meimei
            [patchfile.Formatted unit "org $008000" tt];
     pf ← patchfile_clear fresh pf;
     pf ← patchfile.apply_appends unit vsnprintf pf
            [patchfile.Raw unit [x60; x6b]%byte 1];
     patchfile.close pf) w = Ok (pf, w1)
    /\ patchfile.destroy pf w1 = Ok ((), w')
    /\ files (fs w') !! "Patch.ASM"%string = Some [x60]%byte.
Proof.
  cbv zeta.
  destruct (cleared_patchfile_restaged unit
              (fun (format : string) (_ : unit) => list_byte_of_string format)
              (memoryfile.make None None 7)
              {| heap := ∅; brk := 1%positive;
                 fs := single_file "stale.asm" ["!"%byte];
                 s_meimei_keep := false; s_pixi_keep := false |}
              "Patch.ASM" text_mode origin.meimei
              [patchfile.Formatted unit "org $008000" tt]
              [patchfile.Raw unit [x60; x6b]%byte 1] false true)
    as (pf & w1 & w' & Hrun & _ & _ & Hdestroy & Hfiles).
  - discriminate.
  - repeat constructor.
  - repeat constructor; simpl; lia.
  - reflexivity.
  - set_solver.
  - exists pf, w1, w'. split; [exact Hrun|]. split; [exact Hdestroy|].
    rewrite Hfiles. apply lookup_insert_eq.
Defined.

Lemma two_buffers_heap_ok (a b : list byte) f k1 k2 :
  heap_ok {| heap := {[ 1%positive := a; 2%positive := b ]};
             brk := 3%positive; fs := f;
             s_meimei_keep := k1; s_pixi_keep := k2 |}.
Proof.
  intros l [bs Hl]. cbn [heap brk] in *.
  apply lookup_insert_Some in Hl as [[<- _] | [_ Hl]]; [lia|].
  apply lookup_singleton_Some in Hl as [<- _]. lia.
Qed.

(** A finalized buffer holding two bytes, moved with a small-string
    capacity of 15 characters: the path is handed over with its buffer,
    the data is copied. *)
Lemma moved_patchfile_destroyed_once_witness :
  let w := {| heap := {[ 1%positive := list_byte_of_string
                                         "a-long-directory/patch.asm";
                         2%positive := [x60; x6b]%byte ]};
              brk := 3%positive; fs := single_file "stale.asm" ["!"%byte];
              s_meimei_keep := false; s_pixi_keep := true |} in
  let pf := patchfile.make "A-Long-Directory/Patch.ASM"
              (cxx_string.make 1%positive) [x60; x6b]%byte (cxx_string.make 2%positive)
              (Some (memoryfile.make (Some 1%positive) (Some 2%positive) 2))
              false true in
  exists dest other' w1 w2 w3,
    patchfile.move_construct 15 pf w = Ok ((dest, other'), w1)
    /\ patchfile.destroy other' w1 = Ok ((), w2)
    /\ fs w2 = fs w
    /\ patchfile.destroy dest w2 = Ok ((), w3)
    /\ files (fs w3) !! "A-Long-Directory/Patch.ASM"%string
       = Some [x60; x6b]%byte.
Proof.
  cbv zeta.
  destruct (moved_patchfile_destroyed_once 15
              {| heap := {[ 1%positive := list_byte_of_string
                                            "a-long-directory/patch.asm";
                            2%positive := [x60; x6b]%byte ]};
                 brk := 3%positive; fs := single_file "stale.asm" ["!"%byte];
                 s_meimei_keep := false; s_pixi_keep := true |}
              (patchfile.make "A-Long-Directory/Patch.ASM"
                 (cxx_string.make 1%positive) [x60; x6b]%byte (cxx_string.make 2%positive)
                 (Some (memoryfile.make (Some 1%positive) (Some 2%positive) 2))
                 false true)
              (list_byte_of_string "a-long-directory/patch.asm")
              [x60; x6b]%byte)
    as (dest & other' & w1 & w2 & w3 & Hmove & Hdrop & Hfs & Hdestroy & _
        & Hfiles).
  - apply two_buffers_heap_ok.
  - reflexivity.
  - discriminate.
  - reflexivity.
  - discriminate.
  - eauto.
  - exists dest, other', w1, w2, w3.
    split; [exact Hmove|]. split; [exact Hdrop|]. split; [exact Hfs|].
    split; [exact Hdestroy|].
    cbv zeta in Hfiles.
    cbn [patchfile.m_from_meimei patchfile.m_fs_path s_pixi_keep fs] in Hfiles.
    rewrite Hfiles. rewrite decide_False by set_solver.
    apply lookup_insert_eq.
Defined.

(** A handler whose arrays have the four slots of the constructor: the
    debug slot is given two streams in turn, the output slot one. *)
Lemma handler_closes_each_stream_once_witness :
  let calls := [(3%nat, iohandler.opened 1); (1%nat, iohandler.opened 2);
                (3%nat, iohandler.opened 3)] in
  exists closed,
    ('(h, closed) ← iohandler.sets (prod_map id Some <$> calls)
                      (iohandler.create 0) [];
     iohandler.destroy h closed) = Ok closed
    /\ closed ≡ₚ [iohandler.opened 1; iohandler.opened 2; iohandler.opened 3].
Proof.
  cbv zeta.
  apply (handler_closes_each_stream_once 0
           [(3%nat, iohandler.opened 1); (1%nat, iohandler.opened 2);
            (3%nat, iohandler.opened 3)]).
  - repeat constructor; simpl; lia.
  - apply (bool_decide_unpack _). reflexivity.
Defined.

(** The debug slot, which the constructor leaves null. *)
Lemma handler_null_stream_is_closed_witness :
  (3 < 4 + 0)%nat
  /\ ('(h, closed) ← iohandler.set 3 None (iohandler.create 0) [];
      iohandler.destroy h closed) = Undefined.
Proof.
  split; [lia|]. apply (handler_null_stream_is_closed 0 3). lia.
Defined.
